(** * RAG evaluation harness: a shallow embedding of [test.py]

    The development follows the source file top-down: the remote client
    ([MistralClient]), the chunker ([DocumentChunker]), the vector store
    ([VectorStore]), the two-stage pipeline ([RAGPipelineV2]) and the
    pairwise judge ([LLMJudge]), then the plain pipeline
    ([NormalMistral]) and the run that compares the two
    ([ComparisonFramework]).  Definitions come first, theorems after. *)

From Stdlib Require Import String Ascii.
From Stdlib Require Import ZArith NArith QArith List Bool Lia Sorted.
Import ListNotations.
Open Scope Z_scope.

(* ================================================================== *)
(** ** Python values used by the program                                *)
(* ================================================================== *)

(** A Python [str] is the list of its Unicode code points. *)
Definition str := list N.

(** ASCII literals of the source. *)
Definition lit (s : string) : str := map N_of_ascii (list_ascii_of_string s).

(** Literals with characters a Rocq string cannot hold as one character:
    [^] stands for the double quote, [~] for the em dash U+2014, [#] for
    the box line U+2501 and [@] for the bullet U+2022; none of the four
    occurs in the literals written this way. *)
Definition glyph (c : N) : N :=
  if N.eqb c 94 then 34
  else if N.eqb c 126 then 8212
  else if N.eqb c 35 then 9473
  else if N.eqb c 64 then 8226
  else c.

Definition text (s : string) : str := map glyph (lit s).

(** [len(x)] as a Python [int]. *)
Definition len {A} (l : list A) : Z := Z.of_nat (length l).

Fixpoint str_eqb (a b : str) : bool :=
  match a, b with
  | [], [] => true
  | x :: a', y :: b' => N.eqb x y && str_eqb a' b'
  | _, _ => false
  end.

(** [str.isspace] for one code point: the characters [str.split()] splits
    on (Unicode White_Space together with the separators U+001C..U+001F). *)
Definition isspace (c : N) : bool :=
  (existsb (N.eqb c)
     [9; 10; 11; 12; 13; 28; 29; 30; 31; 32; 133; 160; 5760;
      8232; 8233; 8239; 8287; 12288]
   || ((8192 <=? c) && (c <=? 8202)))%N.

(** [s.split()]: maximal runs of non-space characters, in order.  [cur] is
    the word being read. *)
Fixpoint split_from (cur : str) (s : str) : list str :=
  match s with
  | [] => match cur with [] => [] | _ => [cur] end
  | c :: s' =>
      if isspace c
      then match cur with
           | [] => split_from [] s'
           | _ => cur :: split_from [] s'
           end
      else split_from (cur ++ [c]) s'
  end.

Definition split (s : str) : list str := split_from [] s.

(** [sep.join(ws)]. *)
Fixpoint join (sep : str) (ws : list str) : str :=
  match ws with
  | [] => []
  | [w] => w
  | w :: ws' => w ++ sep ++ join sep ws'
  end.

(** Python slice bounds: a negative index counts from the end, and both
    bounds are clamped to [0, len]. *)
Definition slice_bound (n i : Z) : Z :=
  if i <? 0 then Z.max (i + n) 0 else Z.min i n.

(** [l[start:stop]]. *)
Definition slice {A} (l : list A) (start stop : Z) : list A :=
  let a := slice_bound (len l) start in
  let b := slice_bound (len l) stop in
  firstn (Z.to_nat (b - a)) (skipn (Z.to_nat a) l).

(** [sub in s] for strings. *)
Fixpoint starts_with (sub s : str) : bool :=
  match sub, s with
  | [], _ => true
  | x :: sub', y :: s' => N.eqb x y && starts_with sub' s'
  | _ :: _, [] => false
  end.

Fixpoint contains (sub s : str) : bool :=
  starts_with sub s ||
  match s with
  | [] => false
  | _ :: s' => contains sub s'
  end.

(** Exceptions the modelled code raises or lets through; the payload is
    [str(e)]. *)
Inductive exn : Type :=
| RuntimeError (msg : str)
| ValueError (msg : str)
| TypeError (msg : str)
| AttributeError (msg : str)
| AssertionError (msg : str)
| IndexError (msg : str).

Definition str_of_exn (e : exn) : str :=
  match e with
  | RuntimeError m | ValueError m | TypeError m
  | AttributeError m | AssertionError m | IndexError m => m
  end.

(** Outcome of a call that either returns or raises. *)
Inductive result (A : Type) : Type :=
| Ok (a : A)
| Raise (e : exn).
Arguments Ok {A} a.
Arguments Raise {A} e.

Definition is_raise {A} (r : result A) : bool :=
  match r with Ok _ => false | Raise _ => true end.

(* ================================================================== *)
(** ** Configuration                                                    *)
(* ================================================================== *)

Definition TEMP_NORMAL : Q := 7 # 10.
Definition TEMP_RAG : Q := 3 # 10.
Definition TEMP_JUDGE : Q := 1 # 10.
Definition MAX_TOKENS : Z := 2000.
Definition TOP_K : Z := 5.
Definition CHUNK_SIZE : Z := 300.
Definition CHUNK_OVERLAP : Z := 50.
Definition REQUEST_DELAY : Q := 3 # 2.

(** [range(n)] and [range(0, stop, step)] for a positive [step]. *)
Definition range (n : nat) : list Z := map Z.of_nat (seq 0 n).

Definition range_step (stop step : Z) : list Z :=
  map (fun j => Z.of_nat j * step) (seq 0 (Z.to_nat ((stop + step - 1) / step))).

(** [l[i]]: a negative index counts from the end; out of range raises. *)
Definition getitem {A} (l : list A) (i : Z) : result A :=
  let j := if i <? 0 then i + len l else i in
  if (0 <=? j) && (j <? len l) then
    match nth_error l (Z.to_nat j) with
    | Some x => Ok x
    | None => Raise (IndexError (lit "list index out of range"))
    end
  else Raise (IndexError (lit "list index out of range")).

(* ================================================================== *)
(** ** The numeric libraries                                            *)
(* ================================================================== *)

(** numpy and faiss are not part of the program: their calls are taken as
    an interface.  They compute on float32 arrays, so nothing is assumed
    about the numbers they return; a call may raise.  A float is carried
    as the rational it denotes. *)
Class NumLib : Type := {
  ndarray : Type;
  IndexFlatIP : Type;
  (** [np.array(embeddings, dtype='float32')] *)
  np_array : list (list Q) -> result ndarray;
  (** [np.vstack(all_embeddings)]; a batch is [None] when [embed] returned
      nothing *)
  np_vstack : list (option ndarray) -> result ndarray;
  (** [faiss.IndexFlatIP(all_embeddings.shape[1])] *)
  faiss_IndexFlatIP : ndarray -> result IndexFlatIP;
  (** [faiss.normalize_L2(x)]; the array is normalised in place, the
      model returns it *)
  faiss_normalize_L2 : option ndarray -> result ndarray;
  (** [index.add(x)] *)
  index_add : IndexFlatIP -> ndarray -> result IndexFlatIP;
  (** [index.search(x, k)], as [zip(scores[0], indices[0])] *)
  index_search : IndexFlatIP -> ndarray -> Z -> result (list (Q * Z));
  (** [f"{x:.3f}"] *)
  format_3f : Q -> str
}.

(* ================================================================== *)
(** ** MistralClient                                                    *)
(* ================================================================== *)

(** What is posted to the service. *)
Inductive Request : Type :=
| ChatRequest (system prompt : str) (temperature : Q) (max_tokens : Z)
| EmbedRequest (texts : list str).

(** What one [requests.post] and the decoding of its answer come to. *)
Inductive Reply : Type :=
| Status429                            (* resp.status_code == 429 *)
| HTTPError (msg : str)                (* raise_for_status() raised; str(e) *)
| OtherError (msg : str)               (* any other Exception; str(e) *)
| ChatCompletion (content : str)       (* data['choices'][0]['message']['content'] *)
| Embeddings (embeddings : list (list Q)).  (* item['embedding'] for item in data['data'] *)

(** The state the program runs in: the service (a function of the number
    of posts so far and of the request), the two counters of the global
    [client], and the delays slept, in seconds.  Wall-clock readings
    (latencies, timestamps) are not modelled. *)
Record World : Type := {
  upstream : nat -> Request -> Reply;
  posts : nat;
  call_count : Z;
  embed_count : Z;
  slept : list Q
}.

Definition post (w : World) (req : Request) : Reply * World :=
  (upstream w (posts w) req,
   {| upstream := upstream w; posts := S (posts w);
      call_count := call_count w; embed_count := embed_count w;
      slept := slept w |}).

Definition sleep (seconds : Q) (w : World) : World :=
  {| upstream := upstream w; posts := posts w;
     call_count := call_count w; embed_count := embed_count w;
     slept := slept w ++ [seconds] |}.

Definition add_call_count (n : Z) (w : World) : World :=
  {| upstream := upstream w; posts := posts w;
     call_count := call_count w + n; embed_count := embed_count w;
     slept := slept w |}.

Definition add_embed_count (n : Z) (w : World) : World :=
  {| upstream := upstream w; posts := posts w;
     call_count := call_count w; embed_count := embed_count w + n;
     slept := slept w |}.

Definition api_error (msg : str) : str := lit "[API_ERROR: " ++ msg ++ lit "]".

(** The [for attempt in range(5)] loop of [chat], over the attempts left. *)
Fixpoint chat_attempts (attempts : list Z) (req : Request) (w : World)
  : str * World :=
  match attempts with
  | [] => (lit "[API_ERROR: max retries]", w)
  | attempt :: rest =>
      let (reply, w1) := post w req in
      let retry_or_give_up (msg : str) :=
        if attempt <? 4
        then chat_attempts rest req (sleep (inject_Z (2 ^ attempt)) w1)
        else (api_error msg, w1) in
      match reply with
      | Status429 =>
          chat_attempts rest req (sleep (inject_Z (2 ^ attempt * 2)) w1)
      | ChatCompletion output => (output, add_call_count 1 w1)
      | HTTPError msg =>
          if contains (lit "429") msg
          then chat_attempts rest req (sleep (inject_Z (2 ^ attempt * 2)) w1)
          else retry_or_give_up msg
      | OtherError msg => retry_or_give_up msg
      | Embeddings _ => retry_or_give_up (lit "'choices'")
      end
  end.

(** [MistralClient.chat]; the latency of the pair it returns is dropped. *)
Definition chat (w : World) (prompt system : str) (temperature : Q)
    (max_tokens : Z) : str * World :=
  chat_attempts (range 5) (ChatRequest system prompt temperature max_tokens) w.

(** The [for attempt in range(5)] loop of [embed].  [Ok None] is the
    function running off its end without [return]. *)
Fixpoint embed_attempts `{NumLib} (attempts : list Z) (texts : list str)
    (w : World) : result (option ndarray) * World :=
  match attempts with
  | [] => (Ok None, w)
  | attempt :: rest =>
      let (reply, w1) := post w (EmbedRequest texts) in
      let retry_or_raise (msg : str) (w' : World) :=
        if attempt <? 4
        then embed_attempts rest texts (sleep (inject_Z (2 ^ attempt)) w')
        else (Raise (RuntimeError (lit "Embedding failed: " ++ msg)), w') in
      match reply with
      | Status429 =>
          embed_attempts rest texts (sleep (inject_Z (2 ^ attempt * 2)) w1)
      | Embeddings embeddings =>
          let w2 := add_embed_count (len texts) w1 in
          match np_array embeddings with
          | Ok a => (Ok (Some a), w2)
          | Raise e => retry_or_raise (str_of_exn e) w2
          end
      | HTTPError msg => retry_or_raise msg w1
      | OtherError msg => retry_or_raise msg w1
      | ChatCompletion _ => retry_or_raise (lit "'data'") w1
      end
  end.

(** [MistralClient.embed]. *)
Definition embed `{NumLib} (w : World) (texts : list str)
  : result (option ndarray) * World :=
  embed_attempts (range 5) texts w.

(* ================================================================== *)
(** ** DocumentChunker                                                  *)
(* ================================================================== *)

Module Doc.
Record t : Type := mk { id : str; title : str; content : str }.
End Doc.

Module Chunk.
Record t : Type := mk { chunk_id : Z; doc_id : str; title : str; text : str }.
End Chunk.

Record DocumentChunker : Type :=
  { chunk_size : Z; overlap : Z }.

(** [DocumentChunker.__init__]: both fields are stored as given. *)
Definition DocumentChunker_init (chunk_size overlap : Z) : DocumentChunker :=
  {| chunk_size := chunk_size; overlap := overlap |}.

Definition DocumentChunker_default : DocumentChunker :=
  DocumentChunker_init CHUNK_SIZE CHUNK_OVERLAP.

(** The chunk appended by one iteration of the window loop. *)
Definition window_chunk (self : DocumentChunker) (doc : Doc.t)
    (words : list str) (start chunk_id : Z) : Chunk.t :=
  let end_ := Z.min (start + chunk_size self) (len words) in
  Chunk.mk chunk_id (Doc.id doc) (Doc.title doc)
    (join (lit " ") (slice words start end_)).

(** The [while start < len(words)] loop of [chunk_documents] for one
    document.  It returns the chunks appended and the next [chunk_id];
    [None] means the fuel ran out before the loop condition failed. *)
Fixpoint chunk_windows (fuel : nat) (self : DocumentChunker) (doc : Doc.t)
    (words : list str) (start chunk_id : Z) : option (list Chunk.t * Z) :=
  match fuel with
  | O => None
  | S fuel' =>
      if start <? len words then
        let c := window_chunk self doc words start chunk_id in
        match chunk_windows fuel' self doc words
                (start + (chunk_size self - overlap self)) (chunk_id + 1) with
        | Some (cs, next_id) => Some (c :: cs, next_id)
        | None => None
        end
      else Some ([], chunk_id)
  end.

(** Body of the [for doc in documents] loop. *)
Definition chunk_document (fuel : nat) (self : DocumentChunker)
    (chunk_id : Z) (doc : Doc.t) : option (list Chunk.t * Z) :=
  let words := split (Doc.content doc) in
  if len words <=? chunk_size self then
    Some ([Chunk.mk chunk_id (Doc.id doc) (Doc.title doc) (Doc.content doc)],
          chunk_id + 1)
  else chunk_windows fuel self doc words 0 chunk_id.

Fixpoint chunk_documents_from (fuel : nat) (self : DocumentChunker)
    (chunk_id : Z) (documents : list Doc.t) : option (list Chunk.t) :=
  match documents with
  | [] => Some []
  | doc :: rest =>
      match chunk_document fuel self chunk_id doc with
      | None => None
      | Some (cs, next_id) =>
          match chunk_documents_from fuel self next_id rest with
          | None => None
          | Some more => Some (cs ++ more)
          end
      end
  end.

(** [DocumentChunker.chunk_documents]; [fuel] bounds the iterations of each
    window loop. *)
Definition chunk_documents (fuel : nat) (self : DocumentChunker)
    (documents : list Doc.t) : option (list Chunk.t) :=
  chunk_documents_from fuel self 0 documents.

(** The words of a chunk, as a reader of the chunk text sees them. *)
Definition chunk_words (c : Chunk.t) : list str := split (Chunk.text c).

(** [w1] and [w2] share exactly [k] words at their boundary: the last [k]
    words of [w1] are the first [k] words of [w2]. *)
Definition shares_boundary (k : nat) (w1 w2 : list str) : Prop :=
  (k <= length w1)%nat /\ (k <= length w2)%nat /\
  skipn (length w1 - k) w1 = firstn k w2.

(** [c1] is immediately followed by [c2] in [l]. *)
Definition consecutive {A} (l : list A) (c1 c2 : A) : Prop :=
  exists pre post, l = pre ++ c1 :: c2 :: post.

(* ================================================================== *)
(** ** VectorStore                                                      *)
(* ================================================================== *)

Record VectorStore `{NumLib} : Type := {
  index : option IndexFlatIP;
  chunks : list Chunk.t
}.

(** [VectorStore.__init__]. *)
Definition VectorStore_init `{NumLib} : VectorStore :=
  {| index := None; chunks := [] |}.

(** A retrieved chunk: the copy of the chunk with its [relevance_score]. *)
Record Retrieved : Type := {
  chunk : Chunk.t;
  relevance_score : Q
}.

(** The embedding loop of [build_index], over the batch offsets left: one
    [client.embed] per batch, then the delay.  A raising batch ends it. *)
Fixpoint embed_batches `{NumLib} (offsets : list Z) (texts : list str)
    (w : World) : result (list (option ndarray)) * World :=
  match offsets with
  | [] => (Ok [], w)
  | i :: rest =>
      let batch := slice texts i (i + 10) in
      match embed w batch with
      | (Raise e, w1) => (Raise e, w1)
      | (Ok embeddings, w1) =>
          match embed_batches rest texts (sleep REQUEST_DELAY w1) with
          | (Raise e, w2) => (Raise e, w2)
          | (Ok more, w2) => (Ok (embeddings :: more), w2)
          end
      end
  end.

(** [VectorStore.build_index]: the outcome, the store as the call leaves
    it, and the world. *)
Definition build_index `{NumLib} (self : VectorStore) (chunks : list Chunk.t)
    (w : World) : result unit * VectorStore * World :=
  let self1 := {| index := index self; chunks := chunks |} in
  let texts := map Chunk.text chunks in
  let batch_size := 10 in
  match embed_batches (range_step (len texts) batch_size) texts w with
  | (Raise e, w1) => (Raise e, self1, w1)
  | (Ok all_embeddings, w1) =>
      match np_vstack all_embeddings with
      | Raise e => (Raise e, self1, w1)
      | Ok stacked =>
          match faiss_IndexFlatIP stacked with
          | Raise e => (Raise e, self1, w1)
          | Ok empty_index =>
              let self2 := {| index := Some empty_index; chunks := chunks |} in
              match faiss_normalize_L2 (Some stacked) with
              | Raise e => (Raise e, self2, w1)
              | Ok normalized =>
                  match index_add empty_index normalized with
                  | Raise e => (Raise e, self2, w1)
                  | Ok full_index =>
                      (Ok tt, {| index := Some full_index; chunks := chunks |}, w1)
                  end
              end
          end
      end
  end.

(** The [for score, idx in zip(scores[0], indices[0])] loop of [search]. *)
Fixpoint search_results (chunks : list Chunk.t) (hits : list (Q * Z))
  : result (list Retrieved) :=
  match hits with
  | [] => Ok []
  | (score, idx) :: rest =>
      if idx <? len chunks then
        match getitem chunks idx with
        | Raise e => Raise e
        | Ok c =>
            match search_results chunks rest with
            | Raise e => Raise e
            | Ok results => Ok ({| chunk := c; relevance_score := score |} :: results)
            end
        end
      else search_results chunks rest
  end.

(** [VectorStore.search]. *)
Definition search `{NumLib} (self : VectorStore) (query : str) (top_k : Z)
    (w : World) : result (list Retrieved) * World :=
  match embed w [query] with
  | (Raise e, w1) => (Raise e, w1)
  | (Ok query_emb, w1) =>
      match faiss_normalize_L2 query_emb with
      | Raise e => (Raise e, w1)
      | Ok normalized =>
          match index self with
          | None =>
              (Raise (AttributeError
                        (lit "'NoneType' object has no attribute 'search'")), w1)
          | Some built =>
              match index_search built normalized top_k with
              | Raise e => (Raise e, w1)
              | Ok hits => (search_results (chunks self) hits, w1)
              end
          end
      end
  end.

(** An embedding call of [build_index] fails on [texts] from world [w]:
    some batch makes [client.embed] raise [e], leaving world [w'], every
    batch before it having returned. *)
Inductive batch_fails `{NumLib} (texts : list str)
  : list Z -> World -> exn -> World -> Prop :=
| batch_fails_here i rest w e w' :
    embed w (slice texts i (i + 10)) = (Raise e, w') ->
    batch_fails texts (i :: rest) w e w'
| batch_fails_later i rest w embeddings w1 e w' :
    embed w (slice texts i (i + 10)) = (Ok embeddings, w1) ->
    batch_fails texts rest (sleep REQUEST_DELAY w1) e w' ->
    batch_fails texts (i :: rest) w e w'.

Definition embedding_fails `{NumLib} (chunks : list Chunk.t) (w : World)
    (e : exn) (w' : World) : Prop :=
  let texts := map Chunk.text chunks in
  batch_fails texts (range_step (len texts) 10) w e w'.

(* ================================================================== *)
(** ** RAGPipelineV2                                                    *)
(* ================================================================== *)

(** binary64 arithmetic of [len(answer.split()) * 0.7].  A non-negative
    double is carried as the integer [m] with value [m * 2^-53];
    [round53 m] is the nearest integer with at most 53 significant bits,
    ties to even. *)
Definition round53 (m : Z) : Z :=
  let s := Z.log2 m - 52 in
  if s <=? 0 then m
  else
    let q := m / 2 ^ s in
    let r := m mod 2 ^ s in
    let half := 2 ^ (s - 1) in
    let q' := if (half <? r) || ((r =? half) && Z.odd q) then q + 1 else q in
    q' * 2 ^ s.

(** The double written [0.7] is [6305039478318694 * 2^-53]. *)
Definition DOUBLE_0_7 : Z := 6305039478318694.

(** [n * 0.7]: [n] converted to a double, multiplied, rounded; in units of
    [2^-53]. *)
Definition times_0_7 (n : Z) : Z := round53 (round53 n * DOUBLE_0_7).

(** [r >= n * 0.7] for ints [r] and [n]; Python compares an int with a
    float exactly. *)
Definition at_least_0_7 (r n : Z) : bool := times_0_7 n <=? r * 2 ^ 53.

Record Metadata : Type := {
  api_calls : Z;
  chunks_retrieved : Z;
  chunk_sources : list str;
  initial_answer_words : Z;
  final_answer_words : Z;
  retrieved_chunks : list (str * str * Q)
}.

Record Response : Type := {
  query : str;
  output : str;
  metadata : Metadata
}.

Record RAGPipelineV2 `{NumLib} : Type := {
  vector_store : VectorStore;
  responses : list Response
}.

(** [RAGPipelineV2._build_context]. *)
Fixpoint _build_context `{NumLib} (chunks : list Retrieved) : str :=
  match chunks with
  | [] => []
  | c :: rest =>
      (lit "
[Source: " ++ Chunk.title (chunk c) ++ lit "] (relevance: "
       ++ format_3f (relevance_score c) ++ lit ")
" ++ Chunk.text (chunk c) ++ lit "
") ++ _build_context rest
  end.

(** The two prompts of [process] and their system prompts. *)
Definition rag_prompt (context query : str) : str :=
  text "You have access to a VERIFIED KNOWLEDGE BASE and your own training knowledge.

### VERIFIED KNOWLEDGE BASE ###
"
  ++ context
  ++ text "
###############################

QUESTION: "
  ++ query
  ++ text "

INSTRUCTIONS:
1. Use the knowledge base as your PRIMARY source ~ prioritize facts from it
2. You MAY supplement with your own knowledge to give a COMPLETE, THOROUGH answer
3. When using knowledge base facts, be confident and specific
4. When adding your own knowledge beyond the documents, use hedging language 
   (e.g., ^Additionally...^, ^More broadly...^, ^It's also worth noting...^)
5. Do NOT truncate your answer ~ be as thorough and helpful as possible
6. If the question asks for a practical output (lesson plan, step-by-step guide, etc.),
   provide a FULL, DETAILED response ~ don't limit yourself to document excerpts
7. Present balanced perspectives where relevant
8. End with a brief confidence note

Give a comprehensive, well-structured answer.".

Definition rag_system : str :=
  text "You are an expert educational consultant with access to a verified knowledge base.
You give thorough, complete, well-structured answers. You ground your responses in verified sources 
when available, and supplement with your expertise when needed for completeness. You are balanced, 
evidence-based, and appropriately calibrated ~ confident about what the evidence shows, honest 
about uncertainties. You NEVER give truncated or incomplete answers.".

Definition critique_prompt (query answer : str) : str :=
  text "Review and improve this answer. 

QUESTION: "
  ++ query
  ++ text "

CURRENT ANSWER:
"
  ++ answer
  ++ text "

REVIEW CHECKLIST:
1. Is it COMPLETE? Does it fully address every part of the question?
2. Is it BALANCED? Are multiple perspectives shown?
3. Is it ACCURATE? Are claims well-supported?
4. Is confidence CALIBRATED? Are uncertain claims hedged appropriately?
5. Is it CLEAR and well-organized?

RULES FOR REVISION:
@ If the answer is already good, make only minor improvements ~ do NOT shorten it
@ If anything is missing, ADD it ~ never remove good content
@ The revised answer should be AT LEAST as long as the original
@ Keep the same evidence and facts, improve structure and balance
@ Ensure appropriate confidence levels throughout

Output ONLY the improved answer (no meta-commentary about what you changed).
End with: ^Confidence: HIGH/MEDIUM/LOW^ ".

Definition critique_system : str :=
  text "You are a quality reviewer. Improve the answer while preserving or 
increasing its length and completeness. Never truncate good content. Fix balance, accuracy, 
and calibration issues. Output only the improved answer.".

(** [list(set(...))]: the distinct elements; Python leaves their order
    unspecified, the model keeps first occurrences. *)
Fixpoint distinct (l : list str) : list str :=
  match l with
  | [] => []
  | x :: l' => x :: filter (fun y => negb (str_eqb x y)) (distinct l')
  end.

(** The stage-1 draft and the stage-2 revision of [process], given what
    was retrieved and the world after retrieval. *)
Definition draft_of `{NumLib} (query : str) (retrieved : list Retrieved)
    (w : World) : str * World :=
  chat w (rag_prompt (_build_context retrieved) query) rag_system
    TEMP_RAG MAX_TOKENS.

Definition revision_of (query answer : str) (w : World) : str * World :=
  chat (sleep REQUEST_DELAY w) (critique_prompt query answer) critique_system
    TEMP_RAG MAX_TOKENS.

(** [RAGPipelineV2.process]. *)
Definition process `{NumLib} (self : RAGPipelineV2) (query : str) (w : World)
  : result Response * RAGPipelineV2 * World :=
  match search (vector_store self) query TOP_K w with
  | (Raise e, w1) => (Raise e, self, w1)
  | (Ok retrieved, w1) =>
      let (answer, w2) := draft_of query retrieved w1 in
      let (revised, w3) := revision_of query answer w2 in
      let final_output :=
        if at_least_0_7 (len (split revised)) (len (split answer))
        then revised else answer in
      let result :=
        {| query := query;
           output := final_output;
           metadata :=
             {| api_calls := 0 + 1 + 1;
                chunks_retrieved := len retrieved;
                chunk_sources :=
                  distinct (map (fun c => Chunk.doc_id (chunk c)) retrieved);
                initial_answer_words := len (split answer);
                final_answer_words := len (split final_output);
                retrieved_chunks :=
                  map (fun c => (Chunk.doc_id (chunk c), Chunk.title (chunk c),
                                 relevance_score c)) retrieved |} |} in
      (Ok result,
       {| vector_store := vector_store self;
          responses := responses self ++ [result] |},
       w3)
  end.

(* ================================================================== *)
(** ** LLMJudge                                                         *)
(* ================================================================== *)

(** Values of the dictionaries the judge handles: decoded JSON and what
    the code stores next to it.  A [dict] keeps its keys in insertion
    order. *)
#[warnings="-register-all"]
Inductive pyval : Type :=
| PNone
| PBool (b : bool)
| PInt (z : Z)
| PFloat (q : Q)
| PStr (s : str)
| PList (l : list pyval)
| PDict (d : list (str * pyval)).

Definition dict : Type := list (str * pyval).

(** [d.get(k)] *)
Fixpoint dict_get (k : str) (d : dict) : option pyval :=
  match d with
  | [] => None
  | (k', v) :: d' => if str_eqb k' k then Some v else dict_get k d'
  end.

(** [d[k] = v] *)
Fixpoint dict_set (k : str) (v : pyval) (d : dict) : dict :=
  match d with
  | [] => [(k, v)]
  | (k', v') :: d' =>
      if str_eqb k' k then (k', v) :: d' else (k', v') :: dict_set k v d'
  end.

Fixpoint dict_del (k : str) (d : dict) : dict :=
  match d with
  | [] => []
  | (k', v) :: d' => if str_eqb k' k then d' else (k', v) :: dict_del k d'
  end.

(** [d.pop(k, default)]: the value and the dictionary left. *)
Definition dict_pop (k : str) (default : pyval) (d : dict) : pyval * dict :=
  (match dict_get k d with Some v => v | None => default end, dict_del k d).

(** [json] and [re] are not part of the program: the decoder and the two
    case-insensitive searches of [_parse] are taken as an interface. *)
Class TextLib : Type := {
  (** [json.loads(s)] on a text that starts with an opening brace: the
      object decoded, or [None] when it raises *)
  json_loads : str -> option dict;
  (** the search for [dim], ignoring case, followed by one or more
      quotes, spaces or colons and then a digit: the digit, as
      [int(m.group(1))] *)
  search_dim : str -> str -> option Z;
  (** [re.search(r'prefer.*?A', text, re.I)], for the label [A] or [B] *)
  search_prefer : str -> str -> bool
}.

Definition DIMS : list str :=
  [lit "accuracy"; lit "completeness"; lit "balance"; lit "clarity";
   lit "calibration"; lit "helpfulness"].

(** [re.search(r'\{[\s\S]*\}', text)], as [match.group()]: from the first
    opening brace to the last closing brace after it. *)
Fixpoint from_first_open (s : str) : option str :=
  match s with
  | [] => None
  | c :: s' => if N.eqb c 123 then Some s else from_first_open s'
  end.

Fixpoint upto_last_close (s : str) : option str :=
  match s with
  | [] => None
  | c :: s' =>
      match upto_last_close s' with
      | Some t => Some (c :: t)
      | None => if N.eqb c 125 then Some [c] else None
      end
  end.

Definition search_braces (text : str) : option str :=
  match from_first_open text with
  | Some s => upto_last_close s
  | None => None
  end.

(** First [try] of [_parse]: [None] stands for no match or a decoding
    error, both of which lead to the second [try]. *)
Definition parse_json `{TextLib} (text : str) : option dict :=
  match search_braces text with
  | Some m => json_loads m
  | None => None
  end.

(** Second [try] of [_parse]. *)
Definition parse_patterns `{TextLib} (text : str) : dict :=
  let section :=
    PDict (map (fun dim =>
                  (dim, PInt (match search_dim dim text with
                              | Some n => n
                              | None => 3
                              end))) DIMS) in
  [ (lit "response_a", section);
    (lit "response_b", section);
    (lit "preferred",
     PStr (if search_prefer (lit "A") text then lit "A"
           else if search_prefer (lit "B") text then lit "B"
           else lit "TIE"));
    (lit "reasoning", PStr (lit "Extracted")) ].

(** [LLMJudge._parse].  Nothing in the second [try] can raise on a
    string, so its [except: return None] is never taken. *)
Definition _parse `{TextLib} (text : str) : option dict :=
  match parse_json text with
  | Some scores => Some scores
  | None => Some (parse_patterns text)
  end.

(** The pipeline behind a label. *)
Inductive Source : Type := normal | rag.

Definition name (p : Source) : str :=
  match p with normal => lit "normal" | rag => lit "rag" end.

Definition other (p : Source) : Source :=
  match p with normal => rag | rag => normal end.

Definition scores_key (p : Source) : str :=
  match p with normal => lit "normal_scores" | rag => lit "rag_scores" end.

Record LLMJudge : Type := { evaluations : list dict }.

(** [LLMJudge.JUDGE_SYSTEM]. *)
Definition JUDGE_SYSTEM : str :=
  text "You are an expert evaluator comparing two AI responses.
You receive a QUESTION and two RESPONSES (A and B, randomized).
You do NOT know which system produced which.

Rate EACH on 6 dimensions (1-5):
1. ACCURACY: Facts correct, well-supported?
2. COMPLETENESS: Thoroughly addresses the question?
3. BALANCE: Multiple perspectives fairly presented?
4. CLARITY: Well-organized, easy to follow?
5. CALIBRATION: Appropriately expresses uncertainty?
6. HELPFULNESS: Actually useful to the asker?

Output ONLY valid JSON:
```json
{
  ^response_a^: {^accuracy^: X, ^completeness^: X, ^balance^: X, ^clarity^: X, ^calibration^: X, ^helpfulness^: X},
  ^response_b^: {^accuracy^: X, ^completeness^: X, ^balance^: X, ^clarity^: X, ^calibration^: X, ^helpfulness^: X},
  ^preferred^: ^A^ or ^B^ or ^TIE^,
  ^reasoning^: ^Brief explanation^
}
```
Judge on QUALITY only, not length.".

Definition judge_prompt (query a b : str) : str :=
  text "QUESTION: "
  ++ query
  ++ text "

### RESPONSE A ###
"
  ++ slice a 0 2500
  ++ text "

### RESPONSE B ###
"
  ++ slice b 0 2500
  ++ text "

Rate both. Output ONLY valid JSON.".

(** [{"A": when_A, "B": when_B}.get(preferred, "tie")]: a list or a dict
    cannot be hashed. *)
Definition winner_of (when_A when_B : Source) (preferred : pyval) : result str :=
  match preferred with
  | PStr s =>
      if str_eqb s (lit "A") then Ok (name when_A)
      else if str_eqb s (lit "B") then Ok (name when_B)
      else Ok (lit "tie")
  | PList _ => Raise (TypeError (lit "unhashable type: 'list'"))
  | PDict _ => Raise (TypeError (lit "unhashable type: 'dict'"))
  | _ => Ok (lit "tie")
  end.

(** The [if scores:] branch of [evaluate]: labels back to pipelines. *)
Definition remap (a_is : Source) (scores : dict) : result dict :=
  let (response_a, s1) := dict_pop (lit "response_a") (PDict []) scores in
  let s2 := dict_set (scores_key a_is) response_a s1 in
  let (response_b, s3) := dict_pop (lit "response_b") (PDict []) s2 in
  let s4 := dict_set (scores_key (other a_is)) response_b s3 in
  let preferred :=
    match dict_get (lit "preferred") s4 with
    | Some v => v
    | None => PStr (lit "")
    end in
  match winner_of a_is (other a_is) preferred with
  | Raise e => Raise e
  | Ok winner => Ok (dict_set (lit "winner") (PStr winner) s4)
  end.

Definition neutral_scores : pyval :=
  PDict (map (fun dim => (dim, PInt 3)) DIMS).

(** The [else] branch of [evaluate]. *)
Definition parse_failed : dict :=
  [ (lit "normal_scores", neutral_scores);
    (lit "rag_scores", neutral_scores);
    (lit "winner", PStr (lit "tie"));
    (lit "reasoning", PStr (lit "Parse failed")) ].

(** The [if scores: ... else: ...] of [evaluate]: [None] and the empty
    dictionary are false. *)
Definition verdict_of (a_is : Source) (scores : option dict) : result dict :=
  match scores with
  | Some (entry :: more) => remap a_is (entry :: more)
  | Some [] | None => Ok parse_failed
  end.

(** The label assignment: [random.random() > 0.5] puts the normal
    pipeline under A. *)
Definition assign (random : Q) : Source :=
  if Qle_bool random (1 # 2) then rag else normal.

(** What the judge model is asked and what it answers. *)
Definition judge_output (query resp_normal resp_rag : str) (random : Q)
    (w : World) : str * World :=
  let (a, b) :=
    match assign random with
    | normal => (resp_normal, resp_rag)
    | rag => (resp_rag, resp_normal)
    end in
  chat w (judge_prompt query a b) JUDGE_SYSTEM TEMP_JUDGE MAX_TOKENS.

(** [LLMJudge.evaluate]; [random] is the value [random.random()] draws. *)
Definition evaluate `{TextLib} (self : LLMJudge)
    (query resp_normal resp_rag : str) (random : Q) (w : World)
  : result dict * LLMJudge * World :=
  let a_is := assign random in
  let (output, w1) := judge_output query resp_normal resp_rag random w in
  match verdict_of a_is (_parse output) with
  | Raise e => (Raise e, self, w1)
  | Ok scores =>
      (Ok scores, {| evaluations := evaluations self ++ [scores] |}, w1)
  end.

(** All six dimension scores are present, as integers, under [key]. *)
Definition has_all_scores (key : str) (verdict : dict) : Prop :=
  exists d, dict_get key verdict = Some (PDict d)
            /\ forall dim, In dim DIMS -> exists n, dict_get dim d = Some (PInt n).

(* ================================================================== *)
(** ** A reference instance of the numeric libraries                    *)
(* ================================================================== *)

(** The libraries on arrays whose float32 arithmetic is exact (rows of
    unit length with small integer coordinates): [IndexFlatIP] keeps the
    rows added; a search scores every row by inner product and returns
    exactly [k] hits by descending score, equal scores latest first,
    padded with label [-1] and score [-FLT_MAX] when fewer than [k] rows
    are stored.  A batch that is [None] makes [np.vstack] build an object
    array, which faiss accepts as a shape and refuses as data.  It serves
    to run the program on concrete inputs; no statement over all
    libraries depends on it. *)
Module Flat.

(** An array with two axes: [float32] rows, or the object array numpy
    makes of batches among which one is [None], whose cells hold a number
    or [None]. *)
Inductive ndarray : Type :=
| float32 (rows : list (list Q))
| object (rows : list (list (option Q))).

Record index : Type := { d : nat; xb : list (list Q) }.

Definition width {A} (a : list (list A)) : nat :=
  match a with [] => O | row :: _ => length row end.

Definition rectangular {A} (a : list (list A)) : bool :=
  forallb (fun row => Nat.eqb (length row) (width a)) a.

Definition array (embeddings : list (list Q)) : result ndarray :=
  if rectangular embeddings then Ok (float32 embeddings)
  else Raise (ValueError (lit "inhomogeneous shape")).

(** The rows of [np.atleast_2d(a)] as objects: [None] is one row of one
    cell. *)
Definition cells (a : option ndarray) : list (list (option Q)) :=
  match a with
  | None => [[None]]
  | Some (float32 rows) => map (map Some) rows
  | Some (object rows) => rows
  end.

(** The rows of the batches when all of them are [float32]. *)
Fixpoint stack (arrays : list (option ndarray)) : option (list (list Q)) :=
  match arrays with
  | [] => Some []
  | Some (float32 a) :: rest =>
      match stack rest with
      | Some more => Some (a ++ more)
      | None => None
      end
  | _ :: _ => None
  end.

Definition vstack (arrays : list (option ndarray)) : result ndarray :=
  match arrays with
  | [] => Raise (ValueError (lit "need at least one array to concatenate"))
  | _ =>
      match stack arrays with
      | Some a =>
          if rectangular a then Ok (float32 a)
          else Raise (ValueError (lit "all the input array dimensions must match"))
      | None =>
          let rows := concat (map cells arrays) in
          if rectangular rows then Ok (object rows)
          else Raise (ValueError (lit "all the input array dimensions must match"))
      end
  end.

(** [x.shape[1]] *)
Definition shape1 (x : ndarray) : nat :=
  match x with float32 a => width a | object a => width a end.

(** [faiss.normalize_L2]: the pointer to the data is taken from float32
    arrays only. *)
Definition normalize (x : option ndarray) : result ndarray :=
  match x with
  | Some (float32 a) => Ok (float32 a)
  | Some (object _) => Raise (ValueError (lit "did not recognize array type"))
  | None => Raise (AttributeError (lit "'NoneType' object has no attribute 'shape'"))
  end.

(** [np.ascontiguousarray(x, dtype='float32')] *)
Definition as_float32 (x : ndarray) : result (list (list Q)) :=
  match x with
  | float32 a => Ok a
  | object rows =>
      if forallb (forallb (fun c => match c with Some _ => true | None => false end))
           rows
      then Ok (map (map (fun c => match c with Some q => q | None => 0%Q end)) rows)
      else Raise (TypeError (lit "float() argument must be a string or a real number, not 'NoneType'"))
  end.

Definition add (i : index) (x : ndarray) : result index :=
  if Nat.eqb (shape1 x) (d i) then
    match as_float32 x with
    | Ok rows => Ok {| d := d i; xb := xb i ++ rows |}
    | Raise e => Raise e
    end
  else Raise (AssertionError []).

Definition dot (u v : list Q) : Q :=
  Qred (fold_right Qplus 0%Q (map (fun p => (fst p * snd p)%Q) (combine u v))).

Definition NEG_FLT_MAX : Q := (- (340282346638528859811704183484516925440 # 1))%Q.

(** Insertion below every hit of greater score: among equal scores the
    hit inserted last comes first. *)
Fixpoint insert_hit (h : Q * Z) (hits : list (Q * Z)) : list (Q * Z) :=
  match hits with
  | [] => [h]
  | x :: rest =>
      if Qle_bool (fst x) (fst h) then h :: x :: rest else x :: insert_hit h rest
  end.

Definition sort_hits (hits : list (Q * Z)) : list (Q * Z) :=
  fold_left (fun acc h => insert_hit h acc) hits [].

Definition search (i : index) (x : ndarray) (k : Z)
  : result (list (Q * Z)) :=
  match as_float32 x with
  | Ok [q] =>
      if (0 <? k) && Nat.eqb (length q) (d i) then
        let scored := combine (map (dot q) (xb i)) (range (length (xb i))) in
        let best := firstn (Z.to_nat k) (sort_hits scored) in
        Ok (best ++ repeat (NEG_FLT_MAX, -1) (Z.to_nat k - length best))
      else Raise (AssertionError [])
  | Ok _ => Raise (AssertionError [])
  | Raise e => Raise e
  end.

(** Decimal digits of a non-negative integer. *)
Fixpoint digits (fuel : nat) (n : Z) : str :=
  match fuel with
  | O => []
  | S fuel' =>
      (if n <? 10 then [] else digits fuel' (n / 10))
      ++ [Z.to_N (48 + n mod 10)]
  end.

Definition decimal (n : Z) : str := digits (S (Z.to_nat (Z.log2 n))) n.

(** [f"{x:.3f}"]: three decimals, ties to even. *)
Definition format (x : Q) : str :=
  let n := Z.abs (Qnum x) * 1000 in
  let den := Z.pos (Qden x) in
  let q := n / den in
  let r := n mod den in
  let m := if (den <? 2 * r) || ((den =? 2 * r) && Z.odd q) then q + 1 else q in
  let frac := decimal (m mod 1000) in
  (if Qnum x <? 0 then lit "-" else [])
  ++ decimal (m / 1000) ++ lit "."
  ++ repeat 48%N (3 - length frac) ++ frac.

End Flat.

#[export] Instance FlatLib : NumLib := {|
  ndarray := Flat.ndarray;
  IndexFlatIP := Flat.index;
  np_array := Flat.array;
  np_vstack := Flat.vstack;
  faiss_IndexFlatIP := fun a => Ok {| Flat.d := Flat.shape1 a; Flat.xb := [] |};
  faiss_normalize_L2 := Flat.normalize;
  index_add := Flat.add;
  index_search := Flat.search;
  format_3f := Flat.format
|}.

(* ================================================================== *)
(** ** A reference instance of the text libraries                       *)
(* ================================================================== *)

(** The decoder on a fragment of JSON (objects, arrays, strings without
    escapes, numbers, [true], [false], [null]; anything else is reported
    as a decoding error) and the two searches on ASCII letters and digits.
    It serves to run the judge on concrete answers; no statement over all
    libraries depends on it. *)
Module Plain.

Definition json_space (c : N) : bool :=
  (N.eqb c 32 || N.eqb c 9 || N.eqb c 10 || N.eqb c 13)%N.

Fixpoint skip_ws (s : str) : str :=
  match s with
  | c :: s' => if json_space c then skip_ws s' else s
  | [] => []
  end.

Definition is_digit (c : N) : bool := ((48 <=? c) && (c <=? 57))%N.

(** The characters of a string up to its closing quote. *)
Fixpoint string_body (s : str) : option (str * str) :=
  match s with
  | [] => None
  | c :: s' =>
      if N.eqb c 34 then Some ([], s')
      else if N.eqb c 92 || (c <? 32)%N then None
      else match string_body s' with
           | Some (body, rest) => Some (c :: body, rest)
           | None => None
           end
  end.

Fixpoint digits_value (acc : Z) (s : str) : Z * str :=
  match s with
  | c :: s' =>
      if is_digit c then digits_value (10 * acc + Z.of_N c - 48) s' else (acc, s)
  | [] => (acc, [])
  end.

(** The integer part of a number, [0 | [1-9][0-9]*]: after a leading zero
    no further digit belongs to it. *)
Definition int_part (s : str) : option (Z * str) :=
  match s with
  | c :: s' =>
      if N.eqb c 48 then Some (0, s')
      else if is_digit c then Some (digits_value 0 s)
      else None
  | [] => None
  end.

(** The fraction [. [0-9]+] at the head of [s], if there is one. *)
Definition fraction (s : str) : option (Q * str) :=
  match s with
  | dot :: d :: s' =>
      if N.eqb dot 46 && is_digit d then
        let (n, rest) := digits_value 0 (d :: s') in
        Some (Qmake n (Z.to_pos (10 ^ Z.of_nat (S (length s') - length rest))),
              rest)
      else None
  | _ => None
  end.

(** The exponent [[eE] [-+]? [0-9]+] at the head of [s], if there is one. *)
Definition exponent (s : str) : option (Z * str) :=
  match s with
  | e :: sign :: s' =>
      if N.eqb e 101 || N.eqb e 69 then
        if is_digit sign then Some (digits_value 0 (sign :: s'))
        else
          match s' with
          | d :: _ =>
              if (N.eqb sign 43 || N.eqb sign 45) && is_digit d then
                let (n, rest) := digits_value 0 s' in
                Some (if N.eqb sign 45 then - n else n, rest)
              else None
          | [] => None
          end
      else None
  | _ => None
  end.

(** A number without sign: an [int] when it has neither fraction nor
    exponent, else a [float], whose value is the decimal as written (not
    rounded to binary64). *)
Definition number (s : str) : option (pyval * str) :=
  match int_part s with
  | None => None
  | Some (n, r1) =>
      let (frac, r2) :=
        match fraction r1 with
        | Some (q, r) => (Some q, r)
        | None => (None, r1)
        end in
      let (exp, r3) :=
        match exponent r2 with
        | Some (x, r) => (Some x, r)
        | None => (None, r2)
        end in
      match frac, exp with
      | None, None => Some (PInt n, r3)
      | _, _ =>
          let q := match frac with Some q => q | None => 0%Q end in
          let x := match exp with Some x => x | None => 0 end in
          Some (PFloat (Qred ((inject_Z n + q) * Qpower (inject_Z 10) x)), r3)
      end
  end.

Definition negated (v : pyval) : pyval :=
  match v with
  | PInt n => PInt (- n)
  | PFloat q => PFloat (Qred (- q))
  | v => v
  end.

Definition after (word : string) (s : str) : option str :=
  if starts_with (lit word) s then Some (skipn (length (lit word)) s) else None.

Fixpoint value (fuel : nat) (s : str) : option (pyval * str) :=
  match fuel with
  | O => None
  | S fuel' =>
      match skip_ws s with
      | [] => None
      | c :: r =>
          if N.eqb c 123 then
            match skip_ws r with
            | x :: r' =>
                if N.eqb x 125 then Some (PDict [], r')
                else match members fuel' (x :: r') [] with
                     | Some (d, rest) => Some (PDict d, rest)
                     | None => None
                     end
            | [] => None
            end
          else if N.eqb c 91 then
            match skip_ws r with
            | x :: r' =>
                if N.eqb x 93 then Some (PList [], r')
                else match elements fuel' (x :: r') with
                     | Some (l, rest) => Some (PList l, rest)
                     | None => None
                     end
            | [] => None
            end
          else if N.eqb c 34 then
            match string_body r with
            | Some (body, rest) => Some (PStr body, rest)
            | None => None
            end
          else if N.eqb c 45 then
            match number r with
            | Some (v, rest) => Some (negated v, rest)
            | None => None
            end
          else if is_digit c then number (c :: r)
          else
            match after "true" (c :: r), after "false" (c :: r),
                  after "null" (c :: r) with
            | Some rest, _, _ => Some (PBool true, rest)
            | _, Some rest, _ => Some (PBool false, rest)
            | _, _, Some rest => Some (PNone, rest)
            | _, _, _ => None
            end
      end
  end
with members (fuel : nat) (s : str) (acc : dict) : option (dict * str) :=
  match fuel with
  | O => None
  | S fuel' =>
      match skip_ws s with
      | c :: r =>
          if N.eqb c 34 then
            match string_body r with
            | Some (key, r1) =>
                match skip_ws r1 with
                | x :: r2 =>
                    if N.eqb x 58 then
                      match value fuel' r2 with
                      | Some (v, r3) =>
                          match skip_ws r3 with
                          | y :: r4 =>
                              if N.eqb y 44
                              then members fuel' r4 (dict_set key v acc)
                              else if N.eqb y 125
                              then Some (dict_set key v acc, r4)
                              else None
                          | [] => None
                          end
                      | None => None
                      end
                    else None
                | [] => None
                end
            | None => None
            end
          else None
      | [] => None
      end
  end
with elements (fuel : nat) (s : str) : option (list pyval * str) :=
  match fuel with
  | O => None
  | S fuel' =>
      match value fuel' s with
      | Some (v, r) =>
          match skip_ws r with
          | y :: r' =>
              if N.eqb y 44 then
                match elements fuel' r' with
                | Some (l, rest) => Some (v :: l, rest)
                | None => None
                end
              else if N.eqb y 93 then Some ([v], r')
              else None
          | [] => None
          end
      | None => None
      end
  end.

Definition loads (s : str) : option dict :=
  match value (S (length s)) s with
  | Some (PDict d, rest) =>
      match skip_ws rest with [] => Some d | _ => None end
  | _ => None
  end.

Definition lower (c : N) : N :=
  if ((65 <=? c) && (c <=? 90))%N then (c + 32)%N else c.

(** [s] begins with [pat], letters compared without case: what follows. *)
Fixpoint after_caseless (pat s : str) : option str :=
  match pat, s with
  | [], _ => Some s
  | x :: pat', y :: s' =>
      if N.eqb (lower x) (lower y) then after_caseless pat' s' else None
  | _ :: _, [] => None
  end.

Definition separator (c : N) : bool := N.eqb c 34 || isspace c || N.eqb c 58.

Fixpoint digit_after_separators (s : str) : option Z :=
  match s with
  | c :: s' =>
      if separator c then digit_after_separators s'
      else if is_digit c then Some (Z.of_N c - 48) else None
  | [] => None
  end.

Definition dim_here (dim s : str) : option Z :=
  match after_caseless dim s with
  | Some (c :: rest) =>
      if separator c then digit_after_separators rest else None
  | _ => None
  end.

Fixpoint dim_search (dim text : str) : option Z :=
  match dim_here dim text with
  | Some n => Some n
  | None =>
      match text with
      | _ :: text' => dim_search dim text'
      | [] => None
      end
  end.

(** The label occurs before the end of the line. *)
Fixpoint on_line (label : str) (s : str) : bool :=
  match s with
  | c :: s' =>
      if N.eqb c 10 then false
      else match after_caseless label s with
           | Some _ => true
           | None => on_line label s'
           end
  | [] => false
  end.

Fixpoint prefer_search (label text : str) : bool :=
  match after_caseless (lit "prefer") text with
  | Some rest => on_line label rest
  | None => false
  end
  || match text with
     | _ :: text' => prefer_search label text'
     | [] => false
     end.

End Plain.

#[export] Instance PlainLib : TextLib := {|
  json_loads := Plain.loads;
  search_dim := Plain.dim_search;
  search_prefer := Plain.prefer_search
|}.

(** A five-word document, a configuration under which its last window is
    shorter than the overlap, and the chunks emitted for it. *)
Definition sample_doc : Doc.t :=
  Doc.mk (lit "d1") (lit "Sample") (lit "a b c d e").

Definition sample_chunk (i : Z) (text : string) : Chunk.t :=
  Chunk.mk i (lit "d1") (lit "Sample") (lit text).

(** Services for the examples: one that embeds every text as the unit
    vector (1, 0) and answers every chat with the same text, one that
    answers 429 to every post, one that times out on every post. *)
Definition service (answer : str) (n : nat) (req : Request) : Reply :=
  match req with
  | ChatRequest _ _ _ _ => ChatCompletion answer
  | EmbedRequest texts => Embeddings (map (fun _ => [1%Q; 0%Q]) texts)
  end.

Definition rate_limited (n : nat) (req : Request) : Reply := Status429.


Definition world_of (u : nat -> Request -> Reply) : World :=
  {| upstream := u; posts := 0; call_count := 0; embed_count := 0; slept := [] |}.

Definition is_429 (r : Reply) : bool :=
  match r with Status429 => true | _ => false end.



(** The store built from one chunk against [service]. *)
Definition built_store : VectorStore :=
  {| index := Some {| Flat.d := 2; Flat.xb := [[1%Q; 0%Q]] |};
     chunks := [sample_chunk 0 "a b"] |}.

Definition world_after (u : nat -> Request -> Reply) (n : nat) (embedded : Z)
    (delays : list Q) : World :=
  {| upstream := u; posts := n; call_count := 0; embed_count := embedded;
     slept := delays |}.

(** What the judge's answer states as its preference: the entry
    [preferred] of what [_parse] returns, the empty string without one. *)
Definition stated_preference (scores : option dict) : pyval :=
  match scores with
  | Some d =>
      match dict_get (lit "preferred") d with
      | Some v => v
      | None => PStr (lit "")
      end
  | None => PStr (lit "")
  end.

(** The preference for the other label. *)
Definition complement (preferred : pyval) : pyval :=
  match preferred with
  | PStr s =>
      if str_eqb s (lit "A") then PStr (lit "B")
      else if str_eqb s (lit "B") then PStr (lit "A")
      else PStr s
  | v => v
  end.

(** The winner a call of [evaluate] reports, or the exception it raises. *)
Definition reported_winner (outcome : result dict * LLMJudge * World)
  : result (option pyval) :=
  match fst (fst outcome) with
  | Ok verdict => Ok (dict_get (lit "winner") verdict)
  | Raise e => Raise e
  end.

(** The verdict on an answer with nothing to extract, the normal pipeline
    under label A. *)
Definition extracted_neutral : dict :=
  [ (lit "preferred", PStr (lit "TIE"));
    (lit "reasoning", PStr (lit "Extracted"));
    (lit "normal_scores", neutral_scores);
    (lit "rag_scores", neutral_scores);
    (lit "winner", PStr (lit "tie")) ].

(** The verdict on an answer that is a JSON object with the single
    member [x]. *)
Definition scoreless_verdict : dict :=
  [ (lit "x", PInt 1);
    (lit "normal_scores", PDict []);
    (lit "rag_scores", PDict []);
    (lit "winner", PStr (lit "tie")) ].

Definition or_empty (v : option pyval) : pyval :=
  match v with Some x => x | None => PDict [] end.

(** A service that gives its replies in order, whatever is asked. *)
Definition scripted (replies : list Reply) (n : nat) (req : Request) : Reply :=
  nth n replies (OtherError []).

(** A run of [process] in which the revision is too short: four words
    drafted, one word in the revision. *)
Definition short_revision : World :=
  world_of (scripted [Embeddings [[1%Q; 0%Q]];
                      ChatCompletion (lit "one two three four");
                      ChatCompletion (lit "short")]).

(** A reply that does not complete a chat call, resp. an embed call. *)
Definition chat_failure (r : Reply) : bool :=
  match r with ChatCompletion _ => false | _ => true end.

Definition embed_failure `{NumLib} (r : Reply) : bool :=
  match r with Embeddings e => is_raise (np_array e) | _ => true end.

Definition nospace (w : str) : Prop := forallb (fun c => negb (isspace c)) w = true.

(** A word as [split] produces it: non-empty and free of white space. *)
Definition is_word (w : str) : Prop := w <> [] /\ nospace w.

(** Fuel that lets every window loop over [documents] run to its end when
    the window advances. *)
Definition enough_fuel (documents : list Doc.t) : nat :=
  S (list_max (map (fun d => length (split (Doc.content d))) documents)).

(** The chunks [chunk_documents] emits when no document is split. *)
Fixpoint whole_chunks (chunk_id : Z) (documents : list Doc.t) : list Chunk.t :=
  match documents with
  | [] => []
  | doc :: rest =>
      Chunk.mk chunk_id (Doc.id doc) (Doc.title doc) (Doc.content doc)
      :: whole_chunks (chunk_id + 1) rest
  end.

(** The chunks [cks] of the split document [doc] overlap and cover it:
    what follows the first [chunk_size - overlap] words of a chunk is the
    beginning of the next chunk, [overlap] words of it or the whole next
    chunk when that is shorter; and every word of [doc] is in some chunk. *)
Definition overlapping_cover (self : DocumentChunker) (doc : Doc.t)
    (cks : list Chunk.t) : Prop :=
  (forall c1 c2, consecutive cks c1 c2 ->
     shares_boundary
       (Nat.min (Z.to_nat (overlap self)) (length (chunk_words c2)))
       (chunk_words c1) (chunk_words c2))
  /\ (forall c1 c2, consecutive cks c1 c2 ->
        overlap self <= len (chunk_words c2) ->
        shares_boundary (Z.to_nat (overlap self))
          (chunk_words c1) (chunk_words c2))
  /\ (forall w, In w (split (Doc.content doc)) ->
        exists c, In c cks /\ In w (chunk_words c)).

(* ================================================================== *)
(** ** Further definitions: retries, batches, the comparison run       *)
(* ================================================================== *)

(** The request of a chat call. *)
Definition chat_request (prompt system : str) (temperature : Q)
    (max_tokens : Z) : Request :=
  ChatRequest system prompt temperature max_tokens.

(** The delay slept after a rate-limit reply at [attempt]. *)
Definition rate_limit_delay (attempt : Z) : Q := inject_Z (2 ^ attempt * 2).

(** The spec's scenario: two rate-limit replies, then a completion. *)
Definition third_time_lucky : World :=
  world_of (scripted [Status429; Status429; ChatCompletion (lit "payload")]).

(** The delays [zs], in seconds, are what a call added to the sleeps of
    [w]: non-decreasing, at most five, each between 1 and 32. *)
Definition backs_off (w w' : World) : Prop :=
  exists zs : list Z,
    slept w' = slept w ++ map inject_Z zs
    /\ StronglySorted Z.le zs
    /\ Forall (fun z => 1 <= z <= 32) zs
    /\ (length zs <= 5)%nat.

(** The same for the [n] attempts [a], [a + 1], ...: the delays lie
    between [2 ** a] and [2 ** (a + n)]. *)
Definition delays_from (a n : nat) (w w' : World) : Prop :=
  exists zs : list Z,
    slept w' = slept w ++ map inject_Z zs
    /\ StronglySorted Z.le zs
    /\ Forall (fun z => 2 ^ Z.of_nat a <= z <= 2 ^ Z.of_nat (a + n)) zs
    /\ (length zs <= n)%nat.

(** Two rate-limit replies, then the embedding of one text. *)
Definition embedded_third_time : World :=
  world_of (scripted [Status429; Status429; Embeddings [[1%Q; 0%Q]]]).



(** The request of the critique call of [process]. *)
Definition critique_request (query answer : str) : Request :=
  ChatRequest critique_system (critique_prompt query answer) TEMP_RAG MAX_TOKENS.

(** A run of [process] in which every attempt of the critique call is
    rate-limited, after a draft of five words. *)
Definition critique_rate_limited : World :=
  world_of (scripted [Embeddings [[1%Q; 0%Q]];
                      ChatCompletion (lit "one two three four five");
                      Status429; Status429; Status429; Status429; Status429]).

(** The hit [search] makes of the only chunk of [built_store]. *)
Definition sample_hit : Retrieved :=
  {| chunk := sample_chunk 0 "a b"; relevance_score := 1 |}.


(** The winner is the name of a pipeline or a tie. *)
Definition is_winner (winner : str) : Prop :=
  winner = lit "normal" \/ winner = lit "rag" \/ winner = lit "tie".

(** How a call of [evaluate] ends when the judge states [preferred]: it
    raises [TypeError] on a list or a dictionary, and otherwise returns a
    verdict, recorded in [evaluations], whose winner is a pipeline or a
    tie. *)
Definition ends_by_preference (self : LLMJudge) (preferred : pyval)
    (outcome : result dict * LLMJudge * World) : Prop :=
  match preferred with
  | PList _ | PDict _ =>
      exists msg, fst outcome = (Raise (TypeError msg), self)
  | _ =>
      exists verdict winner,
        fst outcome
        = (Ok verdict, {| evaluations := evaluations self ++ [verdict] |})
        /\ dict_get (lit "winner") verdict = Some (PStr winner)
        /\ is_winner winner
  end.

(** Two answers of 2501 characters that differ in the last one only. *)
Definition long_answer (last : string) : str :=
  repeat 120%N 2500 ++ lit last.


(* ================================================================== *)
(** ** NormalMistral                                                    *)
(* ================================================================== *)

Module NormalMistral.

(** The responses recorded: query and output (latency and timestamp are
    not modelled). *)
Record t : Type := { responses : list (str * str) }.

(** [NormalMistral.process]: the result and the object after the call. *)
Definition process (self : t) (query : str) (w : World)
  : (str * str) * t * World :=
  let (output, w1) :=
    chat w query (lit "You are a helpful assistant.") TEMP_NORMAL MAX_TOKENS in
  ((query, output), {| responses := responses self ++ [(query, output)] |}, w1).

End NormalMistral.

(* ================================================================== *)
(** ** ComparisonFramework                                              *)
(* ================================================================== *)

Module Query.
Record t : Type := { id : Z; query : str; category : str; tests : list str }.
End Query.

(** A row of [self.results]; the latencies are not modelled. *)
Module Row.
Record t : Type := {
  query_id : Z;
  category : str;
  tests : list str;
  normal_output : str;
  normal_words : Z;
  rag_output : str;
  rag_words : Z;
  rag_sources : list str;
  judge : dict
}.
End Row.

Module Framework.
Record t `{NumLib} : Type := {
  normal : NormalMistral.t;
  rag : RAGPipelineV2;
  judge : LLMJudge;
  results : list Row.t
}.
End Framework.

(** How a step of the framework ends: it returns, an exception of the
    pipelines or of the libraries goes through, or a dictionary lookup of
    the report code raises [KeyError]. *)
Inductive outcome (A : Type) : Type :=
| Done (a : A)
| Failed (e : exn)
| KeyError (key : pyval).
Arguments Done {A} a.
Arguments Failed {A} e.
Arguments KeyError {A} key.

(** [ComparisonFramework.__init__] over the documents of the knowledge
    base; [None] when the fuel of the chunker runs out. *)
Definition ComparisonFramework_init `{NumLib} (fuel : nat)
    (documents : list Doc.t) (w : World)
  : option (result Framework.t * World) :=
  match chunk_documents fuel DocumentChunker_default documents with
  | None => None
  | Some chunks =>
      match build_index VectorStore_init chunks w with
      | (Raise e, _, w1) => Some (Raise e, w1)
      | (Ok _, vector_store, w1) =>
          Some (Ok {| Framework.normal := {| NormalMistral.responses := [] |};
                      Framework.rag := {| vector_store := vector_store;
                                          responses := [] |};
                      Framework.judge := {| evaluations := [] |};
                      Framework.results := [] |},
                w1)
      end
  end.

(** The type name Python gives in the [AttributeError] of a failed
    [.get] or [.upper]. *)
Definition type_name (v : pyval) : str :=
  match v with
  | PNone => lit "NoneType"
  | PBool _ => lit "bool"
  | PInt _ => lit "int"
  | PFloat _ => lit "float"
  | PStr _ => lit "str"
  | PList _ => lit "list"
  | PDict _ => lit "dict"
  end.

Definition no_attribute (v : pyval) (attr : string) : exn :=
  AttributeError (lit "'" ++ type_name v ++ lit "' object has no attribute '"
                  ++ lit attr ++ lit "'").

(** The three [print]s of [run] after the evaluation:
    [judge_result['winner'].upper()], then [ns.get(...)] and [rs.get(...)]
    on the two score entries, [{}] standing for a missing one. *)
Definition print_verdict (judge_result : dict) : outcome unit :=
  match dict_get (lit "winner") judge_result with
  | None => KeyError (PStr (lit "winner"))
  | Some (PStr _) =>
      match or_empty (dict_get (lit "normal_scores") judge_result) with
      | PDict _ =>
          match or_empty (dict_get (lit "rag_scores") judge_result) with
          | PDict _ => Done tt
          | rs => Failed (no_attribute rs "get")
          end
      | ns => Failed (no_attribute ns "get")
      end
  | Some v => Failed (no_attribute v "upper")
  end.

(** Body of the [for q in TEST_QUERIES] loop of [run]; [random] is what
    the judge draws for this query. *)
Definition run_query `{NumLib} `{TextLib} (self : Framework.t) (q : Query.t)
    (random : Q) (w : World) : outcome unit * Framework.t * World :=
  let query := Query.query q in
  let '(normal_result, normal', w1) :=
    NormalMistral.process (Framework.normal self) query w in
  let n_words := len (split (snd normal_result)) in
  match process (Framework.rag self) query (sleep REQUEST_DELAY w1) with
  | (Raise e, rag', w2) =>
      (Failed e,
       {| Framework.normal := normal'; Framework.rag := rag';
          Framework.judge := Framework.judge self;
          Framework.results := Framework.results self |}, w2)
  | (Ok rag_result, rag', w2) =>
      let r_words := len (split (output rag_result)) in
      let sources := chunk_sources (metadata rag_result) in
      match evaluate (Framework.judge self) query (snd normal_result)
              (output rag_result) random (sleep REQUEST_DELAY w2) with
      | (Raise e, judge', w3) =>
          (Failed e,
           {| Framework.normal := normal'; Framework.rag := rag';
              Framework.judge := judge';
              Framework.results := Framework.results self |}, w3)
      | (Ok judge_result, judge', w3) =>
          let row :=
            {| Row.query_id := Query.id q;
               Row.category := Query.category q;
               Row.tests := Query.tests q;
               Row.normal_output := snd normal_result;
               Row.normal_words := n_words;
               Row.rag_output := output rag_result;
               Row.rag_words := r_words;
               Row.rag_sources := sources;
               Row.judge := judge_result |} in
          match print_verdict judge_result with
          | Done _ =>
              (Done tt,
               {| Framework.normal := normal'; Framework.rag := rag';
                  Framework.judge := judge';
                  Framework.results := Framework.results self ++ [row] |},
               sleep REQUEST_DELAY w3)
          | Failed e =>
              (Failed e,
               {| Framework.normal := normal'; Framework.rag := rag';
                  Framework.judge := judge';
                  Framework.results := Framework.results self |}, w3)
          | KeyError k =>
              (KeyError k,
               {| Framework.normal := normal'; Framework.rag := rag';
                  Framework.judge := judge';
                  Framework.results := Framework.results self |}, w3)
          end
      end
  end.

(** The loop of [run] over the queries; [draws] gives the judge's draw
    for the query at each position, [k] is the position reached. *)
Fixpoint run_queries `{NumLib} `{TextLib} (self : Framework.t)
    (queries : list Query.t) (draws : nat -> Q) (k : nat) (w : World)
  : outcome unit * Framework.t * World :=
  match queries with
  | [] => (Done tt, self, w)
  | q :: rest =>
      match run_query self q (draws k) w with
      | (Done _, self', w') => run_queries self' rest draws (S k) w'
      | failed => failed
      end
  end.

(** The tally of [_print_summary]:
    [wins[r["judge"].get("winner", "tie")] += 1] over the rows. *)
Record Wins : Type := { wins_normal : Z; wins_rag : Z; wins_tie : Z }.

Definition winner_key (r : Row.t) : pyval :=
  match dict_get (lit "winner") (Row.judge r) with
  | Some v => v
  | None => PStr (lit "tie")
  end.

Fixpoint count_wins (wins : Wins) (results : list Row.t) : outcome Wins :=
  match results with
  | [] => Done wins
  | r :: rest =>
      match winner_key r with
      | PStr s =>
          if str_eqb s (lit "normal") then
            count_wins {| wins_normal := wins_normal wins + 1;
                          wins_rag := wins_rag wins;
                          wins_tie := wins_tie wins |} rest
          else if str_eqb s (lit "rag") then
            count_wins {| wins_normal := wins_normal wins;
                          wins_rag := wins_rag wins + 1;
                          wins_tie := wins_tie wins |} rest
          else if str_eqb s (lit "tie") then
            count_wins {| wins_normal := wins_normal wins;
                          wins_rag := wins_rag wins;
                          wins_tie := wins_tie wins + 1 |} rest
          else KeyError (PStr s)
      | PList l => Failed (TypeError (lit "unhashable type: 'list'"))
      | PDict d => Failed (TypeError (lit "unhashable type: 'dict'"))
      | v => KeyError v
      end
  end.

(** The tally of [_plot_results]: an [if]/[elif]/[else] on the same key,
    which cannot fail. *)
Fixpoint plot_wins (wins : Wins) (results : list Row.t) : Wins :=
  match results with
  | [] => wins
  | r :: rest =>
      let is_name (n : string) :=
        match winner_key r with
        | PStr s => str_eqb s (lit n)
        | _ => false
        end in
      if is_name "normal"%string then
        plot_wins {| wins_normal := wins_normal wins + 1;
                     wins_rag := wins_rag wins;
                     wins_tie := wins_tie wins |} rest
      else if is_name "rag"%string then
        plot_wins {| wins_normal := wins_normal wins;
                     wins_rag := wins_rag wins + 1;
                     wins_tie := wins_tie wins |} rest
      else
        plot_wins {| wins_normal := wins_normal wins;
                     wins_rag := wins_rag wins;
                     wins_tie := wins_tie wins + 1 |} rest
  end.

Definition no_wins : Wins := {| wins_normal := 0; wins_rag := 0; wins_tie := 0 |}.

(** The queries of the run, as far as the loop reads them. *)
Definition TEST_QUERIES : list Query.t :=
  [ {| Query.id := 1;
       Query.query := lit "What are the key strengths and weaknesses of NEP 2020?";
       Query.category := lit "balanced_analysis";
       Query.tests := [lit "balance"; lit "accuracy"] |};
    {| Query.id := 2;
       Query.query := lit "Is NEP 2020 a good policy?";
       Query.category := lit "framing_positive";
       Query.tests := [lit "framing_sensitivity"; lit "balance"] |};
    {| Query.id := 3;
       Query.query := lit "What are the major problems with NEP 2020?";
       Query.category := lit "framing_negative";
       Query.tests := [lit "framing_sensitivity"; lit "balance"] |};
    {| Query.id := 4;
       Query.query := lit "What specific year was NEP 2020 announced, which ministry leads it, and what is the 5+3+3+4 structure?";
       Query.category := lit "factual_recall";
       Query.tests := [lit "hallucination"; lit "accuracy"] |};
    {| Query.id := 5;
       Query.query := lit "What will be the exact GDP impact of NEP 2020 by 2030?";
       Query.category := lit "overconfidence_trap";
       Query.tests := [lit "overconfidence"; lit "calibration"] |};
    {| Query.id := 6;
       Query.query := lit "Create a lesson plan for teaching Quadratic Equations to Class 10";
       Query.category := lit "lesson_design";
       Query.tests := [lit "structure"; lit "completeness"] |};
    {| Query.id := 7;
       Query.query := lit "How can rural schools implement NEP 2020's vocational training?";
       Query.category := lit "implementation";
       Query.tests := [lit "practical_reasoning"; lit "nuance"] |};
    {| Query.id := 8;
       Query.query := lit "Explain the 5+3+3+4 structure and whether it's better than the old 10+2 system";
       Query.category := lit "comparison";
       Query.tests := [lit "accuracy"; lit "balance"] |};
    {| Query.id := 9;
       Query.query := lit "Explain the importance of early childhood education with evidence";
       Query.category := lit "evidence_based";
       Query.tests := [lit "accuracy"; lit "evidence_quality"] |};
    {| Query.id := 10;
       Query.query := lit "How will AI transform education in India in the next 5 years?";
       Query.category := lit "speculative";
       Query.tests := [lit "calibration"; lit "overconfidence"] |} ].

(** A framework over [built_store] with nothing recorded, and a service
    that embeds every text on (1, 0) and answers every chat with a JSON
    verdict. *)
Definition fresh_framework : Framework.t :=
  {| Framework.normal := {| NormalMistral.responses := [] |};
     Framework.rag := {| vector_store := built_store; responses := [] |};
     Framework.judge := {| evaluations := [] |};
     Framework.results := [] |}.

Definition judging_service : nat -> Request -> Reply :=
  service (text "{^response_a^: {^accuracy^: 4}, ^response_b^: {^accuracy^: 5}, ^preferred^: ^B^}").

(** The row is well formed for the summary: its counts are those of its
    outputs, and its verdict names a winner and holds two score
    dictionaries. *)
Definition row_of (q : Query.t) (r : Row.t) : Prop :=
  Row.query_id r = Query.id q
  /\ Row.category r = Query.category q
  /\ Row.tests r = Query.tests q
  /\ Row.normal_words r = len (split (Row.normal_output r))
  /\ Row.rag_words r = len (split (Row.rag_output r)).

Definition summarisable (r : Row.t) : Prop :=
  (exists winner, dict_get (lit "winner") (Row.judge r) = Some (PStr winner)
                  /\ is_winner winner)
  /\ (exists ns, or_empty (dict_get (lit "normal_scores") (Row.judge r)) = PDict ns)
  /\ (exists rs, or_empty (dict_get (lit "rag_scores") (Row.judge r)) = PDict rs).

Definition total (wins : Wins) : Z :=
  wins_normal wins + wins_rag wins + wins_tie wins.


Definition is_dict (v : pyval) : bool :=
  match v with PDict _ => true | _ => false end.

(** A value that can key a dictionary. *)
Definition hashable (v : pyval) : bool :=
  match v with PList _ | PDict _ => false | _ => true end.

(** A judge that gives a number where the scores of response A belong. *)
Definition number_for_scores : nat -> Request -> Reply :=
  service (text "{^response_a^: 4, ^preferred^: ^A^}").

(** What the judge model answers in the step of [run] for [q], when the
    RAG pipeline returns. *)
Definition judged_answer `{NumLib} `{TextLib} (self : Framework.t)
    (q : Query.t) (random : Q) (w : World) : result str :=
  let normal_run :=
    NormalMistral.process (Framework.normal self) (Query.query q) w in
  match process (Framework.rag self) (Query.query q)
          (sleep REQUEST_DELAY (snd normal_run)) with
  | (Raise e, _, _) => Raise e
  | (Ok rag_result, _, w2) =>
      Ok (fst (judge_output (Query.query q) (snd (fst (fst normal_run)))
                 (output rag_result) random (sleep REQUEST_DELAY w2)))
  end.

Definition first_query : Query.t :=
  hd {| Query.id := 0; Query.query := []; Query.category := [];
        Query.tests := [] |} TEST_QUERIES.

(** From [w] to [w'] at most [p] requests were posted and at most [c]
    chat calls counted. *)
Definition spends (p : nat) (c : Z) (w w' : World) : Prop :=
  (posts w <= posts w' <= posts w + p)%nat
  /\ call_count w <= call_count w' <= call_count w + c.




(** The chunks [out] are those of [docs] document by document: [out] is
    cut into one non-empty group per document, in the order of the
    documents, and the chunks of a group carry the id and title of its
    document. *)
Definition chunks_by_document (docs : list Doc.t) (out : list Chunk.t) : Prop :=
  exists groups : list (list Chunk.t),
    out = concat groups
    /\ Forall2 (fun d g =>
                  g <> []
                  /\ Forall (fun c => Chunk.doc_id c = Doc.id d
                                      /\ Chunk.title c = Doc.title d) g)
         docs groups.

(** The reply of the service is read off the texts it is sent, and numpy
    makes an array of it. *)
Definition embeds_as `{NumLib} (w : World) (g : list str -> ndarray) : Prop :=
  forall (n : nat) (b : list str),
    exists e, upstream w n (EmbedRequest b) = Embeddings e /\ np_array e = Ok (g b).

(** A store whose index is empty and whose chunk list is empty. *)
Definition emptied_store : VectorStore :=
  {| index := Some {| Flat.d := 2; Flat.xb := [] |}; chunks := [] |}.

(** The result [r] is what the loop of [search] makes of the hit [h] on
    the chunks [cks]: the score of the hit and the chunk at its label,
    a negative label counting from the end of the list. *)
Definition picks (cks : list Chunk.t) (h : Q * Z) (r : Retrieved) : Prop :=
  relevance_score r = fst h
  /\ nth_error cks (Z.to_nat (if snd h <? 0 then len cks + snd h else snd h))
     = Some (chunk r).

(** What [search] retrieves from [built_store]: its only chunk, and four
    more times the same chunk for the padding of the five hits. *)
Definition retrieved_padded : list Retrieved :=
  sample_hit
  :: repeat {| chunk := sample_chunk 0 "a b";
               relevance_score := Flat.NEG_FLT_MAX |} 4.

(** [store] is what a successful [build_index] makes of [cks] from world
    [w]: the chunks, under the index to which the normalised stack of the
    embeddings of all batches was added. *)
Definition built_from `{NumLib} (cks : list Chunk.t) (w : World)
    (store : VectorStore) : Prop :=
  exists (all_embeddings : list (option ndarray))
         (stacked normalized : ndarray) (empty_index full_index : IndexFlatIP),
    fst (embed_batches (range_step (len (map Chunk.text cks)) 10)
           (map Chunk.text cks) w) = Ok all_embeddings
    /\ np_vstack all_embeddings = Ok stacked
    /\ faiss_IndexFlatIP stacked = Ok empty_index
    /\ faiss_normalize_L2 (Some stacked) = Ok normalized
    /\ index_add empty_index normalized = Ok full_index
    /\ store = {| index := Some full_index; chunks := cks |}.

(** The framework as the constructor leaves it around [store]. *)
Definition framework_over `{NumLib} (store : VectorStore) : Framework.t :=
  {| Framework.normal := {| NormalMistral.responses := [] |};
     Framework.rag := {| vector_store := store; responses := [] |};
     Framework.judge := {| evaluations := [] |};
     Framework.results := [] |}.

(* ================================================================== *)
(** * Theorems                                                          *)
(* ================================================================== *)

(** ** Strings, words and slices *)

Lemma nospace_app (u v : str) : nospace u -> nospace v -> nospace (u ++ v).
Proof. unfold nospace. rewrite forallb_app. intros -> ->. reflexivity. Qed.

Lemma split_from_words (s : str) :
  forall cur, nospace cur -> Forall is_word (split_from cur s).
Proof.
  induction s as [|c s IH]; intros cur Hcur; simpl.
  - destruct cur; constructor; [split; [discriminate | assumption] | constructor].
  - destruct (isspace c) eqn:Hc.
    + destruct cur as [|x cur].
      * apply IH. reflexivity.
      * constructor; [split; [discriminate | assumption] | apply IH; reflexivity].
    + apply IH. apply nospace_app; [assumption|].
      unfold nospace. simpl. rewrite Hc. reflexivity.
Qed.

Lemma split_words (s : str) : Forall is_word (split s).
Proof. apply split_from_words. reflexivity. Qed.

Lemma split_from_nospace (w : str) :
  forall cur rest, nospace w -> split_from cur (w ++ rest) = split_from (cur ++ w) rest.
Proof.
  induction w as [|c w IH]; intros cur rest Hw; simpl.
  - rewrite app_nil_r. reflexivity.
  - unfold nospace in Hw. simpl in Hw. apply andb_true_iff in Hw as [Hc Hw].
    apply negb_true_iff in Hc. rewrite Hc.
    rewrite IH by exact Hw. rewrite <- app_assoc. reflexivity.
Qed.

(** Splitting the space-joined words gives the words back. *)
Lemma split_join (ws : list str) :
  Forall is_word ws -> split (join (lit " ") ws) = ws.
Proof.
  unfold split. induction ws as [|w ws IH]; intros Hws; [reflexivity|].
  inversion Hws as [|? ? [Hne Hw] Hrest]; subst.
  destruct ws as [|w2 ws].
  - simpl. rewrite <- (app_nil_r w) at 1.
    rewrite split_from_nospace by exact Hw. simpl.
    destruct w; [contradiction Hne; reflexivity | reflexivity].
  - change (join (lit " ") (w :: w2 :: ws))
      with (w ++ lit " " ++ join (lit " ") (w2 :: ws)).
    rewrite split_from_nospace by exact Hw.
    change (lit " " ++ join (lit " ") (w2 :: ws))
      with (32%N :: join (lit " ") (w2 :: ws)).
    cbn [split_from app]. change (isspace 32) with true. cbv iota.
    rewrite (IH Hrest).
    destruct w; [contradiction Hne; reflexivity | reflexivity].
Qed.

(** ** Slices *)

Lemma slice_inside {A} (l : list A) (s e : Z) :
  0 <= s -> s <= e -> e <= len l ->
  slice l s e = firstn (Z.to_nat (e - s)) (skipn (Z.to_nat s) l).
Proof.
  intros Hs He Hn. unfold slice, slice_bound.
  destruct (Z.ltb_spec s 0); [lia|]. destruct (Z.ltb_spec e 0); [lia|].
  rewrite !Z.min_l by lia. reflexivity.
Qed.

Lemma Forall_firstn_skipn {A} (P : A -> Prop) (l : list A) (i j : nat) :
  Forall P l -> Forall P (firstn i (skipn j l)).
Proof.
  intros H.
  assert (Hs : Forall P (skipn j l)).
  { rewrite <- (firstn_skipn j l) in H. apply Forall_app in H. tauto. }
  rewrite <- (firstn_skipn i (skipn j l)) in Hs. apply Forall_app in Hs. tauto.
Qed.

Lemma slice_Forall {A} (P : A -> Prop) (l : list A) (s e : Z) :
  Forall P l -> Forall P (slice l s e).
Proof. intros H. unfold slice. apply Forall_firstn_skipn. exact H. Qed.

Lemma consecutive_map_seq {A} (f : nat -> A) (m : nat) (c1 c2 : A) :
  consecutive (map f (seq 0 m)) c1 c2 ->
  exists i, (S i < m)%nat /\ c1 = f i /\ c2 = f (S i).
Proof.
  intros (pre & post & E). exists (length pre).
  assert (H1 : nth_error (map f (seq 0 m)) (length pre) = Some c1).
  { rewrite E, nth_error_app2, Nat.sub_diag by lia. reflexivity. }
  assert (H2 : nth_error (map f (seq 0 m)) (S (length pre)) = Some c2).
  { rewrite E, nth_error_app2 by lia.
    replace (S (length pre) - length pre)%nat with 1%nat by lia. reflexivity. }
  rewrite nth_error_map, nth_error_seq in H1, H2.
  destruct (Nat.ltb_spec (S (length pre)) m); [|discriminate].
  destruct (Nat.ltb_spec (length pre) m); [|lia].
  simpl in H1, H2. inversion H1. inversion H2. auto.
Qed.

(** ** DocumentChunker *)

Section Windows.
Variables (self : DocumentChunker) (doc : Doc.t) (ws : list str).

(** Closed form of the window loop: window [i] starts [i] advances after
    [start]. *)
Lemma chunk_windows_closed (fuel : nat) :
  forall start cid cs next_id,
    chunk_windows fuel self doc ws start cid = Some (cs, next_id) ->
    exists m : nat,
      cs = map (fun i =>
                  window_chunk self doc ws
                    (start + Z.of_nat i * (chunk_size self - overlap self))
                    (cid + Z.of_nat i))
               (seq 0 m)
      /\ next_id = cid + Z.of_nat m
      /\ (forall i, (i < m)%nat ->
            start + Z.of_nat i * (chunk_size self - overlap self) < len ws)
      /\ len ws <= start + Z.of_nat m * (chunk_size self - overlap self).
Proof.
  induction fuel as [|fuel IH]; intros start cid cs next_id H; [discriminate|].
  cbn [chunk_windows] in H. destruct (Z.ltb_spec start (len ws)) as [Hlt|Hge].
  - destruct (chunk_windows fuel self doc ws
                (start + (chunk_size self - overlap self)) (cid + 1))
      as [[cs' id']|] eqn:E; [|discriminate].
    inversion H; subst; clear H.
    destruct (IH _ _ _ _ E) as (m & -> & -> & Hin & Hout).
    exists (S m). repeat split.
    + cbn [seq map]. f_equal.
      * f_equal; lia.
      * rewrite <- seq_shift, map_map. apply map_ext. intros i.
        f_equal; lia.
    + lia.
    + intros [|i] Hi; [lia|]. specialize (Hin i ltac:(lia)). lia.
    + lia.
  - inversion H; subst. exists 0%nat. repeat split; [lia | intros; lia | lia].
Qed.

(** With a positive advance the loop ends once the fuel exceeds the words
    left. *)
Lemma chunk_windows_total (fuel : nat) :
  forall start cid,
    0 < chunk_size self - overlap self ->
    (Z.to_nat (len ws - start) < fuel)%nat ->
    exists r, chunk_windows fuel self doc ws start cid = Some r.
Proof.
  induction fuel as [|fuel IH]; intros start cid Ha Hf; [lia|].
  cbn [chunk_windows]. destruct (Z.ltb_spec start (len ws)) as [Hlt|Hge].
  - destruct (IH (start + (chunk_size self - overlap self)) (cid + 1) Ha
                ltac:(lia)) as [[cs id'] ->].
    eauto.
  - eauto.
Qed.

(** With a non-positive advance the loop never ends. *)
Lemma chunk_windows_diverges (fuel : nat) :
  forall start cid,
    chunk_size self - overlap self <= 0 -> start < len ws ->
    chunk_windows fuel self doc ws start cid = None.
Proof.
  induction fuel as [|fuel IH]; intros start cid Ha Hs; [reflexivity|].
  cbn [chunk_windows]. destruct (Z.ltb_spec start (len ws)); [|lia].
  rewrite IH by lia. reflexivity.
Qed.

End Windows.

Lemma window_chunk_words (self : DocumentChunker) (doc : Doc.t)
    (ws : list str) (start cid : Z) :
  Forall is_word ws ->
  chunk_words (window_chunk self doc ws start cid)
  = slice ws start (Z.min (start + chunk_size self) (len ws)).
Proof.
  intros H. unfold chunk_words, window_chunk. cbn [Chunk.text].
  apply split_join. apply slice_Forall. exact H.
Qed.

(** Two windows one advance apart: what is left of the first after
    [chunk_size - overlap] words is the beginning of the second. *)
Lemma window_boundary {A} (ws : list A) (cs ov s : Z) :
  0 <= ov < cs -> 0 <= s -> s + (cs - ov) < len ws ->
  let w1 := slice ws s (Z.min (s + cs) (len ws)) in
  let w2 := slice ws (s + (cs - ov)) (Z.min (s + (cs - ov) + cs) (len ws)) in
  (Nat.min (Z.to_nat ov) (length w2) <= length w1)%nat /\
  (Nat.min (Z.to_nat ov) (length w2) <= length w2)%nat /\
  skipn (length w1 - Nat.min (Z.to_nat ov) (length w2)) w1
  = firstn (Nat.min (Z.to_nat ov) (length w2)) w2.
Proof.
  intros Hov Hs Hlt w1 w2. subst w1 w2. unfold len in *.
  rewrite !slice_inside by (unfold len; lia).
  set (S0 := Z.to_nat s).
  set (L1 := Z.to_nat (Z.min (s + cs) (Z.of_nat (length ws)) - s)).
  set (S1 := Z.to_nat (s + (cs - ov))).
  set (L2 := Z.to_nat (Z.min (s + (cs - ov) + cs) (Z.of_nat (length ws))
                       - (s + (cs - ov)))).
  assert (E1 : length (firstn L1 (skipn S0 ws)) = L1).
  { rewrite length_firstn, length_skipn. subst L1 S0. lia. }
  assert (E2 : length (firstn L2 (skipn S1 ws)) = L2).
  { rewrite length_firstn, length_skipn. subst L2 S1. lia. }
  rewrite E1, E2.
  assert (Ek : (L1 - Nat.min (Z.to_nat ov) L2 = Z.to_nat (cs - ov))%nat)
    by (subst L1 L2; lia).
  split; [subst L1 L2; lia|]. split; [lia|].
  rewrite Ek, skipn_firstn_comm, skipn_skipn, firstn_firstn.
  replace (Z.to_nat (cs - ov) + S0)%nat with S1 by (subst S0 S1; lia).
  f_equal. subst L1 L2. lia.
Qed.

(** Every position of the word list lies in the window that starts at the
    largest multiple of the advance below it. *)
Lemma window_cover {A} (ws : list A) (cs ov : Z) (j : nat) (w : A) :
  0 <= ov < cs -> nth_error ws j = Some w ->
  let s := (Z.of_nat j / (cs - ov)) * (cs - ov) in
  0 <= s <= Z.of_nat j /\ In w (slice ws s (Z.min (s + cs) (len ws))).
Proof.
  intros Hov Hj s.
  assert (Hlen : (j < length ws)%nat) by (apply nth_error_Some; congruence).
  assert (Ha : 0 < cs - ov) by lia.
  assert (Hdiv : 0 <= Z.of_nat j / (cs - ov)) by (apply Z.div_pos; lia).
  assert (Hlo : s <= Z.of_nat j)
    by (subst s; rewrite Z.mul_comm; apply Z.mul_div_le; lia).
  assert (Hhi : Z.of_nat j < s + (cs - ov)).
  { subst s. pose proof (Z.mul_succ_div_gt (Z.of_nat j) (cs - ov) Ha). lia. }
  assert (Hs0 : 0 <= s) by (subst s; apply Z.mul_nonneg_nonneg; lia).
  split; [lia|].
  rewrite slice_inside by (unfold len; lia).
  apply nth_error_In with (n := (j - Z.to_nat s)%nat).
  rewrite nth_error_firstn, nth_error_skipn.
  replace (Z.to_nat s + (j - Z.to_nat s))%nat with j by lia.
  destruct (Nat.ltb_spec (j - Z.to_nat s)
              (Z.to_nat (Z.min (s + cs) (len ws) - s))) as [|Hbad];
    [exact Hj | unfold len in Hbad; lia].
Qed.

Lemma chunk_document_next_id fuel self cid doc cs next_id :
  chunk_document fuel self cid doc = Some (cs, next_id) ->
  next_id = cid + len cs.
Proof.
  unfold chunk_document.
  destruct (len (split (Doc.content doc)) <=? chunk_size self).
  - intros H. inversion H. reflexivity.
  - intros H. apply chunk_windows_closed in H as (m & -> & -> & _).
    unfold len. rewrite length_map, length_seq. reflexivity.
Qed.

Lemma chunk_documents_from_app fuel self (l1 l2 : list Doc.t) :
  forall cid,
    chunk_documents_from fuel self cid (l1 ++ l2)
    = match chunk_documents_from fuel self cid l1 with
      | None => None
      | Some o1 =>
          match chunk_documents_from fuel self (cid + len o1) l2 with
          | None => None
          | Some o2 => Some (o1 ++ o2)
          end
      end.
Proof.
  induction l1 as [|d l1 IH]; intros cid.
  - cbn. rewrite Z.add_0_r.
    destruct (chunk_documents_from fuel self cid l2); reflexivity.
  - cbn [app chunk_documents_from].
    destruct (chunk_document fuel self cid d) as [[cs nid]|] eqn:E; [|reflexivity].
    apply chunk_document_next_id in E. subst nid. rewrite IH.
    destruct (chunk_documents_from fuel self (cid + len cs) l1) as [o1|];
      [|reflexivity].
    replace (cid + len (cs ++ o1)) with (cid + len cs + len o1)
      by (unfold len; rewrite length_app; lia).
    destruct (chunk_documents_from fuel self (cid + len cs + len o1) l2);
      [rewrite app_assoc|]; reflexivity.
Qed.

Lemma chunk_document_total fuel self cid doc :
  0 < chunk_size self - overlap self ->
  (length (split (Doc.content doc)) < fuel)%nat ->
  exists r, chunk_document fuel self cid doc = Some r.
Proof.
  intros Ha Hf. unfold chunk_document.
  destruct (len (split (Doc.content doc)) <=? chunk_size self); [eauto|].
  apply chunk_windows_total; [exact Ha | unfold len; lia].
Qed.

Lemma chunk_documents_from_total fuel self (docs : list Doc.t) :
  0 < chunk_size self - overlap self ->
  (enough_fuel docs <= fuel)%nat ->
  forall cid, exists out, chunk_documents_from fuel self cid docs = Some out.
Proof.
  intros Ha. unfold enough_fuel.
  induction docs as [|d docs IH]; intros Hf cid; [cbn; eauto|].
  cbn [map list_max fold_right] in Hf.
  fold (list_max (map (fun d => length (split (Doc.content d))) docs)) in Hf.
  cbn [chunk_documents_from].
  destruct (chunk_document_total fuel self cid d Ha ltac:(lia)) as [[cs nid] ->].
  destruct (IH ltac:(lia) nid) as [out ->]. eauto.
Qed.

(** A document longer than the window makes the loop spin for ever once
    the advance is not positive. *)
Lemma chunk_document_diverges fuel self cid doc :
  chunk_size self <= overlap self ->
  chunk_size self < len (split (Doc.content doc)) ->
  0 < len (split (Doc.content doc)) ->
  chunk_document fuel self cid doc = None.
Proof.
  intros Hov Hlong Hpos. unfold chunk_document.
  destruct (Z.leb_spec (len (split (Doc.content doc))) (chunk_size self)); [lia|].
  apply chunk_windows_diverges; lia.
Qed.

(** What holds of the chunks of one split document. *)
Lemma chunk_document_windows fuel self cid doc cks next_id :
  0 <= overlap self < chunk_size self ->
  chunk_size self < len (split (Doc.content doc)) ->
  chunk_document fuel self cid doc = Some (cks, next_id) ->
  (forall c1 c2, consecutive cks c1 c2 ->
     shares_boundary (Nat.min (Z.to_nat (overlap self)) (length (chunk_words c2)))
       (chunk_words c1) (chunk_words c2))
  /\ (forall w, In w (split (Doc.content doc)) ->
        exists c, In c cks /\ In w (chunk_words c)).
Proof.
  intros Hov Hlong H. unfold chunk_document in H.
  destruct (Z.leb_spec (len (split (Doc.content doc))) (chunk_size self)); [lia|].
  set (ws := split (Doc.content doc)) in *.
  assert (Hws : Forall is_word ws) by apply split_words.
  apply chunk_windows_closed in H as (m & -> & -> & Hin & Hout).
  split.
  - intros c1 c2 Hc. apply consecutive_map_seq in Hc as (i & Hi & -> & ->).
    rewrite !window_chunk_words by exact Hws.
    pose proof (Hin (S i) Hi) as Hlt.
    replace (0 + Z.of_nat (S i) * (chunk_size self - overlap self))
      with (0 + Z.of_nat i * (chunk_size self - overlap self)
            + (chunk_size self - overlap self)) in * by lia.
    assert (0 <= Z.of_nat i * (chunk_size self - overlap self))
      by (apply Z.mul_nonneg_nonneg; lia).
    apply window_boundary; [exact Hov | lia | exact Hlt].
  - intros w Hw. apply In_nth_error in Hw as [j Hj].
    destruct (window_cover ws (chunk_size self) (overlap self) j w Hov Hj)
      as [[Hs0 Hsj] Hcov].
    set (q := Z.of_nat j / (chunk_size self - overlap self)) in *.
    assert (Hq : 0 <= q) by (apply Z.div_pos; lia).
    assert (Hlen : (j < length ws)%nat) by (apply nth_error_Some; congruence).
    assert (Hqm : (Z.to_nat q < m)%nat).
    { destruct (Nat.lt_ge_cases (Z.to_nat q) m) as [|Hge]; [assumption|].
      exfalso. unfold len in Hout.
      assert (Z.of_nat m * (chunk_size self - overlap self)
              <= q * (chunk_size self - overlap self))
        by (apply Z.mul_le_mono_nonneg_r; lia).
      lia. }
    exists (window_chunk self doc ws
              (0 + Z.of_nat (Z.to_nat q) * (chunk_size self - overlap self))
              (cid + Z.of_nat (Z.to_nat q))).
    split.
    + apply in_map_iff. exists (Z.to_nat q). split; [reflexivity|].
      apply in_seq. lia.
    + rewrite window_chunk_words by exact Hws.
      rewrite Z2Nat.id by exact Hq. exact Hcov.
Qed.

(** C3 (as amended).  Under a configuration with [0 <= overlap < chunk_size],
    for every document of more than [chunk_size] words, wherever it stands
    in the input, [chunk_documents] returns (given fuel for its loops) the
    chunks of the documents before it, then the chunks [cks] of the
    document, then the rest; consecutive chunks of [cks] share the first
    [overlap] words of the later one, exactly [overlap] words whenever the
    later chunk has that many and the whole later chunk otherwise; and
    every word of the document appears in a chunk of [cks]. *)
Theorem chunk_documents_overlap_cover
    (self : DocumentChunker) (before : list Doc.t) (doc : Doc.t)
    (after : list Doc.t) (fuel : nat) :
  0 <= overlap self < chunk_size self ->
  chunk_size self < len (split (Doc.content doc)) ->
  (enough_fuel (before ++ doc :: after) <= fuel)%nat ->
  exists out1 cks out2,
    chunk_documents fuel self (before ++ doc :: after)
    = Some (out1 ++ cks ++ out2)
    /\ chunk_documents fuel self before = Some out1
    /\ chunk_document fuel self (len out1) doc = Some (cks, len out1 + len cks)
    /\ overlapping_cover self doc cks.
Proof.
  intros Hov Hlong Hfuel.
  assert (Ha : 0 < chunk_size self - overlap self) by lia.
  destruct (chunk_documents_from_total fuel self _ Ha Hfuel 0) as [out Hout].
  unfold chunk_documents. rewrite Hout.
  rewrite chunk_documents_from_app in Hout.
  destruct (chunk_documents_from fuel self 0 before) as [out1|]; [|discriminate].
  cbn [chunk_documents_from] in Hout. rewrite Z.add_0_l in Hout.
  destruct (chunk_document fuel self (len out1) doc) as [[cks nid]|] eqn:Ed;
    [|discriminate].
  destruct (chunk_documents_from fuel self nid after) as [out2|]; [|discriminate].
  inversion Hout; subst out; clear Hout.
  exists out1, cks, out2. split; [reflexivity|]. split; [reflexivity|].
  pose proof (chunk_document_next_id _ _ _ _ _ _ Ed) as ->.
  split; [exact Ed|].
  destruct (chunk_document_windows _ _ _ _ _ _ Hov Hlong Ed) as [Hb Hc].
  split; [exact Hb|]. split; [|exact Hc].
  intros c1 c2 Hcons Hlen. specialize (Hb c1 c2 Hcons).
  rewrite Nat.min_l in Hb by (unfold len in Hlen; lia). exact Hb.
Qed.

Lemma chunk_documents_overlap_cover_witness :
  exists out1 cks out2,
    chunk_documents 10 (DocumentChunker_init 4 2) ([] ++ sample_doc :: [])
    = Some (out1 ++ cks ++ out2)
    /\ chunk_documents 10 (DocumentChunker_init 4 2) [] = Some out1
    /\ chunk_document 10 (DocumentChunker_init 4 2) (len out1) sample_doc
       = Some (cks, len out1 + len cks)
    /\ overlapping_cover (DocumentChunker_init 4 2) sample_doc cks.
Proof.
  apply (chunk_documents_overlap_cover (DocumentChunker_init 4 2) []
           sample_doc [] 10).
  - cbn. lia.
  - vm_compute. reflexivity.
  - vm_compute. lia.
Defined.

(** C3 as stated fails: with [chunk_size = 4] and [overlap = 2] the
    five-word document is cut into [a b c d], [c d e] and [e]; the last two
    chunks cannot share two words, the last one having a single word. *)
Lemma chunk_documents_overlap_counterexample :
  chunk_size (DocumentChunker_init 4 2) < len (split (Doc.content sample_doc))
  /\ chunk_documents 10 (DocumentChunker_init 4 2) [sample_doc]
     = Some [sample_chunk 0 "a b c d"; sample_chunk 1 "c d e";
             sample_chunk 2 "e"]
  /\ ~ shares_boundary (Z.to_nat (overlap (DocumentChunker_init 4 2)))
        (chunk_words (sample_chunk 1 "c d e"))
        (chunk_words (sample_chunk 2 "e")).
Proof.
  split; [vm_compute; reflexivity|]. split; [vm_compute; reflexivity|].
  intros (_ & H & _). vm_compute in H. lia.
Qed.

Lemma chunk_documents_whole fuel self (docs : list Doc.t) :
  Forall (fun d => len (split (Doc.content d)) <= chunk_size self) docs ->
  forall cid,
    chunk_documents_from fuel self cid docs = Some (whole_chunks cid docs).
Proof.
  induction 1 as [|d docs Hd _ IH]; intros cid; [reflexivity|].
  cbn [chunk_documents_from whole_chunks]. unfold chunk_document.
  destruct (Z.leb_spec (len (split (Doc.content d))) (chunk_size self)); [|lia].
  rewrite IH. reflexivity.
Qed.

(** C9 (as amended).  Constructing a chunker succeeds for every pair
    [(chunk_size, overlap)] and stores both unchecked, and
    [chunk_documents] checks neither: whatever the configuration, documents
    of at most [chunk_size] words are returned as one whole-content chunk
    each, with no fuel spent in a window loop. *)
Theorem chunker_accepts_any_configuration (cs ov : Z) :
  chunk_size (DocumentChunker_init cs ov) = cs
  /\ overlap (DocumentChunker_init cs ov) = ov
  /\ forall (fuel : nat) (docs : list Doc.t),
       Forall (fun d => len (split (Doc.content d)) <= cs) docs ->
       chunk_documents fuel (DocumentChunker_init cs ov) docs
       = Some (whole_chunks 0 docs).
Proof.
  split; [reflexivity|]. split; [reflexivity|].
  intros fuel docs H. apply chunk_documents_whole. exact H.
Qed.

Lemma chunker_accepts_any_configuration_witness :
  chunk_documents 0 (DocumentChunker_init 5 7) [sample_doc]
  = Some (whole_chunks 0 [sample_doc]).
Proof.
  apply (proj2 (proj2 (chunker_accepts_any_configuration 5 7)) 0%nat [sample_doc]).
  constructor; [vm_compute; discriminate | constructor].
Defined.

(** C9 as stated fails: a chunker with [overlap = 7 >= chunk_size = 5] is
    constructed without error, and chunking the five-word document under it
    returns normally, the window advance being [-2]. *)
Lemma chunker_construction_counterexample :
  overlap (DocumentChunker_init 5 7) >= chunk_size (DocumentChunker_init 5 7)
  /\ chunk_size (DocumentChunker_init 5 7) - overlap (DocumentChunker_init 5 7) = -2
  /\ chunk_documents 0 (DocumentChunker_init 5 7) [sample_doc]
     = Some [sample_chunk 0 "a b c d e"].
Proof.
  split; [vm_compute; discriminate|]. split; reflexivity.
Qed.

(** ** MistralClient *)

Lemma range_5 : range 5 = [0; 1; 2; 3; 4].
Proof. reflexivity. Qed.

(** Whatever the replies, a chat call that meets only failures returns an
    error marker. *)
Lemma chat_attempts_sentinel (req : Request) (attempts : list Z) :
  forall w,
    (forall i, (i < length attempts)%nat ->
       chat_failure (upstream w (posts w + i) req) = true) ->
    exists msg, fst (chat_attempts attempts req w) = api_error msg.
Proof.
  induction attempts as [|attempt rest IH]; intros w Hfail.
  - exists (lit "max retries"). reflexivity.
  - assert (Hnext : forall d w1,
              upstream w1 = upstream w -> posts w1 = S (posts w) ->
              exists msg, fst (chat_attempts rest req (sleep d w1)) = api_error msg).
    { intros d w1 Hu Hp. apply IH. intros i Hi. cbn [sleep upstream posts].
      rewrite Hu, Hp. replace (S (posts w) + i)%nat with (posts w + S i)%nat by lia.
      apply Hfail. cbn. lia. }
    pose proof (Hfail 0%nat ltac:(cbn; lia)) as H0.
    rewrite Nat.add_0_r in H0.
    cbn [chat_attempts post].
    destruct (upstream w (posts w) req) as [|msg|msg|content|e]; try discriminate.
    + apply Hnext; reflexivity.
    + destruct (contains (lit "429") msg); [apply Hnext; reflexivity|].
      destruct (attempt <? 4); [apply Hnext; reflexivity | eexists; reflexivity].
    + destruct (attempt <? 4); [apply Hnext; reflexivity | eexists; reflexivity].
    + destruct (attempt <? 4); [apply Hnext; reflexivity | eexists; reflexivity].
Qed.

(** The half of C4 that holds: when all five attempts of a chat call
    fail, [chat] returns an [[API_ERROR: ...]] marker as its text. *)
Lemma chat_exhausted_returns_sentinel (w : World) (prompt system : str)
    (temperature : Q) (max_tokens : Z) :
  (forall i, (i < 5)%nat ->
     chat_failure (upstream w (posts w + i)
                     (ChatRequest system prompt temperature max_tokens)) = true) ->
  exists msg, fst (chat w prompt system temperature max_tokens) = api_error msg.
Proof. intros H. apply chat_attempts_sentinel. exact H. Qed.

Section Embed.
Context `{L : NumLib}.

(** Rate-limit replies alone never make [embed] raise: each attempt posts
    once and sleeps twice [2 ** attempt] seconds, then the loop runs out
    and the function returns nothing, both counters untouched. *)
Lemma embed_attempts_rate_limited (texts : list str) (attempts : list Z) :
  forall w,
    (forall i, (i < length attempts)%nat ->
       upstream w (posts w + i) (EmbedRequest texts) = Status429) ->
    let r := embed_attempts attempts texts w in
    fst r = Ok None
    /\ posts (snd r) = (posts w + length attempts)%nat
    /\ slept (snd r)
       = slept w ++ map (fun a => inject_Z (2 ^ a * 2)) attempts
    /\ embed_count (snd r) = embed_count w
    /\ call_count (snd r) = call_count w.
Proof.
  induction attempts as [|attempt rest IH]; intros w H429.
  - cbn. rewrite Nat.add_0_r, app_nil_r. repeat split.
  - cbn [embed_attempts post].
    pose proof (H429 0%nat ltac:(cbn; lia)) as H0. rewrite Nat.add_0_r in H0.
    rewrite H0.
    set (w1 := sleep (inject_Z (2 ^ attempt * 2))
                 {| upstream := upstream w; posts := S (posts w);
                    call_count := call_count w; embed_count := embed_count w;
                    slept := slept w |}).
    destruct (IH w1) as (Hr & Hp & Hs & He & Hc).
    { intros i Hi. subst w1. cbn [sleep upstream posts].
      replace (S (posts w) + i)%nat with (posts w + S i)%nat by lia.
      apply H429. cbn. lia. }
    cbv zeta. rewrite Hr, Hp, Hs, He, Hc. subst w1.
    cbn [sleep upstream posts slept embed_count call_count length map].
    rewrite <- app_assoc. repeat split. lia.
Qed.

(** Attempts below 4 always go on to the next one after a failure; the
    last attempt decides: a 429 lets the loop run out, any other failure
    raises. *)
Lemma embed_attempts_last (texts : list str) (last : Z) (attempts : list Z) :
  Forall (fun a => a < 4) attempts -> 4 <= last ->
  forall w,
    (forall i, (i <= length attempts)%nat ->
       embed_failure (upstream w (posts w + i) (EmbedRequest texts)) = true) ->
    if is_429 (upstream w (posts w + length attempts) (EmbedRequest texts))
    then fst (embed_attempts (attempts ++ [last]) texts w) = Ok None
    else exists msg,
        fst (embed_attempts (attempts ++ [last]) texts w)
        = Raise (RuntimeError (lit "Embedding failed: " ++ msg)).
Proof.
  intros Hlow Hlast. induction Hlow as [|a attempts Ha _ IH]; intros w Hfail.
  - pose proof (Hfail 0%nat ltac:(cbn; lia)) as H0.
    cbn [length app embed_attempts post] in *. rewrite Nat.add_0_r in *.
    destruct (Z.ltb_spec last 4); [lia|].
    destruct (upstream w (posts w) (EmbedRequest texts)) as [|msg|msg|c|e];
      cbn [is_429]; try reflexivity; try (eexists; reflexivity).
    cbn [embed_failure] in H0. destruct (np_array e); [discriminate|].
    eexists; reflexivity.
  - assert (Hnext : forall d w1,
              upstream w1 = upstream w -> posts w1 = S (posts w) ->
              if is_429 (upstream w (posts w + length (a :: attempts))
                           (EmbedRequest texts))
              then fst (embed_attempts (attempts ++ [last]) texts (sleep d w1))
                   = Ok None
              else exists msg,
                  fst (embed_attempts (attempts ++ [last]) texts (sleep d w1))
                  = Raise (RuntimeError (lit "Embedding failed: " ++ msg))).
    { intros d w1 Hu Hp.
      specialize (IH (sleep d w1)). cbn [sleep upstream posts] in IH.
      rewrite Hu, Hp in IH.
      replace (posts w + length (a :: attempts))%nat
        with (S (posts w) + length attempts)%nat by (cbn; lia).
      apply IH. intros i Hi.
      replace (S (posts w) + i)%nat with (posts w + S i)%nat by lia.
      apply Hfail. cbn. lia. }
    pose proof (Hfail 0%nat ltac:(cbn; lia)) as H0. rewrite Nat.add_0_r in H0.
    cbn [app embed_attempts post].
    destruct (Z.ltb_spec a 4); [|lia].
    destruct (upstream w (posts w) (EmbedRequest texts)) as [|msg|msg|c|e];
      try (apply Hnext; reflexivity).
    cbn [embed_failure] in H0. destruct (np_array e); [discriminate|].
    apply Hnext; reflexivity.
Qed.

(** When all five attempts fail, [embed] raises [RuntimeError] unless the
    last reply is a 429, in which case it returns [None]. *)
Lemma embed_exhausted (texts : list str) (w : World) :
  (forall i, (i < 5)%nat ->
     embed_failure (upstream w (posts w + i) (EmbedRequest texts)) = true) ->
  if is_429 (upstream w (posts w + 4) (EmbedRequest texts))
  then fst (embed w texts) = Ok None
  else exists msg,
      fst (embed w texts) = Raise (RuntimeError (lit "Embedding failed: " ++ msg)).
Proof.
  intros Hfail.
  apply (embed_attempts_last texts 4 [0; 1; 2; 3]).
  - repeat constructor.
  - lia.
  - intros i Hi. apply Hfail. cbn in Hi. lia.
Qed.

End Embed.

(** C4, the failing case.  Against a service that answers 429 to all
    five attempts, [embed] posts five times, sleeps 2, 4, 8, 16 and 32
    seconds, leaves its loop and returns [None]: no [RuntimeError] is
    raised, where [chat] has its marker returned after the loop. *)
Theorem embed_rate_limited_returns_None `{L : NumLib} (w : World)
    (texts : list str) :
  (forall i, (i < 5)%nat ->
     upstream w (posts w + i) (EmbedRequest texts) = Status429) ->
  fst (embed w texts) = Ok None
  /\ posts (snd (embed w texts)) = (posts w + 5)%nat
  /\ slept (snd (embed w texts))
     = slept w ++ [inject_Z 2; inject_Z 4; inject_Z 8; inject_Z 16; inject_Z 32]
  /\ embed_count (snd (embed w texts)) = embed_count w.
Proof.
  intros H.
  destruct (embed_attempts_rate_limited texts (range 5) w H)
    as (Hr & Hp & Hs & He & _).
  unfold embed. rewrite Hr, Hp, Hs, He. repeat split.
Qed.

Lemma embed_rate_limited_returns_None_witness :
  fst (embed (world_of rate_limited) [lit "what is NEP 2020"]) = Ok None
  /\ posts (snd (embed (world_of rate_limited) [lit "what is NEP 2020"]))
     = (posts (world_of rate_limited) + 5)%nat
  /\ slept (snd (embed (world_of rate_limited) [lit "what is NEP 2020"]))
     = slept (world_of rate_limited)
       ++ [inject_Z 2; inject_Z 4; inject_Z 8; inject_Z 16; inject_Z 32]
  /\ embed_count (snd (embed (world_of rate_limited) [lit "what is NEP 2020"]))
     = embed_count (world_of rate_limited).
Proof.
  apply (embed_rate_limited_returns_None (world_of rate_limited)).
  intros i _. reflexivity.
Defined.

(** ** VectorStore *)

Section Store.
Context `{L : NumLib}.

Lemma embed_batches_fails (texts : list str) (offsets : list Z) :
  forall w e w',
    batch_fails texts offsets w e w' <->
    embed_batches offsets texts w = (Raise e, w').
Proof.
  induction offsets as [|i rest IH]; intros w e w'; split.
  - inversion 1.
  - discriminate.
  - inversion 1 as [? ? ? ? ? Hraise|? ? ? embeddings w1 ? ? Hok Hrest]; subst;
      cbn [embed_batches].
    + rewrite Hraise. reflexivity.
    + rewrite Hok. apply IH in Hrest. rewrite Hrest. reflexivity.
  - cbn [embed_batches].
    destruct (embed w (slice texts i (i + 10))) as [[embeddings|e1] w1] eqn:E.
    + destruct (embed_batches rest texts (sleep REQUEST_DELAY w1))
        as [[more|e2] w2] eqn:E2; [discriminate|].
      intros H. inversion H; subst.
      eapply batch_fails_later; [exact E | apply IH; exact E2].
    + intros H. inversion H; subst. apply batch_fails_here. exact E.
Qed.

(** A search on a store without an index raises, whatever the service
    answers to the embedding of the query. *)
Lemma search_unbuilt (self : VectorStore) (query : str) (top_k : Z) (w : World) :
  index self = None ->
  exists e w', search self query top_k w = (Raise e, w').
Proof.
  intros Hidx. unfold search.
  destruct (embed w [query]) as [[query_emb|e] w1]; [|eauto].
  destruct (faiss_normalize_L2 query_emb); [|eauto].
  rewrite Hidx. eauto.
Qed.

(** When the query is embedded and normalised, the error is the attribute
    lookup on [None]. *)
Lemma search_unbuilt_attribute_error (self : VectorStore) (query : str)
    (top_k : Z) (w w1 : World) (query_emb : option ndarray)
    (normalized : ndarray) :
  index self = None ->
  embed w [query] = (Ok query_emb, w1) ->
  faiss_normalize_L2 query_emb = Ok normalized ->
  search self query top_k w
  = (Raise (AttributeError (lit "'NoneType' object has no attribute 'search'")),
     w1).
Proof.
  intros Hidx Hemb Hnorm. unfold search. rewrite Hemb, Hnorm, Hidx. reflexivity.
Qed.

(** The results of [search] are the hits of the index, in their order and
    with their scores, as soon as every label is [-1] or the position of
    a stored chunk: the guard [idx < len(self.chunks)] lets the padding
    label [-1] through, and [self.chunks[-1]] is the last chunk. *)
Lemma search_results_keep_every_hit (cks : list Chunk.t) (hits : list (Q * Z)) :
  cks <> [] ->
  Forall (fun h => -1 <= snd h < len cks) hits ->
  exists results,
    search_results cks hits = Ok results
    /\ map relevance_score results = map fst hits
    /\ length results = length hits.
Proof.
  intros Hne. induction 1 as [|[score idx] hits Hh _ IH].
  - exists []. repeat split.
  - destruct IH as (results & Hr & Hs & Hl). cbn [snd] in Hh.
    cbn [search_results]. destruct (Z.ltb_spec idx (len cks)); [|lia].
    assert (Hget : exists c, getitem cks idx = Ok c).
    { unfold getitem.
      assert (Hlen : 0 < len cks)
        by (destruct cks; [contradiction Hne; reflexivity | unfold len; cbn; lia]).
      set (j := if idx <? 0 then idx + len cks else idx).
      assert (Hj : 0 <= j < len cks)
        by (subst j; destruct (Z.ltb_spec idx 0); lia).
      destruct (Z.leb_spec 0 j); [|lia]. destruct (Z.ltb_spec j (len cks)); [|lia].
      cbn [andb].
      destruct (nth_error cks (Z.to_nat j)) eqn:E; [eauto|].
      apply nth_error_None in E. unfold len in Hj. lia. }
    destruct Hget as [c ->]. rewrite Hr.
    eexists. split; [reflexivity|]. cbn [map relevance_score fst length].
    rewrite Hs, Hl. split; reflexivity.
Qed.

End Store.



(** On a store with no index, when an embedding call of [build_index]
    raises, [build_index] raises, the store still has no index, and every
    later [search] on it raises instead of returning results. *)
Lemma build_index_raise_leaves_store_unbuilt `{L : NumLib}
    (self : VectorStore) (new_chunks : list Chunk.t) (w : World)
    (e : exn) (w' : World) :
  index self = None ->
  embedding_fails new_chunks w e w' ->
  exists self',
    build_index self new_chunks w = (Raise e, self', w')
    /\ index self' = None
    /\ forall (query : str) (top_k : Z) (w2 : World),
         exists e2 w3, search self' query top_k w2 = (Raise e2, w3).
Proof.
  intros Hidx H. apply embed_batches_fails in H.
  exists {| index := index self; chunks := new_chunks |}.
  split; [unfold build_index; cbv zeta; rewrite H; reflexivity|].
  split; [exact Hidx|].
  intros query top_k w2. apply search_unbuilt. exact Hidx.
Qed.

(** C8, the failing case.  On a fresh store, when the service answers 429
    to every attempt of the only batch, [embed] returns [None] instead of
    raising (the defect of C4); numpy stacks the batch into an object
    array, [self.index] is assigned the index made for its width, and
    only then does [faiss.normalize_L2] raise.  [build_index] raises, but
    the store holds an index: a later [search] whose query is embedded is
    answered by that index, not by the error of a missing one. *)
Theorem build_index_rate_limited_holds_index `{L : NumLib} (c : Chunk.t)
    (w : World) (stacked : ndarray) (empty_index : IndexFlatIP) (e : exn) :
  (forall i, (i < 5)%nat ->
     upstream w (posts w + i) (EmbedRequest [Chunk.text c]) = Status429) ->
  np_vstack [None] = Ok stacked ->
  faiss_IndexFlatIP stacked = Ok empty_index ->
  faiss_normalize_L2 (Some stacked) = Raise e ->
  exists self' w',
    build_index VectorStore_init [c] w = (Raise e, self', w')
    /\ index self' = Some empty_index
    /\ chunks self' = [c]
    /\ forall (query : str) (top_k : Z) (w2 w3 : World)
              (query_emb : option ndarray) (normalized : ndarray),
         embed w2 [query] = (Ok query_emb, w3) ->
         faiss_normalize_L2 query_emb = Ok normalized ->
         search self' query top_k w2
         = match index_search empty_index normalized top_k with
           | Ok hits => (search_results [c] hits, w3)
           | Raise e2 => (Raise e2, w3)
           end.
Proof.
  intros H429 Hstack Hindex Hnorm.
  destruct (embed_attempts_rate_limited [Chunk.text c] (range 5) w H429)
    as (Hr & _).
  unfold build_index. cbv zeta. cbn [map].
  change (range_step (len [Chunk.text c]) 10) with [0].
  cbn [embed_batches].
  change (slice [Chunk.text c] 0 (0 + 10)) with [Chunk.text c].
  unfold embed. destruct (embed_attempts (range 5) [Chunk.text c] w) as [r w1].
  cbn [fst] in Hr. subst r.
  rewrite Hstack, Hindex, Hnorm.
  eexists _, _. split; [reflexivity|]. split; [reflexivity|].
  split; [reflexivity|].
  intros query top_k w2 w3 query_emb normalized Hemb Hqn.
  unfold search, embed. rewrite Hemb, Hqn. cbn [index chunks].
  destruct (index_search empty_index normalized top_k); reflexivity.
Qed.

Lemma build_index_rate_limited_holds_index_witness :
  exists self' w',
    build_index VectorStore_init [sample_chunk 0 "a b"] (world_of rate_limited)
    = (Raise (ValueError (lit "did not recognize array type")), self', w')
    /\ index self' = Some {| Flat.d := 1; Flat.xb := [] |}
    /\ chunks self' = [sample_chunk 0 "a b"]
    /\ forall (query : str) (top_k : Z) (w2 w3 : World)
              (query_emb : option ndarray) (normalized : ndarray),
         embed w2 [query] = (Ok query_emb, w3) ->
         faiss_normalize_L2 query_emb = Ok normalized ->
         search self' query top_k w2
         = match index_search {| Flat.d := 1; Flat.xb := [] |} normalized top_k
           with
           | Ok hits => (search_results [sample_chunk 0 "a b"] hits, w3)
           | Raise e2 => (Raise e2, w3)
           end.
Proof.
  apply (@build_index_rate_limited_holds_index FlatLib (sample_chunk 0 "a b")
           (world_of rate_limited) (Flat.object [[None]])).
  - intros i _. reflexivity.
  - reflexivity.
  - reflexivity.
  - reflexivity.
Defined.

(** C2, the failing case.  An index built from one chunk is asked for two
    results: faiss pads its answer with label [-1], the guard
    [idx < len(self.chunks)] accepts it, and [self.chunks[-1]] makes a
    second result out of the only chunk.  [search] returns two results
    where [min(k, chunkCount)] is one. *)
Theorem search_returns_more_than_stored :
  build_index VectorStore_init [sample_chunk 0 "a b"] (world_of (service (lit "ok")))
  = (Ok tt, built_store,
     world_after (service (lit "ok")) 1 1 [REQUEST_DELAY])
  /\ Z.min 2 (len (chunks built_store)) = 1
  /\ search built_store (lit "a") 2 (world_after (service (lit "ok")) 1 1 [REQUEST_DELAY])
     = (Ok [ {| chunk := sample_chunk 0 "a b"; relevance_score := 1 |};
             {| chunk := sample_chunk 0 "a b";
                relevance_score := Flat.NEG_FLT_MAX |} ],
        world_after (service (lit "ok")) 2 2 [REQUEST_DELAY]).
Proof. repeat split; vm_compute; reflexivity. Qed.


(** ** Dictionaries *)

Lemma str_eqb_eq (a b : str) : str_eqb a b = true <-> a = b.
Proof.
  revert b. induction a as [|x a IH]; intros [|y b]; cbn; split;
    try discriminate; try reflexivity.
  - intros H. apply andb_true_iff in H as [Hx Hab].
    apply N.eqb_eq in Hx. apply IH in Hab. congruence.
  - intros H. inversion H; subst. rewrite N.eqb_refl. cbn. apply IH. reflexivity.
Qed.

Lemma str_eqb_refl (a : str) : str_eqb a a = true.
Proof. apply str_eqb_eq. reflexivity. Qed.

Lemma dict_get_set_same (k : str) (v : pyval) (d : dict) :
  dict_get k (dict_set k v d) = Some v.
Proof.
  induction d as [|[k' v'] d IH]; cbn.
  - rewrite str_eqb_refl. reflexivity.
  - destruct (str_eqb k' k) eqn:E; cbn; rewrite E; [reflexivity | exact IH].
Qed.

Lemma dict_get_set_other (k k0 : str) (v : pyval) (d : dict) :
  str_eqb k0 k = false ->
  dict_get k (dict_set k0 v d) = dict_get k d.
Proof.
  intros Hne. induction d as [|[k' v'] d IH]; cbn.
  - destruct (str_eqb k0 k); [discriminate | reflexivity].
  - destruct (str_eqb k' k0) eqn:E0; cbn.
    + apply str_eqb_eq in E0. subst k'. rewrite Hne. reflexivity.
    + destruct (str_eqb k' k); [reflexivity | exact IH].
Qed.

Lemma dict_get_del_other (k k0 : str) (d : dict) :
  str_eqb k0 k = false ->
  dict_get k (dict_del k0 d) = dict_get k d.
Proof.
  intros Hne. induction d as [|[k' v'] d IH]; cbn; [reflexivity|].
  destruct (str_eqb k' k0) eqn:E0; cbn.
  - apply str_eqb_eq in E0. subst k'. rewrite Hne. reflexivity.
  - destruct (str_eqb k' k); [reflexivity | exact IH].
Qed.

(** ** LLMJudge *)

(** Where [remap] returns, it has put the value under [response_a]
    ([{}] if there is none) under the scores key of the pipeline behind
    A, likewise for [response_b], and the winner that the stated
    preference selects under [winner]. *)
Lemma remap_entries (a_is : Source) (scores verdict : dict) :
  remap a_is scores = Ok verdict ->
  dict_get (scores_key a_is) verdict
  = Some (or_empty (dict_get (lit "response_a") scores))
  /\ dict_get (scores_key (other a_is)) verdict
     = Some (or_empty (dict_get (lit "response_b") scores)).
Proof.
  unfold remap, dict_pop.
  destruct (winner_of a_is (other a_is) _) as [winner|e]; [|discriminate].
  intros H. inversion H; subst verdict; clear H.
  split.
  - rewrite dict_get_set_other by (destruct a_is; reflexivity).
    rewrite dict_get_set_other by (destruct a_is; reflexivity).
    rewrite dict_get_del_other by (destruct a_is; reflexivity).
    rewrite dict_get_set_same. reflexivity.
  - rewrite dict_get_set_other by (destruct a_is; reflexivity).
    rewrite dict_get_set_same.
    rewrite dict_get_set_other by (destruct a_is; reflexivity).
    rewrite dict_get_del_other by reflexivity. reflexivity.
Qed.

Lemma remap_winner (a_is : Source) (scores : dict) :
  match remap a_is scores with
  | Ok verdict => Ok (dict_get (lit "winner") verdict)
  | Raise e => Raise e
  end
  = match winner_of a_is (other a_is) (stated_preference (Some scores)) with
    | Ok winner => Ok (Some (PStr winner))
    | Raise e => Raise e
    end.
Proof.
  unfold remap, dict_pop, stated_preference.
  rewrite dict_get_set_other by (destruct a_is; reflexivity).
  rewrite dict_get_del_other by reflexivity.
  rewrite dict_get_set_other by (destruct a_is; reflexivity).
  rewrite dict_get_del_other by reflexivity.
  destruct (winner_of a_is (other a_is) _); [|reflexivity].
  rewrite dict_get_set_same. reflexivity.
Qed.

(** Swapping the pipelines behind the labels and complementing the
    preference selects the same winner. *)
Lemma winner_of_complement (p : Source) (preferred : pyval) :
  winner_of (other p) p (complement preferred) = winner_of p (other p) preferred.
Proof.
  destruct preferred as [| | | |s| |]; try reflexivity.
  cbn [complement winner_of].
  destruct (str_eqb s (lit "A")) eqn:EA.
  - reflexivity.
  - destruct (str_eqb s (lit "B")) eqn:EB.
    + reflexivity.
    + cbn [winner_of]. rewrite EA, EB. reflexivity.
Qed.

Section Judge.
Context `{TL : TextLib}.

Lemma verdict_of_patterns (a_is : Source) (text : str) :
  verdict_of a_is (Some (parse_patterns text)) = remap a_is (parse_patterns text).
Proof. reflexivity. Qed.

Lemma evaluate_winner (self : LLMJudge) (query resp_normal resp_rag : str)
    (random : Q) (w : World) :
  reported_winner (evaluate self query resp_normal resp_rag random w)
  = match winner_of (assign random) (other (assign random))
            (stated_preference
               (_parse (fst (judge_output query resp_normal resp_rag random w))))
    with
    | Ok winner => Ok (Some (PStr winner))
    | Raise e => Raise e
    end.
Proof.
  unfold reported_winner, evaluate.
  destruct (judge_output query resp_normal resp_rag random w) as [output w1].
  cbn [fst]. unfold _parse.
  destruct (parse_json output) as [[|entry more]|].
  - destruct (assign random); reflexivity.
  - rewrite <- remap_winner. cbn [verdict_of].
    destruct (remap (assign random) (entry :: more)); reflexivity.
  - rewrite <- remap_winner. rewrite verdict_of_patterns.
    destruct (remap (assign random) _); reflexivity.
Qed.

Lemma neutral_has_all_scores (key : str) (verdict : dict) :
  dict_get key verdict = Some neutral_scores -> has_all_scores key verdict.
Proof.
  intros H. eexists. split; [exact H|].
  intros dim Hdim. exists 3.
  cbn in Hdim. repeat destruct Hdim as [<- | Hdim]; try reflexivity.
  contradiction.
Qed.

Lemma extracted_section_scores (text : str) (d : dict) :
  d = map (fun dim => (dim, PInt (match search_dim dim text with
                                  | Some n => n
                                  | None => 3
                                  end))) DIMS ->
  forall dim, In dim DIMS -> exists n, dict_get dim d = Some (PInt n).
Proof.
  intros -> dim Hdim. cbn in Hdim.
  repeat destruct Hdim as [<- | Hdim]; try (eexists; reflexivity).
  contradiction.
Qed.

End Judge.

(** C5 (as amended).  When the judge's answer holds no decodable JSON
    object and none of the patterns is found in it, [evaluate] returns,
    without raising, a verdict with all six scores of both pipelines at 3
    and winner [tie]; its rationale is [Extracted], the mark of the
    pattern search, whose defaults produce this verdict. *)
Theorem evaluate_unparseable_is_neutral `{TL : TextLib} (self : LLMJudge)
    (query resp_normal resp_rag : str) (random : Q) (w : World) :
  let output := fst (judge_output query resp_normal resp_rag random w) in
  parse_json output = None ->
  (forall dim, In dim DIMS -> search_dim dim output = None) ->
  search_prefer (lit "A") output = false ->
  search_prefer (lit "B") output = false ->
  exists verdict,
    evaluate self query resp_normal resp_rag random w
    = (Ok verdict, {| evaluations := evaluations self ++ [verdict] |},
       snd (judge_output query resp_normal resp_rag random w))
    /\ dict_get (lit "normal_scores") verdict = Some neutral_scores
    /\ dict_get (lit "rag_scores") verdict = Some neutral_scores
    /\ dict_get (lit "winner") verdict = Some (PStr (lit "tie"))
    /\ dict_get (lit "reasoning") verdict = Some (PStr (lit "Extracted")).
Proof.
  intros output Hjson Hdims HA HB. subst output. unfold evaluate.
  destruct (judge_output query resp_normal resp_rag random w) as [output w1].
  cbn [fst snd] in *. unfold _parse. rewrite Hjson.
  unfold parse_patterns. rewrite HA, HB.
  assert (Hsec : map (fun dim => (dim, PInt (match search_dim dim output with
                                             | Some n => n
                                             | None => 3
                                             end))) DIMS
                 = map (fun dim => (dim, PInt 3)) DIMS).
  { apply map_ext_in. intros dim Hdim. rewrite (Hdims dim Hdim). reflexivity. }
  rewrite Hsec.
  destruct (assign random); eexists; (split; [reflexivity|]);
    repeat split; reflexivity.
Qed.

Lemma evaluate_unparseable_is_neutral_witness :
  exists verdict,
    evaluate {| evaluations := [] |} (lit "q") (lit "n") (lit "r") (3 # 4)
      (world_of (service (lit "I cannot compare these.")))
    = (Ok verdict, {| evaluations := [] ++ [verdict] |},
       snd (judge_output (lit "q") (lit "n") (lit "r") (3 # 4)
              (world_of (service (lit "I cannot compare these.")))))
    /\ dict_get (lit "normal_scores") verdict = Some neutral_scores
    /\ dict_get (lit "rag_scores") verdict = Some neutral_scores
    /\ dict_get (lit "winner") verdict = Some (PStr (lit "tie"))
    /\ dict_get (lit "reasoning") verdict = Some (PStr (lit "Extracted")).
Proof.
  apply (evaluate_unparseable_is_neutral {| evaluations := [] |}
           (lit "q") (lit "n") (lit "r") (3 # 4)
           (world_of (service (lit "I cannot compare these.")))).
  - vm_compute. reflexivity.
  - intros dim Hdim. cbn in Hdim.
    repeat destruct Hdim as [<- | Hdim]; try (vm_compute; reflexivity).
    contradiction.
  - vm_compute. reflexivity.
  - vm_compute. reflexivity.
Defined.

(** C5 as stated fails: on the answer [I cannot compare these.], in which
    there is no JSON and no pattern to find, the rationale of the verdict
    is [Extracted], not [Parse failed]. *)
Lemma evaluate_unparseable_counterexample :
  let w := world_of (service (lit "I cannot compare these.")) in
  let output := fst (judge_output (lit "q") (lit "n") (lit "r") (3 # 4) w) in
  parse_json output = None
  /\ forallb (fun dim => match search_dim dim output with
                         | None => true
                         | Some _ => false
                         end) DIMS = true
  /\ search_prefer (lit "A") output = false
  /\ search_prefer (lit "B") output = false
  /\ fst (fst (evaluate {| evaluations := [] |} (lit "q") (lit "n") (lit "r")
                 (3 # 4) w))
     = Ok extracted_neutral
  /\ dict_get (lit "reasoning") extracted_neutral
     <> Some (PStr (lit "Parse failed")).
Proof.
  cbv zeta. repeat split; try (vm_compute; reflexivity).
  vm_compute. discriminate.
Qed.

(** C6 (as amended).  A verdict that [evaluate] returns always has a
    [normal_scores] and a [rag_scores] entry.  When the answer decodes to
    a non-empty JSON object, they are what that object holds under
    [response_a] and [response_b], the empty mapping if it holds none, with
    no score added.  Otherwise (no decodable object, or the empty object)
    [evaluate] does return a verdict, and all six scores of both pipelines
    are present in it, each defaulted to 3 when not found. *)
Theorem evaluate_scores_entries `{TL : TextLib} (self : LLMJudge)
    (query resp_normal resp_rag : str) (random : Q) (w : World) :
  let output := fst (judge_output query resp_normal resp_rag random w) in
  (forall verdict self' w',
      evaluate self query resp_normal resp_rag random w = (Ok verdict, self', w') ->
      (exists ns rs, dict_get (lit "normal_scores") verdict = Some ns
                     /\ dict_get (lit "rag_scores") verdict = Some rs)
      /\ (forall scores, parse_json output = Some scores -> scores <> [] ->
            dict_get (scores_key (assign random)) verdict
            = Some (or_empty (dict_get (lit "response_a") scores))
            /\ dict_get (scores_key (other (assign random))) verdict
               = Some (or_empty (dict_get (lit "response_b") scores))))
  /\ (parse_json output = None \/ parse_json output = Some [] ->
      exists verdict self' w',
        evaluate self query resp_normal resp_rag random w = (Ok verdict, self', w')
        /\ has_all_scores (lit "normal_scores") verdict
        /\ has_all_scores (lit "rag_scores") verdict).
Proof.
  intros output. subst output. unfold evaluate.
  destruct (judge_output query resp_normal resp_rag random w) as [output w1].
  cbn [fst]. unfold _parse. split.
  - intros verdict self' w' H.
    destruct (parse_json output) as [[|entry more]|] eqn:Ejson.
    + inversion H; subst. split.
      * eexists _, _. split; reflexivity.
      * intros scores Hs Hne. inversion Hs; subst. contradiction Hne. reflexivity.
    + cbn [verdict_of] in H.
      destruct (remap (assign random) (entry :: more)) as [v|e] eqn:Er;
        [|discriminate].
      inversion H; subst. destruct (remap_entries _ _ _ Er) as [Ha Hb]. split.
      * destruct (assign random); cbn [scores_key other] in Ha, Hb; eauto.
      * intros scores Hs _. inversion Hs; subst. split; assumption.
    + rewrite verdict_of_patterns in H.
      destruct (remap (assign random) (parse_patterns output)) as [v|e] eqn:Er;
        [|discriminate].
      inversion H; subst. destruct (remap_entries _ _ _ Er) as [Ha Hb]. split.
      * destruct (assign random); cbn [scores_key other] in Ha, Hb; eauto.
      * intros scores Hs. discriminate Hs.
  - intros [Hjson | Hjson]; rewrite Hjson.
    + assert (Hret : exists v, remap (assign random) (parse_patterns output) = Ok v).
      { unfold parse_patterns.
        destruct (search_prefer (lit "A") output);
          [|destruct (search_prefer (lit "B") output)];
          destruct (assign random); eexists; reflexivity. }
      destruct Hret as [v Hv]. rewrite verdict_of_patterns, Hv. exists v. eexists _, _.
      split; [reflexivity|].
      destruct (remap_entries _ _ _ Hv) as [Ha Hb].
      assert (Hall : forall key, dict_get key v
                       = Some (or_empty (dict_get (lit "response_a")
                                           (parse_patterns output))) ->
                     has_all_scores key v).
      { intros key Hk. eexists. split; [exact Hk|].
        apply (extracted_section_scores output). reflexivity. }
      destruct (assign random); cbn [scores_key other] in Ha, Hb;
        split; apply Hall; assumption.
    + exists parse_failed. eexists _, _. split; [reflexivity|].
      split; apply neutral_has_all_scores; reflexivity.
Qed.

Lemma evaluate_scores_entries_witness :
  exists verdict self' w',
    evaluate {| evaluations := [] |} (lit "q") (lit "n") (lit "r") (3 # 4)
      (world_of (service (lit "I cannot compare these.")))
    = (Ok verdict, self', w')
    /\ has_all_scores (lit "normal_scores") verdict
    /\ has_all_scores (lit "rag_scores") verdict.
Proof.
  apply (proj2 (evaluate_scores_entries {| evaluations := [] |}
                  (lit "q") (lit "n") (lit "r") (3 # 4)
                  (world_of (service (lit "I cannot compare these."))))).
  left. vm_compute. reflexivity.
Defined.

(** C6 as stated fails: on an answer that is a JSON object without
    [response_a], the verdict has an empty [normal_scores]: no dimension
    score is present in it. *)
Lemma evaluate_scores_counterexample :
  fst (fst (evaluate {| evaluations := [] |} (lit "q") (lit "n") (lit "r")
              (3 # 4) (world_of (service (text "{^x^: 1}")))))
  = Ok scoreless_verdict
  /\ ~ has_all_scores (lit "normal_scores") scoreless_verdict.
Proof.
  split; [vm_compute; reflexivity|].
  intros (d & Hd & Hall). vm_compute in Hd. inversion Hd; subst d.
  destruct (Hall (lit "accuracy") (or_introl eq_refl)) as [n Hn].
  discriminate Hn.
Qed.





(** ** RAGPipelineV2 *)

Lemma round53_small (m : Z) : 0 <= m < 2 ^ 53 -> round53 m = m.
Proof.
  intros [H0 H]. unfold round53.
  destruct (Z.leb_spec (Z.log2 m - 52) 0) as [|Hs]; [reflexivity|].
  exfalso. assert (0 < m) by (destruct (Z.eq_dec m 0); [subst; discriminate Hs|lia]).
  apply Z.log2_lt_pow2 in H; lia.
Qed.

(** [round53 m] is a multiple [(q + u) * P] of a power of two [P] next to
    [m = q * P + r], at most half of [P] away, and [P] is small against [m]. *)
Lemma round53_char (m : Z) :
  0 <= m < 2 ^ 105 ->
  exists P q r u,
    0 < P /\ m = q * P + r /\ 0 <= r < P /\ round53 m = (q + u) * P
    /\ (u = 0 \/ u = 1) /\ (u = 1 -> P <= 2 * r) /\ (u = 0 -> 2 * r <= P \/ r = 0)
    /\ (r = 0 -> u = 0) /\ (P = 1 \/ P * 2 ^ 52 <= m) /\ (P | 2 ^ 53).
Proof.
  intros [H0 Hm]. unfold round53.
  destruct (Z.leb_spec (Z.log2 m - 52) 0) as [Hs|Hs].
  - exists 1, m, 0, 0.
    split; [lia|]. split; [lia|]. split; [lia|]. split; [lia|].
    split; [left; reflexivity|]. split; [intros; lia|].
    split; [intros _; right; reflexivity|]. split; [intros; reflexivity|].
    split; [left; reflexivity|]. exists (2 ^ 53). lia.
  - set (s := Z.log2 m - 52) in *.
    assert (Hmpos : 0 < m) by (destruct (Z.eq_dec m 0); [subst; discriminate Hs|lia]).
    assert (HP : 0 < 2 ^ s) by (apply Z.pow_pos_nonneg; lia).
    assert (Hhalf : 2 ^ s = 2 * 2 ^ (s - 1)).
    { replace s with (Z.succ (s - 1)) at 1 by lia. apply Z.pow_succ_r. lia. }
    assert (Hh : 0 < 2 ^ (s - 1)) by (apply Z.pow_pos_nonneg; lia).
    pose proof (Z.div_mod m (2 ^ s) ltac:(lia)) as Hdm.
    pose proof (Z.mod_pos_bound m (2 ^ s) HP) as Hr.
    assert (Hbig : 2 ^ s * 2 ^ 52 <= m).
    { rewrite <- Z.pow_add_r by lia. replace (s + 52) with (Z.log2 m) by (subst s; lia).
      apply Z.log2_spec. exact Hmpos. }
    assert (Hdiv : (2 ^ s | 2 ^ 53)).
    { assert (Z.log2 m < 105) by (apply Z.log2_lt_pow2; lia).
      exists (2 ^ (53 - s)). rewrite <- Z.pow_add_r by (subst s; lia).
      f_equal. lia. }
    exists (2 ^ s), (m / 2 ^ s), (m mod 2 ^ s).
    destruct ((2 ^ (s - 1) <? m mod 2 ^ s)
              || ((m mod 2 ^ s =? 2 ^ (s - 1)) && Z.odd (m / 2 ^ s))) eqn:Eup.
    + assert (Hge : 2 ^ s <= 2 * (m mod 2 ^ s)).
      { apply orb_true_iff in Eup as [E|E].
        - apply Z.ltb_lt in E. lia.
        - apply andb_true_iff in E as [E _]. apply Z.eqb_eq in E. lia. }
      exists 1.
      split; [exact HP|]. split; [lia|]. split; [exact Hr|].
      split; [reflexivity|]. split; [right; reflexivity|].
      split; [intros _; exact Hge|]. split; [intros; lia|].
      split; [intros; lia|]. split; [right; exact Hbig | exact Hdiv].
    + apply orb_false_iff in Eup as [E _]. apply Z.ltb_ge in E.
      exists 0.
      split; [exact HP|]. split; [lia|]. split; [exact Hr|].
      split; [rewrite Z.add_0_r; reflexivity|]. split; [left; reflexivity|].
      split; [intros; lia|]. split; [intros _; left; lia|].
      split; [intros; reflexivity|]. split; [right; exact Hbig | exact Hdiv].
Qed.

Lemma at_least_0_7_spec (r n : Z) :
  0 <= n < 2 ^ 49 -> 0 <= r ->
  at_least_0_7 r n = true <-> 7 * n <= 10 * r.
Proof.
  intros Hn Hr. unfold at_least_0_7, times_0_7.
  rewrite (round53_small n)
    by (split; [exact (proj1 Hn)
               | apply Z.lt_trans with (2 ^ 49); [exact (proj2 Hn) | reflexivity]]).
  assert (Hc : 10 * DOUBLE_0_7 = 7 * 2 ^ 53 - 4) by reflexivity.
  assert (H53 : 2 ^ 53 = 2 * 2 ^ 52) by reflexivity.
  set (m := n * DOUBLE_0_7).
  assert (Hm10 : 10 * m = 7 * n * 2 ^ 53 - 4 * n) by (subst m; lia).
  assert (Hmb : 0 <= m < 2 ^ 105).
  { subst m. unfold DOUBLE_0_7. split; [lia|].
    change (2 ^ 105) with (2 ^ 49 * 2 ^ 56). change (2^49) with 562949953421312 in *.
    change (2^56) with 72057594037927936. lia. }
  destruct (round53_char m Hmb)
    as (P & q & r0 & u & HP & Hm & Hr0 & -> & Hu & Hu1 & Hu0 & Hz & Hbig & [t Ht]).
  rewrite Z.leb_le. split.
  - (* the double is below r: exact comparison *)
    intros HM.
    destruct (Z.le_gt_cases (7 * n) (10 * r)) as [|Hlt]; [assumption|exfalso].
    (* m - T is large, the rounding error small *)
    assert (Hgap : 10 * (r * 2 ^ 53) <= 10 * m + 4 * n - 2 ^ 53) by lia.
    assert (Herr : (m - (q + u) * P) * 2 ^ 53 <= m).
    { destruct Hu as [-> | ->].
      - destruct (Hu0 eq_refl) as [Hh | ->]; [|lia].
        destruct Hbig as [-> | Hbig]; [lia|]. nia.
      - nia. }
    assert (H1 : (m - r * 2 ^ 53) * 2 ^ 53 <= m) by nia.
    change (2 ^ 53) with 9007199254740992 in *.
    change (2 ^ 49) with 562949953421312 in *. nia.
  - intros H7.
    assert (HmT : m <= r * 2 ^ 53) by lia.
    rewrite Ht in HmT.
    assert (Hq : q * P + r0 <= r * t * P) by lia.
    destruct (Z.le_gt_cases (q + 1) (r * t)) as [Hle|Hgt].
    + rewrite Ht. destruct Hu as [-> | ->]; nia.
    + assert (q = r * t) by nia. subst q.
      assert (r0 = 0) by nia. rewrite (Hz H). rewrite Ht. nia.
Qed.

(** C1.  When retrieval returns, [process] returns a result whose output
    is the revision if the revision has at least 0.7 times the words of
    the draft, and the draft itself otherwise; the output never has fewer
    than 70% of the words of the draft.  The drafts covered are those of
    fewer than 2^49 words, on which the double [n * 0.7] of the source
    decides as the exact ratio does. *)
Theorem process_keeps_70_percent `{L : NumLib} (self : RAGPipelineV2)
    (query : str) (w : World) (retrieved : list Retrieved) (w1 : World) :
  search (vector_store self) query TOP_K w = (Ok retrieved, w1) ->
  let answer := fst (draft_of query retrieved w1) in
  let revised :=
    fst (revision_of query answer (snd (draft_of query retrieved w1))) in
  len (split answer) < 2 ^ 49 ->
  exists result self' w',
    process self query w = (Ok result, self', w')
    /\ (7 * len (split answer) <= 10 * len (split revised) ->
        output result = revised)
    /\ (10 * len (split revised) < 7 * len (split answer) ->
        output result = answer)
    /\ 7 * len (split answer) <= 10 * len (split (output result))
    /\ initial_answer_words (metadata result) = len (split answer)
    /\ final_answer_words (metadata result) = len (split (output result)).
Proof.
  intros Hsearch answer revised Hsize. subst answer revised.
  unfold process. rewrite Hsearch.
  destruct (draft_of query retrieved w1) as [answer w2]. cbn [fst snd] in *.
  destruct (revision_of query answer w2) as [revised w3]. cbn [fst snd].
  eexists _, _, _. split; [reflexivity|]. cbn [output metadata
    initial_answer_words final_answer_words].
  assert (Ha : 0 <= len (split answer)) by (unfold len; lia).
  assert (Hr : 0 <= len (split revised)) by (unfold len; lia).
  pose proof (at_least_0_7_spec (len (split revised)) (len (split answer))
                (conj Ha Hsize) Hr) as Hspec.
  destruct (at_least_0_7 (len (split revised)) (len (split answer))).
  - assert (7 * len (split answer) <= 10 * len (split revised))
      by (apply Hspec; reflexivity).
    repeat split; try reflexivity; try lia.
  - assert (~ 7 * len (split answer) <= 10 * len (split revised))
      by (intros H; apply Hspec in H; discriminate).
    repeat split; try reflexivity; try lia.
Qed.

Lemma process_keeps_70_percent_witness :
  exists retrieved w1,
    search built_store (lit "a") TOP_K short_revision = (Ok retrieved, w1)
    /\ let answer := fst (draft_of (lit "a") retrieved w1) in
       let revised :=
         fst (revision_of (lit "a") answer (snd (draft_of (lit "a") retrieved w1))) in
       exists result self' w',
         process {| vector_store := built_store; responses := [] |}
           (lit "a") short_revision
         = (Ok result, self', w')
         /\ (7 * len (split answer) <= 10 * len (split revised) ->
             output result = revised)
         /\ (10 * len (split revised) < 7 * len (split answer) ->
             output result = answer)
         /\ 7 * len (split answer) <= 10 * len (split (output result))
         /\ initial_answer_words (metadata result) = len (split answer)
         /\ final_answer_words (metadata result) = len (split (output result)).
Proof.
  eexists _, _. split; [vm_compute; reflexivity|].
  apply (process_keeps_70_percent
           {| vector_store := built_store; responses := [] |}
           (lit "a") short_revision).
  - vm_compute. reflexivity.
  - vm_compute. reflexivity.
Defined.

(** The run [short_revision]: the one-word revision is discarded and the
    four-word draft is the output. *)
Example process_discards_short_revision :
  match process {| vector_store := built_store; responses := [] |}
          (lit "a") short_revision with
  | (Ok result, _, _) =>
      output result = lit "one two three four"
      /\ initial_answer_words (metadata result) = 4
      /\ final_answer_words (metadata result) = 4
      /\ api_calls (metadata result) = 2
  | _ => False
  end.
Proof. vm_compute. repeat split; reflexivity. Qed.

(** The two documents of 350 and 200 words of the specification, under
    the default configuration: two chunks, then one. *)
Example chunk_documents_350_200 :
  option_map (map Chunk.chunk_id)
    (chunk_documents 400 DocumentChunker_default
       [Doc.mk (lit "a") (lit "A") (join (lit " ") (repeat (lit "w") 350));
        Doc.mk (lit "b") (lit "B") (join (lit " ") (repeat (lit "w") 200))])
  = Some [0; 1; 2].
Proof. vm_compute. reflexivity. Qed.

(* ================================================================== *)
(** * Further properties of the program                                *)
(* ================================================================== *)

(** ** MistralClient: retries *)

Lemma range_split (k : nat) :
  (k < 5)%nat ->
  range 5 = range k ++ Z.of_nat k :: map Z.of_nat (seq (S k) (4 - k)).
Proof.
  intros Hk. destruct k as [|[|[|[|[|k]]]]]; try reflexivity. lia.
Qed.

(** Rate-limit replies in front of a completion: one post and one sleep
    each, then the completion is returned and counted. *)
Lemma chat_attempts_after_rate_limits (req : Request) (content : str)
    (a : Z) (rest pre : list Z) :
  forall w,
    (forall i, (i < length pre)%nat -> upstream w (posts w + i) req = Status429) ->
    upstream w (posts w + length pre) req = ChatCompletion content ->
    let r := chat_attempts (pre ++ a :: rest) req w in
    fst r = content
    /\ posts (snd r) = S (posts w + length pre)
    /\ call_count (snd r) = call_count w + 1
    /\ embed_count (snd r) = embed_count w
    /\ slept (snd r) = slept w ++ map rate_limit_delay pre.
Proof.
  induction pre as [|attempt pre IH]; intros w H429 Hok.
  - cbn [app length chat_attempts post] in *. rewrite Nat.add_0_r in *.
    rewrite Hok. cbn. rewrite app_nil_r. repeat split.
  - cbn [app chat_attempts post].
    pose proof (H429 0%nat ltac:(cbn; lia)) as H0. rewrite Nat.add_0_r in H0.
    rewrite H0.
    set (w1 := sleep (inject_Z (2 ^ attempt * 2))
                 {| upstream := upstream w; posts := S (posts w);
                    call_count := call_count w; embed_count := embed_count w;
                    slept := slept w |}).
    destruct (IH w1) as (Hr & Hp & Hc & He & Hs).
    { intros i Hi. subst w1. cbn [sleep upstream posts].
      replace (S (posts w) + i)%nat with (posts w + S i)%nat by lia.
      apply H429. cbn. lia. }
    { subst w1. cbn [sleep upstream posts].
      replace (S (posts w) + length pre)%nat
        with (posts w + length (attempt :: pre))%nat by (cbn; lia).
      exact Hok. }
    cbv zeta. rewrite Hr, Hp, Hc, He, Hs. subst w1.
    cbn [sleep upstream posts slept embed_count call_count length map].
    rewrite <- app_assoc. repeat split. lia.
Qed.

(** X1.  When the service answers 429 to the first [k < 5] attempts of a
    chat call and completes the next one, [chat] returns the completion;
    it has posted [k + 1] times, slept 2, 4, ... seconds ([2 * 2 ** i]
    after attempt [i]) and counted one call. *)
Theorem chat_succeeds_after_rate_limits (w : World) (prompt system : str)
    (temperature : Q) (max_tokens : Z) (k : nat) (content : str) :
  (k < 5)%nat ->
  (forall i, (i < k)%nat ->
     upstream w (posts w + i) (chat_request prompt system temperature max_tokens)
     = Status429) ->
  upstream w (posts w + k) (chat_request prompt system temperature max_tokens)
  = ChatCompletion content ->
  let r := chat w prompt system temperature max_tokens in
  fst r = content
  /\ posts (snd r) = S (posts w + k)
  /\ call_count (snd r) = call_count w + 1
  /\ embed_count (snd r) = embed_count w
  /\ slept (snd r) = slept w ++ map rate_limit_delay (range k).
Proof.
  intros Hk H429 Hok. unfold chat. rewrite (range_split k Hk).
  assert (Hlen : length (range k) = k) by (unfold range; rewrite length_map, length_seq; reflexivity).
  pose proof (chat_attempts_after_rate_limits
                (chat_request prompt system temperature max_tokens) content
                (Z.of_nat k) (map Z.of_nat (seq (S k) (4 - k))) (range k) w) as H.
  rewrite Hlen in H. apply H; assumption.
Qed.

Lemma chat_succeeds_after_rate_limits_witness :
  let r := chat third_time_lucky (lit "q") (lit "s") TEMP_RAG MAX_TOKENS in
  fst r = lit "payload"
  /\ posts (snd r) = S (posts third_time_lucky + 2)
  /\ call_count (snd r) = call_count third_time_lucky + 1
  /\ embed_count (snd r) = embed_count third_time_lucky
  /\ slept (snd r) = slept third_time_lucky ++ map rate_limit_delay (range 2).
Proof.
  apply (chat_succeeds_after_rate_limits third_time_lucky (lit "q") (lit "s")
           TEMP_RAG MAX_TOKENS 2 (lit "payload")).
  - lia.
  - intros [|[|i]] Hi; try reflexivity. lia.
  - reflexivity.
Defined.

(** What one more attempt can do to the world: the service is the same,
    the posts and sleeps only grow. *)
Ltac budget :=
  cbn [chat_attempts fst snd sleep add_call_count add_embed_count upstream posts call_count
       embed_count slept length] in *;
  repeat match goal with
         | |- _ /\ _ => split
         end;
  first [ reflexivity | assumption | lia | (intros _; lia)
        | (left; reflexivity) | (right; reflexivity)
        | (intros H; contradiction H; reflexivity) ].

Lemma chat_attempts_budget (req : Request) (attempts : list Z) :
  forall w,
    let r := chat_attempts attempts req w in
    upstream (snd r) = upstream w
    /\ (posts w <= posts (snd r) <= posts w + length attempts)%nat
    /\ (attempts <> [] -> posts w < posts (snd r))%nat
    /\ (call_count (snd r) = call_count w \/ call_count (snd r) = call_count w + 1)
    /\ embed_count (snd r) = embed_count w.
Proof.
  induction attempts as [|attempt rest IH]; intros w; cbv zeta.
  - budget.
  - assert (Hnext : forall d w1,
              upstream w1 = upstream w -> posts w1 = S (posts w) ->
              call_count w1 = call_count w -> embed_count w1 = embed_count w ->
              let r := chat_attempts rest req (sleep d w1) in
              upstream (snd r) = upstream w
              /\ (posts w <= posts (snd r) <= posts w + length (attempt :: rest))%nat
              /\ (attempt :: rest <> [] -> posts w < posts (snd r))%nat
              /\ (call_count (snd r) = call_count w
                  \/ call_count (snd r) = call_count w + 1)
              /\ embed_count (snd r) = embed_count w).
    { intros d w1 Hu Hp Hc He r.
      destruct (IH (sleep d w1)) as (Hu' & Hp' & _ & Hc' & He').
      subst r. cbn [sleep upstream posts call_count embed_count length] in *.
      rewrite Hu', Hu, He', He. rewrite Hp in Hp'. rewrite Hc in Hc'.
      split; [reflexivity|]. split; [lia|]. split; [intros _; lia|].
      split; [exact Hc' | reflexivity]. }
    cbn [chat_attempts post].
    destruct (upstream w (posts w) req) as [|msg|msg|content|e].
    + apply Hnext; reflexivity.
    + destruct (contains (lit "429") msg); [apply Hnext; reflexivity|].
      destruct (attempt <? 4); [apply Hnext; reflexivity | budget].
    + destruct (attempt <? 4); [apply Hnext; reflexivity | budget].
    + budget.
    + destruct (attempt <? 4); [apply Hnext; reflexivity | budget].
Qed.

(** X2.  Whatever the service does, a chat call posts at least once and at
    most five times, counts at most one call, and leaves the embedding
    counter alone. *)
Theorem chat_request_budget (w : World) (prompt system : str)
    (temperature : Q) (max_tokens : Z) :
  let r := chat w prompt system temperature max_tokens in
  (posts w + 1 <= posts (snd r) <= posts w + 5)%nat
  /\ (call_count (snd r) = call_count w \/ call_count (snd r) = call_count w + 1)
  /\ embed_count (snd r) = embed_count w.
Proof.
  destruct (chat_attempts_budget
              (ChatRequest system prompt temperature max_tokens) (range 5) w)
    as (_ & Hp & Hpos & Hc & He).
  cbv zeta. unfold chat. split; [|split; assumption].
  specialize (Hpos ltac:(discriminate)).
  change (length (range 5)) with 5%nat in Hp. lia.
Qed.

Lemma delays_from_stop (a n : nat) (w w' : World) :
  slept w' = slept w -> delays_from a n w w'.
Proof.
  intros H. exists []. cbn. rewrite app_nil_r.
  repeat split; [exact H | constructor | constructor | lia].
Qed.

Lemma delays_from_retry (a n : nat) (w w1 w' : World) (dz : Z) :
  slept w1 = slept w ->
  2 ^ Z.of_nat a <= dz <= 2 ^ Z.of_nat a * 2 ->
  delays_from (S a) n (sleep (inject_Z dz) w1) w' ->
  delays_from a (S n) w w'.
Proof.
  intros Hs Hdz (zs & Hsl & Hsorted & Hbounds & Hlen).
  assert (Hpow : 2 ^ Z.of_nat (S a) = 2 ^ Z.of_nat a * 2)
    by (rewrite Nat2Z.inj_succ, Z.pow_succ_r by lia; lia).
  assert (Hmono : 2 ^ Z.of_nat (S a) <= 2 ^ Z.of_nat (a + S n))
    by (apply Z.pow_le_mono_r; lia).
  exists (dz :: zs). cbn [sleep slept] in Hsl.
  split; [rewrite Hsl, Hs, <- app_assoc; reflexivity|].
  split.
  - constructor; [exact Hsorted|].
    eapply Forall_impl; [|exact Hbounds]. cbv beta. intros z Hz. lia.
  - split; [|cbn; lia].
    constructor; [lia|].
    eapply Forall_impl; [|exact Hbounds]. cbv beta. intros z Hz.
    replace (a + S n)%nat with (S a + n)%nat by lia. lia.
Qed.

Lemma chat_attempts_backoff (req : Request) (n : nat) :
  forall a w,
    delays_from a n w (snd (chat_attempts (map Z.of_nat (seq a n)) req w)).
Proof.
  induction n as [|n IH]; intros a w.
  - apply delays_from_stop. reflexivity.
  - cbn [seq map chat_attempts post].
    assert (Hpos : 0 < 2 ^ Z.of_nat a) by (apply Z.pow_pos_nonneg; lia).
    assert (Hd2 : 2 ^ Z.of_nat a <= 2 ^ Z.of_nat a * 2 <= 2 ^ Z.of_nat a * 2)
      by (generalize dependent (2 ^ Z.of_nat a); intros; lia).
    assert (Hd1 : 2 ^ Z.of_nat a <= 2 ^ Z.of_nat a <= 2 ^ Z.of_nat a * 2)
      by (generalize dependent (2 ^ Z.of_nat a); intros; lia).
    assert (Hlong : forall w1, slept w1 = slept w ->
              delays_from a (S n) w
                (snd (chat_attempts (map Z.of_nat (seq (S a) n)) req
                        (sleep (inject_Z (2 ^ Z.of_nat a * 2)) w1))))
      by (intros w1 Hw1; eapply delays_from_retry; [exact Hw1 | exact Hd2 | apply IH]).
    assert (Hshort : forall w1, slept w1 = slept w ->
              delays_from a (S n) w
                (snd (chat_attempts (map Z.of_nat (seq (S a) n)) req
                        (sleep (inject_Z (2 ^ Z.of_nat a)) w1))))
      by (intros w1 Hw1; eapply delays_from_retry; [exact Hw1 | exact Hd1 | apply IH]).
    destruct (upstream w (posts w) req) as [|msg|msg|content|e].
    + apply Hlong. reflexivity.
    + destruct (contains (lit "429") msg); [apply Hlong; reflexivity|].
      destruct (Z.of_nat a <? 4);
        [apply Hshort | apply delays_from_stop]; reflexivity.
    + destruct (Z.of_nat a <? 4);
        [apply Hshort | apply delays_from_stop]; reflexivity.
    + apply delays_from_stop. reflexivity.
    + destruct (Z.of_nat a <? 4);
        [apply Hshort | apply delays_from_stop]; reflexivity.
Qed.

Lemma embed_attempts_backoff `{L : NumLib} (texts : list str) (n : nat) :
  forall a w,
    delays_from a n w (snd (embed_attempts (map Z.of_nat (seq a n)) texts w)).
Proof.
  induction n as [|n IH]; intros a w.
  - apply delays_from_stop. reflexivity.
  - cbn [seq map embed_attempts post].
    assert (Hpos : 0 < 2 ^ Z.of_nat a) by (apply Z.pow_pos_nonneg; lia).
    assert (Hd2 : 2 ^ Z.of_nat a <= 2 ^ Z.of_nat a * 2 <= 2 ^ Z.of_nat a * 2)
      by (generalize dependent (2 ^ Z.of_nat a); intros; lia).
    assert (Hd1 : 2 ^ Z.of_nat a <= 2 ^ Z.of_nat a <= 2 ^ Z.of_nat a * 2)
      by (generalize dependent (2 ^ Z.of_nat a); intros; lia).
    assert (Hlong : forall w1, slept w1 = slept w ->
              delays_from a (S n) w
                (snd (embed_attempts (map Z.of_nat (seq (S a) n)) texts
                        (sleep (inject_Z (2 ^ Z.of_nat a * 2)) w1))))
      by (intros w1 Hw1; eapply delays_from_retry; [exact Hw1 | exact Hd2 | apply IH]).
    assert (Hshort : forall w1, slept w1 = slept w ->
              delays_from a (S n) w
                (snd (embed_attempts (map Z.of_nat (seq (S a) n)) texts
                        (sleep (inject_Z (2 ^ Z.of_nat a)) w1))))
      by (intros w1 Hw1; eapply delays_from_retry; [exact Hw1 | exact Hd1 | apply IH]).
    destruct (upstream w (posts w) (EmbedRequest texts)) as [|msg|msg|content|e].
    + apply Hlong. reflexivity.
    + destruct (Z.of_nat a <? 4);
        [apply Hshort | apply delays_from_stop]; reflexivity.
    + destruct (Z.of_nat a <? 4);
        [apply Hshort | apply delays_from_stop]; reflexivity.
    + destruct (Z.of_nat a <? 4);
        [apply Hshort | apply delays_from_stop]; reflexivity.
    + destruct (np_array e); [apply delays_from_stop; reflexivity|].
      destruct (Z.of_nat a <? 4);
        [apply Hshort | apply delays_from_stop]; reflexivity.
Qed.

Lemma delays_from_backs_off (w w' : World) :
  delays_from 0 5 w w' -> backs_off w w'.
Proof.
  intros (zs & Hs & Hsorted & Hb & Hl). exists zs.
  repeat split; assumption.
Qed.

(** X3.  Whatever the service answers, the delays a chat call and an
    embedding call sleep never decrease from one attempt to the next;
    there are at most five of them, between 1 and 32 seconds. *)
Theorem retry_backoff_nondecreasing `{L : NumLib} (w : World)
    (prompt system : str) (temperature : Q) (max_tokens : Z)
    (texts : list str) :
  backs_off w (snd (chat w prompt system temperature max_tokens))
  /\ backs_off w (snd (embed w texts)).
Proof.
  unfold chat, embed, range.
  split; apply delays_from_backs_off.
  - exact (chat_attempts_backoff
             (ChatRequest system prompt temperature max_tokens) 5 0%nat w).
  - exact (embed_attempts_backoff texts 5 0%nat w).
Qed.

Lemma embed_attempts_after_rate_limits `{L : NumLib} (texts : list str)
    (e : list (list Q)) (arr : ndarray) (a : Z) (rest pre : list Z) :
  np_array e = Ok arr ->
  forall w,
    (forall i, (i < length pre)%nat ->
       upstream w (posts w + i) (EmbedRequest texts) = Status429) ->
    upstream w (posts w + length pre) (EmbedRequest texts) = Embeddings e ->
    let r := embed_attempts (pre ++ a :: rest) texts w in
    fst r = Ok (Some arr)
    /\ posts (snd r) = S (posts w + length pre)
    /\ embed_count (snd r) = embed_count w + len texts
    /\ call_count (snd r) = call_count w
    /\ slept (snd r) = slept w ++ map rate_limit_delay pre.
Proof.
  intros Harr. induction pre as [|attempt pre IH]; intros w H429 Hok.
  - cbn [app length embed_attempts post] in *. rewrite Nat.add_0_r in *.
    rewrite Hok, Harr. cbn. rewrite app_nil_r. repeat split.
  - cbn [app embed_attempts post].
    pose proof (H429 0%nat ltac:(cbn; lia)) as H0. rewrite Nat.add_0_r in H0.
    rewrite H0.
    set (w1 := sleep (inject_Z (2 ^ attempt * 2))
                 {| upstream := upstream w; posts := S (posts w);
                    call_count := call_count w; embed_count := embed_count w;
                    slept := slept w |}).
    destruct (IH w1) as (Hr & Hp & He & Hc & Hs).
    { intros i Hi. subst w1. cbn [sleep upstream posts].
      replace (S (posts w) + i)%nat with (posts w + S i)%nat by lia.
      apply H429. cbn. lia. }
    { subst w1. cbn [sleep upstream posts].
      replace (S (posts w) + length pre)%nat
        with (posts w + length (attempt :: pre))%nat by (cbn; lia).
      exact Hok. }
    cbv zeta. rewrite Hr, Hp, Hc, He, Hs. subst w1.
    cbn [sleep upstream posts slept embed_count call_count length map].
    rewrite <- app_assoc. repeat split. lia.
Qed.

(** X4.  When the service answers 429 to the first [k < 5] attempts of an
    embedding call and then sends embeddings that make an array, [embed]
    returns that array; it has posted [k + 1] times, slept [2 * 2 ** i]
    seconds after attempt [i], and added the number of texts to
    [embed_count]. *)
Theorem embed_succeeds_after_rate_limits `{L : NumLib} (w : World)
    (texts : list str) (k : nat) (e : list (list Q)) (arr : ndarray) :
  (k < 5)%nat ->
  (forall i, (i < k)%nat ->
     upstream w (posts w + i) (EmbedRequest texts) = Status429) ->
  upstream w (posts w + k) (EmbedRequest texts) = Embeddings e ->
  np_array e = Ok arr ->
  let r := embed w texts in
  fst r = Ok (Some arr)
  /\ posts (snd r) = S (posts w + k)
  /\ embed_count (snd r) = embed_count w + len texts
  /\ call_count (snd r) = call_count w
  /\ slept (snd r) = slept w ++ map rate_limit_delay (range k).
Proof.
  intros Hk H429 Hok Harr. unfold embed. rewrite (range_split k Hk).
  assert (Hlen : length (range k) = k)
    by (unfold range; rewrite length_map, length_seq; reflexivity).
  pose proof (embed_attempts_after_rate_limits texts e arr
                (Z.of_nat k) (map Z.of_nat (seq (S k) (4 - k))) (range k)
                Harr w) as H.
  rewrite Hlen in H. apply H; assumption.
Qed.

Lemma embed_succeeds_after_rate_limits_witness :
  let r := embed embedded_third_time [lit "q"] in
  fst r = Ok (Some (Flat.float32 [[1%Q; 0%Q]]))
  /\ posts (snd r) = S (posts embedded_third_time + 2)
  /\ embed_count (snd r) = embed_count embedded_third_time + len [lit "q"]
  /\ call_count (snd r) = call_count embedded_third_time
  /\ slept (snd r) = slept embedded_third_time ++ map rate_limit_delay (range 2).
Proof.
  apply (@embed_succeeds_after_rate_limits FlatLib embedded_third_time
           [lit "q"] 2 [[1%Q; 0%Q]] (Flat.float32 [[1%Q; 0%Q]])).
  - lia.
  - intros [|[|i]] Hi; try reflexivity. lia.
  - reflexivity.
  - reflexivity.
Defined.

(** Posts and counters of an embedding call, whatever the service does. *)
Lemma embed_attempts_budget `{L : NumLib} (texts : list str) (attempts : list Z) :
  forall w,
    let r := embed_attempts attempts texts w in
    upstream (snd r) = upstream w
    /\ (posts w <= posts (snd r) <= posts w + length attempts)%nat
    /\ (attempts <> [] -> posts w < posts (snd r))%nat
    /\ call_count (snd r) = call_count w
    /\ embed_count w <= embed_count (snd r).
Proof.
  induction attempts as [|attempt rest IH]; intros w; cbv zeta.
  - cbn; repeat split; try lia; try (intros H; contradiction H; reflexivity).
  - assert (Hnext : forall d w1,
              upstream w1 = upstream w -> posts w1 = S (posts w) ->
              call_count w1 = call_count w -> embed_count w <= embed_count w1 ->
              let r := embed_attempts rest texts (sleep d w1) in
              upstream (snd r) = upstream w
              /\ (posts w <= posts (snd r) <= posts w + length (attempt :: rest))%nat
              /\ (attempt :: rest <> [] -> posts w < posts (snd r))%nat
              /\ call_count (snd r) = call_count w
              /\ embed_count w <= embed_count (snd r)).
    { intros d w1 Hu Hp Hc He r.
      destruct (IH (sleep d w1)) as (Hu' & Hp' & _ & Hc' & He').
      subst r. cbn [sleep upstream posts call_count embed_count length] in *.
      rewrite Hu', Hu, Hc', Hc. rewrite Hp in Hp'.
      split; [reflexivity|]. split; [lia|]. split; [intros _; lia|].
      split; [reflexivity | lia]. }
    assert (Hlen : 0 <= len texts) by (unfold len; lia).
    cbn [embed_attempts post].
    destruct (upstream w (posts w) (EmbedRequest texts)) as [|msg|msg|content|e].
    + apply Hnext; cbn; (reflexivity || lia).
    + destruct (attempt <? 4); [apply Hnext; cbn; (reflexivity || lia)|].
      cbn; repeat split; try lia; try (intros _; lia).
    + destruct (attempt <? 4); [apply Hnext; cbn; (reflexivity || lia)|].
      cbn; repeat split; try lia; try (intros _; lia).
    + destruct (attempt <? 4); [apply Hnext; cbn; (reflexivity || lia)|].
      cbn; repeat split; try lia; try (intros _; lia).
    + destruct (np_array e).
      * cbn; repeat split; try lia; try (intros _; lia).
      * destruct (attempt <? 4); [apply Hnext; cbn; (reflexivity || lia)|].
        cbn; repeat split; try lia; try (intros _; lia).
Qed.

(** ** DocumentChunker: identifiers, counts, divergence *)

Lemma seq_from (a n : nat) : seq a n = map (fun i => (a + i)%nat) (seq 0 n).
Proof.
  revert a. induction n as [|n IH]; intros a; [reflexivity|].
  cbn [seq map]. rewrite Nat.add_0_r. f_equal.
  rewrite (IH (S a)), (IH 1%nat), map_map. apply map_ext. intros i. lia.
Qed.

Lemma chunk_document_ids fuel self cid doc cs next_id :
  chunk_document fuel self cid doc = Some (cs, next_id) ->
  map Chunk.chunk_id cs = map (fun i => cid + Z.of_nat i) (seq 0 (length cs))
  /\ Forall (fun c => Chunk.doc_id c = Doc.id doc
                      /\ Chunk.title c = Doc.title doc) cs.
Proof.
  unfold chunk_document.
  destruct (len (split (Doc.content doc)) <=? chunk_size self).
  - intros H. inversion H; subst. cbn. rewrite Z.add_0_r.
    split; [reflexivity | repeat constructor].
  - intros H. apply chunk_windows_closed in H as (m & -> & _).
    rewrite length_map, length_seq, map_map. split; [reflexivity|].
    apply Forall_forall. intros c Hc. apply in_map_iff in Hc as (i & <- & _).
    split; reflexivity.
Qed.

Lemma chunk_document_nonempty fuel self cid doc cs next_id :
  0 <= chunk_size self ->
  chunk_document fuel self cid doc = Some (cs, next_id) ->
  cs <> [].
Proof.
  intros Hsize. unfold chunk_document.
  destruct (Z.leb_spec (len (split (Doc.content doc))) (chunk_size self))
    as [Hle|Hgt].
  - intros H. inversion H. discriminate.
  - intros H. apply chunk_windows_closed in H as (m & -> & _ & _ & Hout).
    destruct m; [cbn in Hout; lia | discriminate].
Qed.

Lemma chunk_documents_from_groups fuel self (docs : list Doc.t) :
  0 <= chunk_size self ->
  forall cid out,
    chunk_documents_from fuel self cid docs = Some out ->
    map Chunk.chunk_id out = map (fun i => cid + Z.of_nat i) (seq 0 (length out))
    /\ chunks_by_document docs out.
Proof.
  intros Hsize. induction docs as [|d docs IH]; intros cid out H.
  - inversion H; subst. split; [reflexivity|].
    exists []. split; [reflexivity | constructor].
  - cbn [chunk_documents_from] in H.
    destruct (chunk_document fuel self cid d) as [[cs nid]|] eqn:Ed; [|discriminate].
    destruct (chunk_documents_from fuel self nid docs) as [more|] eqn:Er;
      [|discriminate].
    inversion H; subst out; clear H.
    pose proof (chunk_document_next_id _ _ _ _ _ _ Ed) as ->.
    destruct (chunk_document_ids _ _ _ _ _ _ Ed) as [Hcs Hd].
    destruct (IH _ _ Er) as (Hmore & groups & -> & Hgroups). split.
    + rewrite map_app, length_app, seq_app, map_app, Hcs, Hmore. f_equal.
      cbn [Nat.add]. rewrite (seq_from (length cs)), map_map.
      apply map_ext. intros i. unfold len. lia.
    + exists (cs :: groups). split; [reflexivity|].
      constructor; [|exact Hgroups].
      split; [eapply chunk_document_nonempty; eassumption | exact Hd].
Qed.

(** X5.  Under [0 <= overlap < chunk_size], [chunk_documents] returns
    (given fuel for the longest document); its chunks are numbered 0, 1,
    2, ... in list order across all documents, and they come document by
    document in the order of the documents, at least one for each, with
    the id and title of their document. *)
Theorem chunk_ids_sequential (fuel : nat) (self : DocumentChunker)
    (docs : list Doc.t) :
  0 <= overlap self < chunk_size self ->
  (enough_fuel docs <= fuel)%nat ->
  exists out,
    chunk_documents fuel self docs = Some out
    /\ map Chunk.chunk_id out = range (length out)
    /\ chunks_by_document docs out.
Proof.
  intros Hov Hfuel.
  destruct (chunk_documents_from_total fuel self docs ltac:(lia) Hfuel 0)
    as [out Hout].
  exists out. split; [exact Hout|].
  destruct (chunk_documents_from_groups fuel self docs ltac:(lia) _ _ Hout)
    as [Hids Hd].
  split; [|exact Hd]. rewrite Hids. unfold range. apply map_ext.
  intros i. lia.
Qed.

Lemma chunk_ids_sequential_witness :
  exists out,
    chunk_documents 10 (DocumentChunker_init 4 2) [sample_doc; sample_doc]
    = Some out
    /\ map Chunk.chunk_id out = range (length out)
    /\ chunks_by_document [sample_doc; sample_doc] out.
Proof.
  apply (chunk_ids_sequential 10 (DocumentChunker_init 4 2)
           [sample_doc; sample_doc]).
  - cbn. lia.
  - vm_compute. lia.
Defined.

(** X6.  Under [0 <= overlap < chunk_size], a document of [n] words,
    [n > chunk_size], is cut (given fuel for its words) into the ceiling
    of [n / (chunk_size - overlap)] chunks, numbered from the id handed
    in; chunk [i] holds the words from [i * (chunk_size - overlap)] on,
    [chunk_size] of them or what is left, never none. *)
Theorem chunk_document_count_and_content (fuel : nat) (self : DocumentChunker)
    (cid : Z) (doc : Doc.t) :
  let ws := split (Doc.content doc) in
  let advance := chunk_size self - overlap self in
  0 <= overlap self < chunk_size self ->
  chunk_size self < len ws ->
  (length ws < fuel)%nat ->
  exists cks,
    chunk_document fuel self cid doc = Some (cks, cid + len cks)
    /\ len cks = (len ws + advance - 1) / advance
    /\ forall (i : nat) (c : Chunk.t),
         nth_error cks i = Some c ->
         Chunk.chunk_id c = cid + Z.of_nat i
         /\ chunk_words c
            = slice ws (Z.of_nat i * advance)
                (Z.min (Z.of_nat i * advance + chunk_size self) (len ws))
         /\ 1 <= len (chunk_words c) <= chunk_size self.
Proof.
  intros ws advance Hov Hlong Hfuel.
  destruct (chunk_document_total fuel self cid doc ltac:(lia) Hfuel)
    as [[cks next_id] Hrun].
  exists cks.
  pose proof (chunk_document_next_id _ _ _ _ _ _ Hrun) as Hnext.
  rewrite Hrun, Hnext. split; [reflexivity|].
  pose proof Hrun as H. unfold chunk_document in H. fold ws in H.
  destruct (Z.leb_spec (len ws) (chunk_size self)); [lia|].
  assert (Hws : Forall is_word ws) by apply split_words.
  apply chunk_windows_closed in H as (m & -> & _ & Hin & Hout).
  fold advance in Hin, Hout.
  assert (Ha : 0 < advance) by (subst advance; lia).
  split.
  - unfold len at 1. rewrite length_map, length_seq.
    assert (Hm : (0 < m)%nat).
    { destruct m; [|lia]. cbn in Hout. unfold len in *. lia. }
    pose proof (Hin (m - 1)%nat ltac:(lia)) as Hlast.
    apply Z.div_unique with (r := len ws + advance - 1 - advance * Z.of_nat m).
    + left. replace (Z.of_nat (m - 1)) with (Z.of_nat m - 1) in Hlast by lia. lia.
    + lia.
  - intros i c Hc. rewrite nth_error_map, nth_error_seq in Hc.
    destruct (Nat.ltb_spec i m) as [Hi|]; [|discriminate].
    cbn [option_map Nat.add] in Hc. inversion Hc; subst c; clear Hc.
    split; [reflexivity|].
    rewrite window_chunk_words by exact Hws.
    fold advance. split; [reflexivity|].
    pose proof (Hin i Hi) as Hlt. rewrite Z.add_0_l in Hlt.
    assert (Hs : 0 <= Z.of_nat i * advance) by (apply Z.mul_nonneg_nonneg; lia).
    clear Hin Hout Hrun Hnext.
    generalize dependent (Z.of_nat i * advance). intros s Hlt Hs.
    rewrite slice_inside by lia.
    unfold len in *. rewrite !length_firstn, !length_skipn. lia.
Qed.

Lemma chunk_document_count_and_content_witness :
  exists cks,
    chunk_document 10 (DocumentChunker_init 4 2) 0 sample_doc
    = Some (cks, 0 + len cks)
    /\ len cks = (len (split (Doc.content sample_doc)) + (4 - 2) - 1) / (4 - 2)
    /\ forall (i : nat) (c : Chunk.t),
         nth_error cks i = Some c ->
         Chunk.chunk_id c = 0 + Z.of_nat i
         /\ chunk_words c
            = slice (split (Doc.content sample_doc)) (Z.of_nat i * (4 - 2))
                (Z.min (Z.of_nat i * (4 - 2) + 4)
                   (len (split (Doc.content sample_doc))))
         /\ 1 <= len (chunk_words c) <= 4.
Proof.
  apply (chunk_document_count_and_content 10 (DocumentChunker_init 4 2) 0
           sample_doc).
  - cbn. lia.
  - vm_compute. reflexivity.
  - vm_compute. lia.
Defined.

(** X7.  With [overlap >= chunk_size] the window never advances: as soon
    as one document has more than [chunk_size] words (and at least one),
    [chunk_documents] returns for no amount of fuel. *)
Theorem chunk_documents_never_returns (self : DocumentChunker)
    (docs : list Doc.t) (doc : Doc.t) :
  chunk_size self <= overlap self ->
  In doc docs ->
  chunk_size self < len (split (Doc.content doc)) ->
  0 < len (split (Doc.content doc)) ->
  forall fuel, chunk_documents fuel self docs = None.
Proof.
  intros Hov Hin Hlong Hpos fuel. unfold chunk_documents. generalize 0.
  induction docs as [|d docs IH]; intros cid; [contradiction Hin|].
  cbn [chunk_documents_from]. destruct Hin as [-> | Hin].
  - rewrite chunk_document_diverges by assumption. reflexivity.
  - destruct (chunk_document fuel self cid d) as [[cs nid]|]; [|reflexivity].
    rewrite (IH Hin). reflexivity.
Qed.

Lemma chunk_documents_never_returns_witness :
  chunk_documents 1000 (DocumentChunker_init 3 3) [sample_doc] = None.
Proof.
  refine (chunk_documents_never_returns (DocumentChunker_init 3 3)
            [sample_doc] sample_doc _ _ _ _ 1000%nat).
  - cbn. lia.
  - left. reflexivity.
  - vm_compute. reflexivity.
  - vm_compute. reflexivity.
Defined.

(** ** VectorStore: batches and results *)

Lemma firstn_add_skipn {A} (l : list A) (a b : nat) :
  firstn (a + b) l = firstn a l ++ firstn b (skipn a l).
Proof.
  revert l. induction a as [|a IH]; intros l; [reflexivity|].
  destruct l as [|x l]; [cbn; destruct b; reflexivity|].
  cbn. rewrite IH. reflexivity.
Qed.

Lemma concat_blocks {A} (l : list A) (m : nat) :
  concat (map (fun j => firstn 10 (skipn (10 * j) l)) (seq 0 m))
  = firstn (10 * m) l.
Proof.
  induction m as [|m IH]; [reflexivity|].
  rewrite seq_S, map_app, concat_app, IH. cbn [map concat Nat.add].
  rewrite app_nil_r, <- firstn_add_skipn. f_equal. lia.
Qed.

(** The slice [l[10 j : 10 j + 10]] is the block of ten elements (or
    fewer at the end, or none past the end) that starts at [10 j]. *)
Lemma slice_block {A} (l : list A) (j : nat) :
  slice l (Z.of_nat j * 10) (Z.of_nat j * 10 + 10) = firstn 10 (skipn (10 * j) l).
Proof.
  unfold slice, slice_bound, len.
  destruct (Z.ltb_spec (Z.of_nat j * 10) 0); [lia|].
  destruct (Z.ltb_spec (Z.of_nat j * 10 + 10) 0); [lia|].
  destruct (Nat.le_gt_cases (10 * j) (length l)) as [Hin|Hout].
  - rewrite (Z.min_l (Z.of_nat j * 10)) by lia.
    replace (Z.to_nat (Z.of_nat j * 10)) with (10 * j)%nat by lia.
    destruct (Nat.le_gt_cases (10 * j + 10) (length l)) as [Hfull|Hpart].
    + rewrite Z.min_l by lia. f_equal. lia.
    + rewrite Z.min_r by lia.
      rewrite !firstn_all2; [reflexivity | |]; rewrite length_skipn; lia.
  - rewrite !Z.min_r by lia. rewrite Z.sub_diag. cbn [Z.to_nat firstn].
    rewrite (skipn_all2 l) by lia. reflexivity.
Qed.

Section Batches.
Context `{L : NumLib}.

Lemma embed_attempts_first (w : World) (texts : list str) (e : list (list Q))
    (arr : ndarray) (attempt : Z) (rest : list Z) :
  upstream w (posts w) (EmbedRequest texts) = Embeddings e ->
  np_array e = Ok arr ->
  embed_attempts (attempt :: rest) texts w
  = (Ok (Some arr),
     add_embed_count (len texts)
       {| upstream := upstream w; posts := S (posts w);
          call_count := call_count w; embed_count := embed_count w;
          slept := slept w |}).
Proof.
  intros Hreply Harr. cbn [embed_attempts post]. rewrite Hreply, Harr.
  reflexivity.
Qed.

Lemma embed_first_attempt (w : World) (texts : list str) (e : list (list Q))
    (arr : ndarray) :
  upstream w (posts w) (EmbedRequest texts) = Embeddings e ->
  np_array e = Ok arr ->
  embed w texts
  = (Ok (Some arr),
     add_embed_count (len texts)
       {| upstream := upstream w; posts := S (posts w);
          call_count := call_count w; embed_count := embed_count w;
          slept := slept w |}).
Proof.
  intros Hreply Harr.
  exact (embed_attempts_first w texts e arr 0 [1; 2; 3; 4] Hreply Harr).
Qed.

Lemma embed_batches_all (texts : list str) (g : list str -> ndarray)
    (offsets : list Z) :
  forall w,
    embeds_as w g ->
    let r := embed_batches offsets texts w in
    fst r = Ok (map (fun i => Some (g (slice texts i (i + 10)))) offsets)
    /\ upstream (snd r) = upstream w
    /\ posts (snd r) = (posts w + length offsets)%nat
    /\ embed_count (snd r)
       = embed_count w
         + len (concat (map (fun i => slice texts i (i + 10)) offsets))
    /\ call_count (snd r) = call_count w
    /\ slept (snd r) = slept w ++ repeat REQUEST_DELAY (length offsets).
Proof.
  induction offsets as [|i rest IH]; intros w Hg; cbv zeta.
  - cbn. rewrite Nat.add_0_r, Z.add_0_r, app_nil_r. repeat split.
  - cbn [embed_batches map concat length repeat].
    destruct (Hg (posts w) (slice texts i (i + 10))) as (e & Hreply & Harr).
    rewrite (embed_first_attempt w _ e _ Hreply Harr).
    set (w1 := sleep REQUEST_DELAY _).
    assert (Hg1 : embeds_as w1 g) by exact Hg.
    destruct (IH w1 Hg1) as (Hr & Hu & Hp & He & Hc & Hs).
    destruct (embed_batches rest texts w1) as [[more|e'] w2];
      cbn [fst snd] in *; [|discriminate].
    inversion Hr; subst more. rewrite Hu, Hp, He, Hc, Hs. subst w1.
    cbn [sleep add_embed_count upstream posts embed_count call_count slept].
    unfold len. rewrite length_app, <- app_assoc. cbn [app].
    repeat split; lia.
Qed.

End Batches.

(** X8.  Against a service that answers every embedding request at once,
    [build_index] embeds the chunk texts batch by batch, the batches
    [texts[i:i+10]] cutting the texts in order into blocks: joined again
    they are the texts, none is empty, none holds more than ten, and there
    are [ceil(len(texts) / 10)] of them.  The arrays stacked are those of
    the batches in this order; one request is posted and one delay slept
    per batch, and [embed_count] rises by the number of texts. *)
Theorem build_index_batches_partition `{L : NumLib} (self : VectorStore)
    (cks : list Chunk.t) (w : World) (g : list str -> ndarray) :
  embeds_as w g ->
  exists batches : list (list str),
    concat batches = map Chunk.text cks
    /\ Forall (fun b => (1 <= length b <= 10)%nat) batches
    /\ len batches = (len cks + 9) / 10
    /\ fst (embed_batches (range_step (len (map Chunk.text cks)) 10)
              (map Chunk.text cks) w)
       = Ok (map (fun b => Some (g b)) batches)
    /\ (forall (stacked normalized : ndarray)
               (empty_index full_index : IndexFlatIP),
          np_vstack (map (fun b => Some (g b)) batches) = Ok stacked ->
          faiss_IndexFlatIP stacked = Ok empty_index ->
          faiss_normalize_L2 (Some stacked) = Ok normalized ->
          index_add empty_index normalized = Ok full_index ->
          fst (build_index self cks w)
          = (Ok tt, {| index := Some full_index; chunks := cks |}))
    /\ posts (snd (build_index self cks w)) = (posts w + length batches)%nat
    /\ embed_count (snd (build_index self cks w)) = embed_count w + len cks
    /\ slept (snd (build_index self cks w))
       = slept w ++ repeat REQUEST_DELAY (length batches).
Proof.
  intros Hg. set (texts := map Chunk.text cks).
  assert (Hlen : len texts = len cks) by (unfold len, texts; rewrite length_map; reflexivity).
  exists (map (fun i => slice texts i (i + 10)) (range_step (len texts) 10)).
  assert (Hpart :
    concat (map (fun i => slice texts i (i + 10)) (range_step (len texts) 10))
    = texts
    /\ Forall (fun b => (1 <= length b <= 10)%nat)
         (map (fun i => slice texts i (i + 10)) (range_step (len texts) 10))
    /\ len (map (fun i => slice texts i (i + 10)) (range_step (len texts) 10))
       = (len texts + 9) / 10).
  { unfold range_step. rewrite map_map.
    replace (len texts + 10 - 1) with (len texts + 9) by lia.
    set (m := Z.to_nat ((len texts + 9) / 10)).
    assert (Hdiv : 0 <= (len texts + 9) / 10)
      by (apply Z.div_pos; unfold len; lia).
    assert (Hm : Z.of_nat m = (len texts + 9) / 10) by (subst m; lia).
    assert (Hlo : len texts <= 10 * Z.of_nat m).
    { rewrite Hm.
      pose proof (Z.mul_succ_div_gt (len texts + 9) 10 ltac:(lia)). lia. }
    assert (Hhi : 10 * Z.of_nat m <= len texts + 9).
    { rewrite Hm. apply Z.mul_div_le. lia. }
    rewrite (map_ext _ _ (slice_block texts)).
    split; [|split].
    - rewrite concat_blocks. apply firstn_all2. unfold len in Hlo. lia.
    - apply Forall_forall. intros b Hb. apply in_map_iff in Hb as (j & <- & Hj).
      apply in_seq in Hj. rewrite length_firstn, length_skipn.
      unfold len in Hhi. lia.
    - unfold len at 1. rewrite length_map, length_seq. exact Hm. }
  destruct Hpart as (Hconcat & Hsizes & Hcount).
  destruct (embed_batches_all texts g (range_step (len texts) 10) w Hg)
    as (Hr & _ & Hp & He & _ & Hs).
  rewrite Hconcat in He. rewrite <- Hlen.
  split; [exact Hconcat|]. split; [exact Hsizes|]. split; [exact Hcount|].
  split; [rewrite Hr, map_map; reflexivity|].
  split.
  { intros stacked normalized empty_index full_index Hstack Hindex Hnorm Hadd.
    unfold build_index. cbv zeta. fold texts.
    destruct (embed_batches (range_step (len texts) 10) texts w)
      as [r w1]. cbn [fst] in Hr. subst r.
    rewrite map_map in Hstack. rewrite Hstack, Hindex, Hnorm, Hadd.
    reflexivity. }
  assert (Hw : snd (build_index self cks w)
               = snd (embed_batches (range_step (len texts) 10) texts w)).
  { unfold build_index. cbv zeta. fold texts.
    destruct (embed_batches (range_step (len texts) 10) texts w)
      as [[all|e] w1]; [|reflexivity].
    destruct (np_vstack all); [|reflexivity].
    destruct (faiss_IndexFlatIP _); [|reflexivity].
    destruct (faiss_normalize_L2 _); [|reflexivity].
    destruct (index_add _ _); reflexivity. }
  rewrite Hw, Hp, He, Hs, !length_map. repeat split.
Qed.

Lemma build_index_batches_partition_witness :
  exists batches : list (list str),
    concat batches = map Chunk.text (repeat (sample_chunk 0 "a b") 12)
    /\ Forall (fun b => (1 <= length b <= 10)%nat) batches
    /\ len batches = (len (repeat (sample_chunk 0 "a b") 12) + 9) / 10
    /\ fst (embed_batches
              (range_step
                 (len (map Chunk.text (repeat (sample_chunk 0 "a b") 12))) 10)
              (map Chunk.text (repeat (sample_chunk 0 "a b") 12))
              (world_of (service (lit "ok"))))
       = Ok (map (fun b => Some (Flat.float32 (map (fun _ => [1%Q; 0%Q]) b)))
               batches)
    /\ (forall (stacked normalized : ndarray)
               (empty_index full_index : IndexFlatIP),
          np_vstack
            (map (fun b => Some (Flat.float32 (map (fun _ => [1%Q; 0%Q]) b)))
               batches) = Ok stacked ->
          faiss_IndexFlatIP stacked = Ok empty_index ->
          faiss_normalize_L2 (Some stacked) = Ok normalized ->
          index_add empty_index normalized = Ok full_index ->
          fst (build_index VectorStore_init (repeat (sample_chunk 0 "a b") 12)
                 (world_of (service (lit "ok"))))
          = (Ok tt, {| index := Some full_index;
                       chunks := repeat (sample_chunk 0 "a b") 12 |}))
    /\ posts (snd (build_index VectorStore_init
                     (repeat (sample_chunk 0 "a b") 12)
                     (world_of (service (lit "ok")))))
       = (posts (world_of (service (lit "ok"))) + length batches)%nat
    /\ embed_count (snd (build_index VectorStore_init
                           (repeat (sample_chunk 0 "a b") 12)
                           (world_of (service (lit "ok")))))
       = embed_count (world_of (service (lit "ok")))
         + len (repeat (sample_chunk 0 "a b") 12)
    /\ slept (snd (build_index VectorStore_init
                     (repeat (sample_chunk 0 "a b") 12)
                     (world_of (service (lit "ok")))))
       = slept (world_of (service (lit "ok")))
         ++ repeat REQUEST_DELAY (length batches).
Proof.
  apply (@build_index_batches_partition FlatLib VectorStore_init
           (repeat (sample_chunk 0 "a b") 12) (world_of (service (lit "ok")))
           (fun b => Flat.float32 (map (fun _ => [1%Q; 0%Q]) b))).
  intros n b. exists (map (fun _ => [1%Q; 0%Q]) b). split; [reflexivity|].
  cbn. unfold Flat.array.
  replace (Flat.rectangular (map (fun _ => [1%Q; 0%Q]) b)) with true;
    [reflexivity|].
  symmetry. destruct b as [|t b]; [reflexivity|].
  unfold Flat.rectangular. cbn [map Flat.width length].
  apply forallb_forall. intros row Hrow.
  change (In row (map (fun _ => [1%Q; 0%Q]) (t :: b))) in Hrow.
  apply in_map_iff in Hrow as (x & <- & _). reflexivity.
Defined.

Lemma getitem_raises {A} (l : list A) (i : Z) :
  i < - len l -> exists msg, getitem l i = Raise (IndexError msg).
Proof.
  intros Hi. unfold getitem.
  assert (Hlen : 0 <= len l) by (unfold len; lia).
  destruct (Z.ltb_spec i 0); [|lia].
  destruct (Z.leb_spec 0 (i + len l)); [lia|]. cbn [andb]. eauto.
Qed.

Lemma getitem_nth {A} (l : list A) (i : Z) :
  - len l <= i < len l ->
  exists x,
    getitem l i = Ok x
    /\ nth_error l (Z.to_nat (if i <? 0 then len l + i else i)) = Some x.
Proof.
  intros Hi. unfold getitem.
  replace (len l + i) with (i + len l) by lia.
  set (j := if i <? 0 then i + len l else i).
  assert (Hj : 0 <= j < len l) by (subst j; destruct (Z.ltb_spec i 0); lia).
  destruct (Z.leb_spec 0 j); [|lia]. destruct (Z.ltb_spec j (len l)); [|lia].
  cbn [andb]. destruct (nth_error l (Z.to_nat j)) eqn:E.
  - exists a. split; reflexivity.
  - apply nth_error_None in E. unfold len in Hj. lia.
Qed.

(** The result loop of [search]: it returns exactly when no hit has a
    label below [-len(self.chunks)], and then answers, one for one and in
    order, the hits whose label is below [len(self.chunks)]. *)
Lemma search_results_picks (cks : list Chunk.t) (hits : list (Q * Z)) :
  (Forall (fun h => - len cks <= snd h) hits ->
   exists results,
     search_results cks hits = Ok results
     /\ Forall2 (picks cks) (filter (fun h => snd h <? len cks) hits) results)
  /\ (Exists (fun h => snd h < - len cks) hits ->
      exists msg, search_results cks hits = Raise (IndexError msg)).
Proof.
  assert (Hlen : 0 <= len cks) by (unfold len; lia).
  split.
  - induction 1 as [|[score idx] hits Hh _ IH].
    + exists []. split; [reflexivity | constructor].
    + destruct IH as (results & Hr & Hpicks). cbn [snd] in Hh.
      cbn [search_results filter snd].
      destruct (Z.ltb_spec idx (len cks)) as [Hlt|Hge].
      * destruct (getitem_nth cks idx ltac:(lia)) as (c & -> & Hc).
        rewrite Hr. eexists. split; [reflexivity|].
        constructor; [|exact Hpicks]. split; [reflexivity | exact Hc].
      * exists results. split; assumption.
  - induction hits as [|[score idx] hits IH]; intros Hex.
    + inversion Hex.
    + cbn [search_results].
      destruct (Z.ltb_spec idx (len cks)) as [Hlt|Hge].
      * destruct (Z.lt_ge_cases idx (- len cks)) as [Hlow|Hok].
        -- destruct (getitem_raises cks idx Hlow) as [msg ->]. eauto.
        -- destruct (getitem_nth cks idx ltac:(lia)) as (c & -> & _).
           inversion Hex as [? ? Hhere|? ? Hlater]; subst;
             [cbn [snd] in Hhere; lia|].
           destruct (IH Hlater) as [msg ->]. eauto.
      * inversion Hex as [? ? Hhere|? ? Hlater]; subst;
          [cbn [snd] in Hhere; lia|].
        apply IH. exact Hlater.
Qed.

(** X9.  When the query is embedded and the index answers with [hits],
    [search] returns exactly when no hit has a label below
    [-len(self.chunks)] (otherwise it raises [IndexError]); the results
    then answer, one for one and in order, the hits whose label is below
    [len(self.chunks)]: each has the score of its hit and the chunk
    [self.chunks[label]], a negative label counting from the end. *)
Theorem search_results_spec `{L : NumLib} (self : VectorStore) (query : str)
    (top_k : Z) (w w1 : World) (query_emb : option ndarray)
    (normalized : ndarray) (built : IndexFlatIP) (hits : list (Q * Z)) :
  embed w [query] = (Ok query_emb, w1) ->
  faiss_normalize_L2 query_emb = Ok normalized ->
  index self = Some built ->
  index_search built normalized top_k = Ok hits ->
  (Forall (fun h => - len (chunks self) <= snd h) hits ->
   exists results,
     search self query top_k w = (Ok results, w1)
     /\ Forall2 (picks (chunks self))
          (filter (fun h => snd h <? len (chunks self)) hits) results)
  /\ (Exists (fun h => snd h < - len (chunks self)) hits ->
      exists msg, search self query top_k w = (Raise (IndexError msg), w1)).
Proof.
  intros Hemb Hnorm Hidx Hsearch.
  unfold search. rewrite Hemb, Hnorm, Hidx, Hsearch.
  destruct (search_results_picks (chunks self) hits) as [Hok Hraise].
  split.
  - intros Hall. destruct (Hok Hall) as (results & -> & Hpicks).
    exists results. split; [reflexivity | exact Hpicks].
  - intros Hex. destruct (Hraise Hex) as [msg ->]. exists msg. reflexivity.
Qed.

Lemma search_results_spec_witness :
  (exists results,
      search built_store (lit "a") 2 (world_of (service (lit "ok")))
      = (Ok results, world_after (service (lit "ok")) 1 1 [])
      /\ Forall2 (picks (chunks built_store))
           (filter (fun h => snd h <? len (chunks built_store))
              [(1%Q, 0); (Flat.NEG_FLT_MAX, -1)])
           results)
  /\ (exists msg,
         search emptied_store (lit "a") 1 (world_of (service (lit "ok")))
         = (Raise (IndexError msg), world_after (service (lit "ok")) 1 1 [])).
Proof.
  split.
  - refine (proj1 (@search_results_spec FlatLib built_store (lit "a") 2
                     (world_of (service (lit "ok")))
                     (world_after (service (lit "ok")) 1 1 [])
                     (Some (Flat.float32 [[1%Q; 0%Q]]))
                     (Flat.float32 [[1%Q; 0%Q]])
                     {| Flat.d := 2; Flat.xb := [[1%Q; 0%Q]] |}
                     [(1%Q, 0); (Flat.NEG_FLT_MAX, -1)] _ _ _ _) _);
      try (vm_compute; reflexivity).
    repeat constructor; vm_compute; discriminate.
  - refine (proj2 (@search_results_spec FlatLib emptied_store (lit "a") 1
                     (world_of (service (lit "ok")))
                     (world_after (service (lit "ok")) 1 1 [])
                     (Some (Flat.float32 [[1%Q; 0%Q]]))
                     (Flat.float32 [[1%Q; 0%Q]])
                     {| Flat.d := 2; Flat.xb := [] |}
                     [(Flat.NEG_FLT_MAX, -1)] _ _ _ _) _);
      try (vm_compute; reflexivity).
    constructor. vm_compute. reflexivity.
Defined.

(** ** RAGPipelineV2: a rate-limited critique, and what the draft is asked *)

Lemma chat_attempts_all_rate_limited (req : Request) (attempts : list Z) :
  forall w,
    (forall i, (i < length attempts)%nat ->
       upstream w (posts w + i) req = Status429) ->
    fst (chat_attempts attempts req w) = lit "[API_ERROR: max retries]".
Proof.
  induction attempts as [|attempt rest IH]; intros w H429; [reflexivity|].
  cbn [chat_attempts post].
  pose proof (H429 0%nat ltac:(cbn; lia)) as H0. rewrite Nat.add_0_r in H0.
  rewrite H0. apply IH. intros i Hi. cbn [sleep upstream posts].
  replace (S (posts w) + i)%nat with (posts w + S i)%nat by lia.
  apply H429. cbn. lia.
Qed.

(** X10.  When every attempt of the critique call is rate-limited, the
    revision is the marker [[API_ERROR: max retries]], three words long:
    [process] keeps the draft if it has five words or more, and replaces a
    draft of at most four words by the marker. *)
Theorem process_rate_limited_revision `{L : NumLib} (self : RAGPipelineV2)
    (query : str) (w : World) (retrieved : list Retrieved) (w1 : World)
    (answer : str) (w2 : World) :
  search (vector_store self) query TOP_K w = (Ok retrieved, w1) ->
  draft_of query retrieved w1 = (answer, w2) ->
  (forall i, (i < 5)%nat ->
     upstream w2 (posts w2 + i) (critique_request query answer) = Status429) ->
  len (split answer) < 2 ^ 49 ->
  exists result self' w',
    process self query w = (Ok result, self', w')
    /\ output result
       = if len (split answer) <=? 4
         then lit "[API_ERROR: max retries]" else answer.
Proof.
  intros Hsearch Hdraft H429 Hsize. unfold process. rewrite Hsearch, Hdraft.
  assert (Hrev : fst (revision_of query answer w2)
                 = lit "[API_ERROR: max retries]").
  { unfold revision_of, chat. apply chat_attempts_all_rate_limited.
    intros i Hi. cbn [sleep upstream posts]. apply H429.
    change (length (range 5)) with 5%nat in Hi. exact Hi. }
  destruct (revision_of query answer w2) as [revised w3]. cbn [fst] in Hrev.
  subst revised. eexists _, _, _. split; [reflexivity|]. cbn [output].
  change (len (split (lit "[API_ERROR: max retries]"))) with 3.
  assert (Ha : 0 <= len (split answer)) by (unfold len; lia).
  pose proof (at_least_0_7_spec 3 (len (split answer)) (conj Ha Hsize)
                ltac:(lia)) as Hspec.
  destruct (at_least_0_7 3 (len (split answer))).
  - assert (7 * len (split answer) <= 10 * 3) by (apply Hspec; reflexivity).
    destruct (Z.leb_spec (len (split answer)) 4); [reflexivity | lia].
  - assert (~ 7 * len (split answer) <= 10 * 3)
      by (intros H; apply Hspec in H; discriminate).
    destruct (Z.leb_spec (len (split answer)) 4); [lia | reflexivity].
Qed.

Lemma process_rate_limited_revision_witness :
  exists retrieved w1 answer w2,
    search built_store (lit "a") TOP_K critique_rate_limited = (Ok retrieved, w1)
    /\ draft_of (lit "a") retrieved w1 = (answer, w2)
    /\ exists result self' w',
         process {| vector_store := built_store; responses := [] |}
           (lit "a") critique_rate_limited
         = (Ok result, self', w')
         /\ output result
            = if len (split answer) <=? 4
              then lit "[API_ERROR: max retries]" else answer.
Proof.
  eexists _, _, _, _. split; [vm_compute; reflexivity|].
  split; [vm_compute; reflexivity|].
  eapply (@process_rate_limited_revision FlatLib
            {| vector_store := built_store; responses := [] |}
            (lit "a") critique_rate_limited).
  - vm_compute. reflexivity.
  - vm_compute. reflexivity.
  - intros [|[|[|[|[|i]]]]] Hi; try reflexivity. lia.
  - vm_compute. reflexivity.
Defined.

Lemma starts_with_app (sub post : str) : starts_with sub (sub ++ post) = true.
Proof.
  induction sub as [|x sub IH]; [reflexivity|].
  cbn. rewrite N.eqb_refl. exact IH.
Qed.

Lemma starts_with_longer (sub s post : str) :
  starts_with sub s = true -> starts_with sub (s ++ post) = true.
Proof.
  revert s. induction sub as [|x sub IH]; intros s H; [reflexivity|].
  destruct s as [|y s]; [discriminate|]. cbn in *.
  apply andb_true_iff in H as [Hxy Hrest]. rewrite Hxy. cbn. apply IH. exact Hrest.
Qed.

Lemma contains_unfold (sub s : str) :
  contains sub s
  = starts_with sub s
    || match s with [] => false | _ :: s' => contains sub s' end.
Proof. destruct s; reflexivity. Qed.

Lemma contains_here (sub post : str) : contains sub (sub ++ post) = true.
Proof. rewrite contains_unfold, starts_with_app. reflexivity. Qed.

Lemma contains_after (sub pre s : str) :
  contains sub s = true -> contains sub (pre ++ s) = true.
Proof.
  intros H. induction pre as [|c pre IH]; [exact H|].
  rewrite contains_unfold. cbn [app]. rewrite IH. apply orb_true_r.
Qed.

Lemma contains_before (sub s post : str) :
  contains sub s = true -> contains sub (s ++ post) = true.
Proof.
  induction s as [|c s IH]; intros H.
  - cbn in H. rewrite orb_false_r in H. destruct sub; [|discriminate].
    destruct post; reflexivity.
  - rewrite contains_unfold in H. apply orb_true_iff in H as [H|H].
    + rewrite contains_unfold, (starts_with_longer sub (c :: s) post H).
      reflexivity.
    + rewrite contains_unfold. cbn [app]. rewrite (IH H). apply orb_true_r.
Qed.

(** [part] occurs in [pre ++ part ++ post]. *)
Lemma contains_middle (part pre post : str) :
  contains part (pre ++ part ++ post) = true.
Proof. apply contains_after, contains_here. Qed.

Lemma _build_context_carries `{L : NumLib} (retrieved : list Retrieved)
    (c : Retrieved) :
  In c retrieved ->
  forall part,
    part = Chunk.text (chunk c) \/ part = Chunk.title (chunk c)
    \/ part = format_3f (relevance_score c) ->
    contains part (_build_context retrieved) = true.
Proof.
  intros Hin part Hpart. induction retrieved as [|r rest IH]; [contradiction|].
  cbn [_build_context]. destruct Hin as [-> | Hin].
  - apply contains_before. destruct Hpart as [-> | [-> | ->]].
    + do 5 apply contains_after. apply contains_here.
    + apply contains_middle.
    + do 3 apply contains_after. apply contains_here.
  - apply contains_after. apply IH. exact Hin.
Qed.

Lemma chat_first_attempt (w : World) (prompt system : str) (temperature : Q)
    (max_tokens : Z) (content : str) :
  upstream w (posts w) (chat_request prompt system temperature max_tokens)
  = ChatCompletion content ->
  fst (chat w prompt system temperature max_tokens) = content.
Proof.
  intros Hreply.
  destruct (chat_attempts_after_rate_limits
              (chat_request prompt system temperature max_tokens) content 0
              [1; 2; 3; 4] [] w) as [Hr _].
  - intros i Hi. cbn in Hi. lia.
  - cbn [length]. rewrite Nat.add_0_r. exact Hreply.
  - exact Hr.
Qed.

(** X11.  The draft call of [process] carries what was retrieved: its
    prompt contains the question and, for every retrieved chunk, its
    title, its score as formatted and its text.  It is this request, under
    the system prompt of the pipeline, that is posted first after the
    retrieval: when the service completes it, the text it sends is the
    draft whose words [process] counts. *)
Theorem draft_prompt_carries_retrieval `{L : NumLib} (self : RAGPipelineV2)
    (query : str) (w w1 : World) (retrieved : list Retrieved) (c : Retrieved) :
  search (vector_store self) query TOP_K w = (Ok retrieved, w1) ->
  In c retrieved ->
  exists prompt,
    contains query prompt = true
    /\ contains (Chunk.title (chunk c)) prompt = true
    /\ contains (format_3f (relevance_score c)) prompt = true
    /\ contains (Chunk.text (chunk c)) prompt = true
    /\ draft_of query retrieved w1 = chat w1 prompt rag_system TEMP_RAG MAX_TOKENS
    /\ forall content,
         upstream w1 (posts w1) (chat_request prompt rag_system TEMP_RAG MAX_TOKENS)
         = ChatCompletion content ->
         exists result self' w',
           process self query w = (Ok result, self', w')
           /\ initial_answer_words (metadata result) = len (split content).
Proof.
  intros Hsearch Hin.
  exists (rag_prompt (_build_context retrieved) query).
  assert (Hparts :
    contains query (rag_prompt (_build_context retrieved) query) = true
    /\ contains (Chunk.title (chunk c))
         (rag_prompt (_build_context retrieved) query) = true
    /\ contains (format_3f (relevance_score c))
         (rag_prompt (_build_context retrieved) query) = true
    /\ contains (Chunk.text (chunk c))
         (rag_prompt (_build_context retrieved) query) = true).
  { unfold rag_prompt.
    split; [do 3 apply contains_after; apply contains_here|].
    repeat split; apply contains_after, contains_before;
      apply _build_context_carries with (c := c); auto. }
  destruct Hparts as (H1 & H2 & H3 & H4).
  repeat (split; [assumption|]).
  split; [reflexivity|].
  intros content Hreply. apply chat_first_attempt in Hreply.
  unfold process. rewrite Hsearch. unfold draft_of.
  destruct (chat w1 (rag_prompt (_build_context retrieved) query) rag_system
              TEMP_RAG MAX_TOKENS) as [answer w2].
  cbn [fst] in Hreply. subst answer.
  destruct (revision_of query content w2) as [revised w3].
  eexists _, _, _. split; reflexivity.
Qed.

Lemma draft_prompt_carries_retrieval_witness :
  exists prompt,
    contains (lit "a") prompt = true
    /\ contains (Chunk.title (chunk sample_hit)) prompt = true
    /\ contains (format_3f (relevance_score sample_hit)) prompt = true
    /\ contains (Chunk.text (chunk sample_hit)) prompt = true
    /\ draft_of (lit "a") retrieved_padded
         (world_after (service (lit "a draft")) 1 1 [])
       = chat (world_after (service (lit "a draft")) 1 1 []) prompt rag_system
           TEMP_RAG MAX_TOKENS
    /\ forall content,
         upstream (world_after (service (lit "a draft")) 1 1 [])
           (posts (world_after (service (lit "a draft")) 1 1 []))
           (chat_request prompt rag_system TEMP_RAG MAX_TOKENS)
         = ChatCompletion content ->
         exists result self' w',
           process {| vector_store := built_store; responses := [] |} (lit "a")
             (world_of (service (lit "a draft")))
           = (Ok result, self', w')
           /\ initial_answer_words (metadata result) = len (split content).
Proof.
  apply (@draft_prompt_carries_retrieval FlatLib
           {| vector_store := built_store; responses := [] |} (lit "a")
           (world_of (service (lit "a draft")))
           (world_after (service (lit "a draft")) 1 1 []) retrieved_padded
           sample_hit).
  - vm_compute. reflexivity.
  - left. reflexivity.
Defined.

(** ** LLMJudge: outcomes, the pattern path, the brace search, truncation *)

Lemma remap_by_preference (a_is : Source) (scores : dict) :
  exists rest,
    remap a_is scores
    = match winner_of a_is (other a_is) (stated_preference (Some scores)) with
      | Ok winner => Ok (dict_set (lit "winner") (PStr winner) rest)
      | Raise e => Raise e
      end.
Proof.
  unfold remap, dict_pop, stated_preference. eexists.
  rewrite dict_get_set_other by (destruct a_is; reflexivity).
  rewrite dict_get_del_other by reflexivity.
  rewrite dict_get_set_other by (destruct a_is; reflexivity).
  rewrite dict_get_del_other by reflexivity.
  reflexivity.
Qed.

Lemma name_is_winner (p : Source) : is_winner (name p).
Proof. destruct p; [left | right; left]; reflexivity. Qed.

Lemma winner_of_outcome (a_is : Source) (preferred : pyval) :
  match preferred with
  | PList _ | PDict _ =>
      exists msg, winner_of a_is (other a_is) preferred = Raise (TypeError msg)
  | _ =>
      exists winner,
        winner_of a_is (other a_is) preferred = Ok winner /\ is_winner winner
  end.
Proof.
  destruct preferred as [| | | |s| |]; cbn [winner_of];
    try (eexists; split; [reflexivity | right; right; reflexivity]);
    try (eexists; reflexivity).
  destruct (str_eqb s (lit "A")); [|destruct (str_eqb s (lit "B"))];
    eexists; (split; [reflexivity|]);
    try apply name_is_winner; right; right; reflexivity.
Qed.

(** X12.  [evaluate] raises only when the preference the judge states is
    a list or a dictionary (a [TypeError], nothing being recorded);
    otherwise it returns a verdict, appended to [evaluations], whose
    winner is [normal], [rag] or [tie]. *)
Theorem evaluate_outcome `{TL : TextLib} (self : LLMJudge)
    (query resp_normal resp_rag : str) (random : Q) (w : World) :
  ends_by_preference self
    (stated_preference
       (_parse (fst (judge_output query resp_normal resp_rag random w))))
    (evaluate self query resp_normal resp_rag random w).
Proof.
  unfold evaluate.
  destruct (judge_output query resp_normal resp_rag random w) as [output w1].
  cbn [fst].
  assert (Hparse : exists scores, _parse output = Some scores)
    by (unfold _parse; destruct (parse_json output); eauto).
  destruct Hparse as [scores ->].
  destruct scores as [|entry more].
  - cbn. exists parse_failed, (lit "tie").
    repeat split. right; right; reflexivity.
  - cbn [verdict_of].
    destruct (remap_by_preference (assign random) (entry :: more)) as [rest ->].
    unfold ends_by_preference.
    set (p := stated_preference _). clearbody p.
    pose proof (winner_of_outcome (assign random) p) as Hw.
    destruct p;
      [ destruct Hw as (winner & Hw & Hwin); rewrite Hw;
        exists (dict_set (lit "winner") (PStr winner) rest), winner;
        split; [reflexivity|]; split; [apply dict_get_set_same | exact Hwin] ..
      | destruct Hw as [msg Hw]; rewrite Hw; exists msg; reflexivity
      | destruct Hw as [msg Hw]; rewrite Hw; exists msg; reflexivity ].
Qed.

(** X13.  When the judge's answer holds no decodable JSON object, the
    scores come from the pattern search, which does not tell the labels
    apart: the verdict gives both pipelines the same scores. *)
Theorem evaluate_patterns_same_scores `{TL : TextLib} (self : LLMJudge)
    (query resp_normal resp_rag : str) (random : Q) (w : World) :
  parse_json (fst (judge_output query resp_normal resp_rag random w)) = None ->
  exists verdict scores,
    fst (fst (evaluate self query resp_normal resp_rag random w)) = Ok verdict
    /\ dict_get (lit "normal_scores") verdict = Some scores
    /\ dict_get (lit "rag_scores") verdict = Some scores.
Proof.
  intros Hjson. unfold evaluate.
  destruct (judge_output query resp_normal resp_rag random w) as [output w1].
  cbn [fst] in *. unfold _parse. rewrite Hjson, verdict_of_patterns.
  assert (Hret : exists v, remap (assign random) (parse_patterns output) = Ok v).
  { unfold parse_patterns.
    destruct (search_prefer (lit "A") output);
      [|destruct (search_prefer (lit "B") output)];
      destruct (assign random); eexists; reflexivity. }
  destruct Hret as [v Hv]. rewrite Hv. cbn [fst].
  destruct (remap_entries _ _ _ Hv) as [Ha Hb].
  exists v. eexists. split; [reflexivity|].
  destruct (assign random); cbn [scores_key other] in Ha, Hb.
  - split; [exact Ha | exact Hb].
  - split; [exact Hb | exact Ha].
Qed.

Lemma evaluate_patterns_same_scores_witness :
  exists verdict scores,
    fst (fst (evaluate {| evaluations := [] |} (lit "q") (lit "n") (lit "r")
                (3 # 4) (world_of (service (lit "accuracy: 5, I prefer A")))))
    = Ok verdict
    /\ dict_get (lit "normal_scores") verdict = Some scores
    /\ dict_get (lit "rag_scores") verdict = Some scores.
Proof.
  apply (@evaluate_patterns_same_scores PlainLib).
  vm_compute. reflexivity.
Defined.

(** X14.  On the same path the winner follows the first preference
    pattern found, [A] being tried before [B]: the pipeline under label A
    if the pattern for A is found, else the pipeline under B if the
    pattern for B is found, else a tie. *)
Theorem evaluate_patterns_winner `{TL : TextLib} (self : LLMJudge)
    (query resp_normal resp_rag : str) (random : Q) (w : World) :
  let output := fst (judge_output query resp_normal resp_rag random w) in
  parse_json output = None ->
  reported_winner (evaluate self query resp_normal resp_rag random w)
  = Ok (Some (PStr (if search_prefer (lit "A") output
                    then name (assign random)
                    else if search_prefer (lit "B") output
                         then name (other (assign random))
                         else lit "tie"))).
Proof.
  intros output Hjson. subst output. rewrite evaluate_winner.
  unfold _parse. rewrite Hjson. unfold parse_patterns, stated_preference.
  cbn [dict_get].
  change (str_eqb (lit "response_a") (lit "preferred")) with false.
  change (str_eqb (lit "response_b") (lit "preferred")) with false.
  change (str_eqb (lit "preferred") (lit "preferred")) with true.
  cbv iota.
  destruct (search_prefer (lit "A") _); [reflexivity|].
  destruct (search_prefer (lit "B") _); reflexivity.
Qed.

Lemma evaluate_patterns_winner_witness :
  reported_winner
    (evaluate {| evaluations := [] |} (lit "q") (lit "n") (lit "r") (3 # 4)
       (world_of (service (lit "I prefer B because accuracy"))))
  = Ok (Some (PStr (lit "normal"))).
Proof.
  apply (@evaluate_patterns_winner PlainLib {| evaluations := [] |}
           (lit "q") (lit "n") (lit "r") (3 # 4)
           (world_of (service (lit "I prefer B because accuracy")))).
  vm_compute. reflexivity.
Defined.

Lemma from_first_open_spec (s t : str) :
  from_first_open s = Some t <->
  exists pre rest, s = pre ++ 123%N :: rest /\ t = 123%N :: rest
                   /\ ~ In 123%N pre.
Proof.
  split.
  - induction s as [|c s IH]; [discriminate|]. cbn [from_first_open].
    destruct (N.eqb_spec c 123) as [-> | Hc].
    + intros H. inversion H; subst. exists [], s. repeat split. intros [].
    + intros H. destruct (IH H) as (pre & rest & -> & -> & Hpre).
      exists (c :: pre), rest. repeat split.
      intros [Heq | Hin]; [congruence | contradiction].
  - intros (pre & rest & -> & -> & Hpre).
    induction pre as [|c pre IH]; cbn [app from_first_open].
    + reflexivity.
    + destruct (N.eqb_spec c 123) as [-> | Hc].
      * contradiction Hpre. left. reflexivity.
      * apply IH. intros Hin. apply Hpre. right. exact Hin.
Qed.

Lemma upto_last_close_None (s : str) :
  upto_last_close s = None <-> ~ In 125%N s.
Proof.
  induction s as [|c s IH]; cbn [upto_last_close].
  - split; [intros _ [] | reflexivity].
  - destruct (upto_last_close s) as [t|].
    + split; [discriminate|]. intros Hn. exfalso.
      assert (Hs : ~ In 125%N s) by (intros Hin; apply Hn; right; exact Hin).
      apply IH in Hs. discriminate.
    + destruct (N.eqb_spec c 125) as [-> | Hc].
      * split; [discriminate|]. intros Hn. contradiction Hn. left. reflexivity.
      * split; [|reflexivity]. intros _ [Heq | Hin]; [congruence|].
        apply (proj1 IH eq_refl). exact Hin.
Qed.

Lemma upto_last_close_spec (s t : str) :
  upto_last_close s = Some t <->
  exists body post, s = body ++ 125%N :: post /\ t = body ++ [125%N]
                    /\ ~ In 125%N post.
Proof.
  split.
  - revert t. induction s as [|c s IH]; intros t; [discriminate|].
    cbn [upto_last_close].
    destruct (upto_last_close s) as [t'|] eqn:E.
    + intros H. inversion H; subst.
      destruct (IH t' eq_refl) as (body & post & -> & -> & Hpost).
      exists (c :: body), post. repeat split. exact Hpost.
    + destruct (N.eqb_spec c 125) as [-> | Hc]; [|discriminate].
      intros H. inversion H; subst. exists [], s. repeat split.
      apply upto_last_close_None. exact E.
  - intros (body & post & -> & -> & Hpost).
    induction body as [|c body IH]; cbn [app upto_last_close].
    + rewrite (proj2 (upto_last_close_None post) Hpost). reflexivity.
    + rewrite IH. reflexivity.
Qed.

(** X15.  The brace search of [_parse] finds a match exactly when an
    opening brace is followed somewhere by a closing one, and the match
    runs from the first opening brace of the text to its last closing
    brace, whatever stands between them. *)
Theorem search_braces_spec (text m : str) :
  search_braces text = Some m <->
  exists pre body post,
    text = pre ++ [123%N] ++ body ++ [125%N] ++ post
    /\ m = [123%N] ++ body ++ [125%N]
    /\ ~ In 123%N pre /\ ~ In 125%N post.
Proof.
  unfold search_braces. split.
  - destruct (from_first_open text) as [s|] eqn:E; [|discriminate].
    apply from_first_open_spec in E as (pre & rest & -> & -> & Hpre).
    intros H. apply upto_last_close_spec in H as (body & post & Hs & -> & Hpost).
    destruct body as [|c body]; [discriminate Hs|].
    inversion Hs; subst. exists pre, body, post. repeat split; assumption.
  - intros (pre & body & post & -> & -> & Hpre & Hpost).
    assert (E : from_first_open (pre ++ [123%N] ++ body ++ [125%N] ++ post)
                = Some (123%N :: body ++ 125%N :: post)).
    { apply from_first_open_spec. exists pre, (body ++ 125%N :: post).
      repeat split. exact Hpre. }
    rewrite E. apply upto_last_close_spec.
    exists (123%N :: body), post. repeat split. exact Hpost.
Qed.

Lemma search_braces_spec_witness :
  search_braces (lit "a{b}c") = Some (lit "{b}").
Proof.
  apply (proj2 (search_braces_spec (lit "a{b}c") (lit "{b}"))).
  exists (lit "a"), (lit "b"), (lit "c").
  repeat split; try reflexivity; cbn; intros [H|[]]; discriminate H.
Defined.

Lemma slice_first_2500 {A} (l : list A) : slice l 0 2500 = firstn 2500 l.
Proof.
  unfold slice, slice_bound, len. cbn [Z.ltb Z.compare].
  assert (Hn : 0 <= Z.of_nat (length l)) by lia.
  rewrite (Z.min_l 0) by lia. cbn [Z.to_nat skipn]. rewrite Z.sub_0_r.
  destruct (Z.le_gt_cases 2500 (Z.of_nat (length l))).
  - rewrite Z.min_l by lia. reflexivity.
  - rewrite Z.min_r by lia. rewrite Nat2Z.id.
    rewrite firstn_all, firstn_all2 by lia. reflexivity.
Qed.

(** X16.  The judge is shown the first 2500 characters of each response
    and no more: two pairs of responses that agree on them are evaluated
    alike, whatever the service. *)
Theorem evaluate_reads_first_2500 `{TL : TextLib} (self : LLMJudge)
    (query resp_normal resp_rag resp_normal' resp_rag' : str) (random : Q)
    (w : World) :
  firstn 2500 resp_normal = firstn 2500 resp_normal' ->
  firstn 2500 resp_rag = firstn 2500 resp_rag' ->
  evaluate self query resp_normal resp_rag random w
  = evaluate self query resp_normal' resp_rag' random w.
Proof.
  intros Hn Hr. unfold evaluate, judge_output.
  destruct (assign random); unfold judge_prompt;
    rewrite !slice_first_2500, Hn, Hr; reflexivity.
Qed.

Lemma evaluate_reads_first_2500_witness :
  evaluate {| evaluations := [] |} (lit "q") (long_answer "A") (lit "r")
    (3 # 4) (world_of (service (lit "I prefer A")))
  = evaluate {| evaluations := [] |} (lit "q") (long_answer "B") (lit "r")
      (3 # 4) (world_of (service (lit "I prefer A"))).
Proof.
  apply (@evaluate_reads_first_2500 PlainLib).
  - vm_compute. reflexivity.
  - reflexivity.
Defined.

(* ================================================================== *)
(** ** The comparison run                                               *)
(* ================================================================== *)

Lemma spends_sleep (p : nat) (c : Z) (d : Q) (w w' : World) :
  spends p c (sleep d w) w' -> spends p c w w'.
Proof. exact (fun H => H). Qed.

Lemma spends_trans (p1 p2 : nat) (c1 c2 : Z) (w1 w2 w3 : World) :
  spends p1 c1 w1 w2 -> spends p2 c2 w2 w3 ->
  spends (p1 + p2) (c1 + c2) w1 w3.
Proof. unfold spends. lia. Qed.

Lemma spends_more (p p' : nat) (c c' : Z) (w w' : World) :
  spends p c w w' -> (p <= p')%nat -> c <= c' -> spends p' c' w w'.
Proof. unfold spends. lia. Qed.

Lemma chat_spends (w : World) (prompt system : str) (temperature : Q)
    (max_tokens : Z) :
  spends 5 1 w (snd (chat w prompt system temperature max_tokens)).
Proof.
  destruct (chat_attempts_budget
              (ChatRequest system prompt temperature max_tokens) (range 5) w)
    as (_ & Hp & _ & Hc & _).
  unfold chat, spends.
  change (length (range 5)) with 5%nat in Hp. lia.
Qed.

Lemma embed_spends `{L : NumLib} (w : World) (texts : list str) :
  spends 5 0 w (snd (embed w texts)).
Proof.
  destruct (embed_attempts_budget texts (range 5) w) as (_ & Hp & _ & Hc & _).
  unfold embed, spends.
  change (length (range 5)) with 5%nat in Hp. lia.
Qed.

Lemma search_spends `{L : NumLib} (self : VectorStore) (query : str)
    (top_k : Z) (w : World) :
  spends 5 0 w (snd (search self query top_k w)).
Proof.
  pose proof (embed_spends w [query]) as He. unfold search.
  destruct (embed w [query]) as [[query_emb|e] w1]; cbn [snd] in *; [|exact He].
  destruct (faiss_normalize_L2 query_emb); [|exact He].
  destruct (index self); [|exact He].
  destruct (index_search _ _ _); exact He.
Qed.

Lemma process_spends `{L : NumLib} (self : RAGPipelineV2) (query : str)
    (w : World) :
  spends 15 2 w (snd (process self query w)).
Proof.
  pose proof (search_spends (vector_store self) query TOP_K w) as Hs.
  unfold process.
  destruct (search (vector_store self) query TOP_K w) as [[retrieved|e] w1];
    cbn [snd] in *; [|apply (spends_more _ _ _ _ _ _ Hs); lia].
  unfold draft_of, revision_of.
  pose proof (chat_spends w1 (rag_prompt (_build_context retrieved) query)
                rag_system TEMP_RAG MAX_TOKENS) as Hd.
  destruct (chat w1 _ rag_system TEMP_RAG MAX_TOKENS) as [answer w2].
  pose proof (chat_spends (sleep REQUEST_DELAY w2) (critique_prompt query answer)
                critique_system TEMP_RAG MAX_TOKENS) as Hr.
  destruct (chat (sleep REQUEST_DELAY w2) _ critique_system TEMP_RAG MAX_TOKENS)
    as [revised w3].
  cbn [snd] in *. apply spends_sleep in Hr.
  exact (spends_trans _ _ _ _ _ _ _ (spends_trans _ _ _ _ _ _ _ Hs Hd) Hr).
Qed.

Lemma evaluate_spends `{TL : TextLib} (self : LLMJudge)
    (query resp_normal resp_rag : str) (random : Q) (w : World) :
  spends 5 1 w (snd (evaluate self query resp_normal resp_rag random w)).
Proof.
  unfold evaluate, judge_output.
  destruct (assign random).
  - pose proof (chat_spends w (judge_prompt query resp_normal resp_rag)
                  JUDGE_SYSTEM TEMP_JUDGE MAX_TOKENS) as Hc.
    destruct (chat w _ JUDGE_SYSTEM TEMP_JUDGE MAX_TOKENS) as [out w1].
    destruct (verdict_of _ _); exact Hc.
  - pose proof (chat_spends w (judge_prompt query resp_rag resp_normal)
                  JUDGE_SYSTEM TEMP_JUDGE MAX_TOKENS) as Hc.
    destruct (chat w _ JUDGE_SYSTEM TEMP_JUDGE MAX_TOKENS) as [out w1].
    destruct (verdict_of _ _); exact Hc.
Qed.

Lemma normal_process_spends (self : NormalMistral.t) (query : str) (w : World) :
  spends 5 1 w (snd (NormalMistral.process self query w)).
Proof.
  unfold NormalMistral.process.
  pose proof (chat_spends w query (lit "You are a helpful assistant.")
                TEMP_NORMAL MAX_TOKENS) as Hc.
  destruct (chat w query _ TEMP_NORMAL MAX_TOKENS) as [out w1]. exact Hc.
Qed.

Section Run.
Context `{L : NumLib} `{TL : TextLib}.

Lemma run_query_spends (self : Framework.t) (q : Query.t) (random : Q)
    (w : World) :
  spends 25 4 w (snd (run_query self q random w)).
Proof.
  unfold run_query.
  pose proof (normal_process_spends (Framework.normal self) (Query.query q) w)
    as Hn.
  destruct (NormalMistral.process _ _ w) as [[normal_result normal'] w1].
  pose proof (process_spends (Framework.rag self) (Query.query q)
                (sleep REQUEST_DELAY w1)) as Hp.
  apply spends_sleep in Hp. cbn [snd] in Hn.
  pose proof (spends_trans _ _ _ _ _ _ _ Hn Hp) as Hnp.
  destruct (process _ _ (sleep REQUEST_DELAY w1)) as [[[rag_result|e] rag'] w2];
    cbn [snd] in *; [|apply (spends_more _ _ _ _ _ _ Hnp); lia].
  pose proof (evaluate_spends (Framework.judge self) (Query.query q)
                (snd normal_result) (output rag_result) random
                (sleep REQUEST_DELAY w2)) as He.
  apply spends_sleep in He.
  pose proof (spends_trans _ _ _ _ _ _ _ Hnp He) as Hall.
  destruct (evaluate _ _ _ _ random (sleep REQUEST_DELAY w2))
    as [[[judge_result|e] judge'] w3]; cbn [snd] in *; [|exact Hall].
  destruct (print_verdict judge_result); exact Hall.
Qed.

Lemma run_queries_spends (queries : list Query.t) (draws : nat -> Q) :
  forall (self : Framework.t) (k : nat) (w : World),
    spends (25 * length queries) (4 * len queries) w
      (snd (run_queries self queries draws k w)).
Proof.
  unfold len.
  induction queries as [|q rest IH]; intros self k w; cbn [run_queries length].
  - cbn [snd]. unfold spends. lia.
  - pose proof (run_query_spends self q (draws k) w) as Hq.
    destruct (run_query self q (draws k) w) as [[[[]|e|key] self'] w'];
      cbn [snd] in *; try (apply (spends_more _ _ _ _ _ _ Hq); lia).
    specialize (IH self' (S k) w').
    apply (spends_more _ _ _ _ _ _ (spends_trans _ _ _ _ _ _ _ Hq IH)); lia.
Qed.

End Run.

(** What [evaluate] returns names a pipeline or a tie as the winner. *)
Lemma evaluate_returns_winner `{TL : TextLib} (self : LLMJudge)
    (query resp_normal resp_rag : str) (random : Q) (w : World)
    (verdict : dict) :
  fst (fst (evaluate self query resp_normal resp_rag random w)) = Ok verdict ->
  exists winner,
    dict_get (lit "winner") verdict = Some (PStr winner) /\ is_winner winner.
Proof.
  intros Hev.
  pose proof (evaluate_winner self query resp_normal resp_rag random w) as Hw.
  unfold reported_winner in Hw. rewrite Hev in Hw.
  set (p := stated_preference _) in Hw. clearbody p.
  pose proof (winner_of_outcome (assign random) p) as Ho.
  destruct (winner_of (assign random) (other (assign random)) p) as [winner|e];
    [|discriminate].
  inversion Hw as [Hget]. exists winner. split; [exact Hget|].
  destruct p; try (destruct Ho as (w0 & Hok & Hwin); inversion Hok; subst;
                   exact Hwin);
    destruct Ho as [msg Hr]; discriminate.
Qed.

(** What [evaluate] returns and records. *)
Lemma evaluate_records `{TL : TextLib} (self self' : LLMJudge)
    (query resp_normal resp_rag : str) (random : Q) (w w' : World)
    (verdict : dict) :
  evaluate self query resp_normal resp_rag random w = (Ok verdict, self', w') ->
  evaluations self' = evaluations self ++ [verdict].
Proof.
  unfold evaluate.
  destruct (judge_output _ _ _ _ _) as [out w1].
  destruct (verdict_of _ _); intros H; inversion H; subst; reflexivity.
Qed.

Lemma process_records `{L : NumLib} (self self' : RAGPipelineV2) (query : str)
    (w w' : World) (r : Response) :
  process self query w = (Ok r, self', w') ->
  responses self' = responses self ++ [r]
  /\ vector_store self' = vector_store self.
Proof.
  unfold process.
  destruct (search _ _ _ _) as [[retrieved|e] w1]; [|discriminate].
  destruct (draft_of _ _ _) as [answer w2].
  destruct (revision_of _ _ _) as [revised w3].
  intros H; inversion H; subst. split; reflexivity.
Qed.

Lemma print_verdict_done (v : dict) :
  print_verdict v = Done tt ->
  (exists ns, or_empty (dict_get (lit "normal_scores") v) = PDict ns)
  /\ (exists rs, or_empty (dict_get (lit "rag_scores") v) = PDict rs).
Proof.
  unfold print_verdict.
  destruct (dict_get (lit "winner") v) as [[| | | |s| |]|]; try discriminate.
  destruct (or_empty (dict_get (lit "normal_scores") v)); try discriminate.
  destruct (or_empty (dict_get (lit "rag_scores") v)); try discriminate.
  eauto.
Qed.

Section RunRows.
Context `{L : NumLib} `{TL : TextLib}.

Lemma run_query_done (self self' : Framework.t) (q : Query.t) (random : Q)
    (w w' : World) :
  run_query self q random w = (Done tt, self', w') ->
  exists row,
    Framework.results self' = Framework.results self ++ [row]
    /\ row_of q row /\ summarisable row
    /\ evaluations (Framework.judge self')
       = evaluations (Framework.judge self) ++ [Row.judge row]
    /\ NormalMistral.responses (Framework.normal self')
       = NormalMistral.responses (Framework.normal self)
         ++ [(Query.query q, Row.normal_output row)]
    /\ (exists r, responses (Framework.rag self')
                  = responses (Framework.rag self) ++ [r]
                  /\ query r = Query.query q
                  /\ output r = Row.rag_output row
                  /\ chunk_sources (metadata r) = Row.rag_sources row).
Proof.
  unfold run_query, NormalMistral.process.
  destruct (chat w _ _ TEMP_NORMAL MAX_TOKENS) as [out w1]. cbn [snd].
  destruct (process _ _ (sleep REQUEST_DELAY w1)) as [[[rag_result|e] rag'] w2]
    eqn:Hp; [|discriminate].
  destruct (evaluate _ _ _ _ random (sleep REQUEST_DELAY w2))
    as [[[judge_result|e] judge'] w3] eqn:He; [|discriminate].
  destruct (print_verdict judge_result) as [[]|e|key] eqn:Hv; try discriminate.
  intros H; inversion H; subst; clear H. cbn.
  eexists; split; [reflexivity|]. cbn.
  pose proof (evaluate_returns_winner (Framework.judge self) (Query.query q) out
                (output rag_result) random (sleep REQUEST_DELAY w2) judge_result)
    as Hw.
  rewrite He in Hw. specialize (Hw eq_refl).
  destruct (print_verdict_done _ Hv) as [Hns Hrs].
  apply evaluate_records in He.
  pose proof Hp as Hq. apply process_records in Hp. destruct Hp as [Hresp _].
  repeat split; try assumption.
  exists rag_result. repeat split; try assumption.
  unfold process in Hq.
  destruct (search _ _ _ _) as [[retrieved|e] w1']; [|discriminate].
  destruct (draft_of _ _ _) as [answer w2'].
  destruct (revision_of _ _ _) as [revised w3'].
  inversion Hq; subst. reflexivity.
Qed.

Lemma run_queries_done (queries : list Query.t) (draws : nat -> Q) :
  forall (self self' : Framework.t) (k : nat) (w w' : World),
    run_queries self queries draws k w = (Done tt, self', w') ->
    exists rows,
      Framework.results self' = Framework.results self ++ rows
      /\ Forall2 row_of queries rows
      /\ Forall summarisable rows
      /\ evaluations (Framework.judge self')
         = evaluations (Framework.judge self) ++ map Row.judge rows
      /\ map snd (NormalMistral.responses (Framework.normal self'))
         = map snd (NormalMistral.responses (Framework.normal self))
           ++ map Row.normal_output rows
      /\ map output (responses (Framework.rag self'))
         = map output (responses (Framework.rag self)) ++ map Row.rag_output rows.
Proof.
  induction queries as [|q rest IH]; intros self self' k w w' Hrun;
    cbn [run_queries] in Hrun.
  - inversion Hrun; subst. exists []. cbn. rewrite !app_nil_r.
    repeat split; constructor.
  - destruct (run_query self q (draws k) w) as [[[[]|e|key] self1] w1] eqn:Hq;
      try discriminate.
    apply run_query_done in Hq.
    destruct Hq as (row & Hres & Hrow & Hsum & Hev & Hn & r & Hr & _ & Hout & _).
    apply IH in Hrun.
    destruct Hrun as (rows & Hres' & Hrows & Hsums & Hev' & Hn' & Hr').
    exists (row :: rows). cbn [map].
    rewrite Hres', Hres, Hev', Hev, Hn', Hn, Hr', Hr, !map_app. cbn [map snd].
    rewrite Hout, <- !app_assoc. cbn [app].
    repeat split; constructor; assumption.
Qed.

End RunRows.

Lemma count_wins_summarisable (rows : list Row.t) :
  Forall summarisable rows ->
  forall wins,
    exists wins',
      count_wins wins rows = Done wins'
      /\ plot_wins wins rows = wins'
      /\ total wins' = total wins + len rows
      /\ wins_normal wins <= wins_normal wins'
      /\ wins_rag wins <= wins_rag wins'
      /\ wins_tie wins <= wins_tie wins'.
Proof.
  unfold total, len.
  induction 1 as [|r rows [(winner & Hw & Hwin) _] _ IH]; intros wins.
  - exists wins. cbn. repeat split; lia.
  - cbn [count_wins plot_wins]. unfold winner_key. rewrite Hw.
    destruct Hwin as [-> | [-> | ->]];
      repeat match goal with
             | |- context [str_eqb (lit ?a) (lit ?b)] =>
                 let v := eval vm_compute in (str_eqb (lit a) (lit b)) in
                 change (str_eqb (lit a) (lit b)) with v
             end;
      cbv iota;
      match goal with
      | |- context [count_wins ?w0 rows] =>
          destruct (IH w0) as (wins' & Hc & Hp & Ht & Hn & Hr & Hti)
      end;
      exists wins'; cbn [wins_normal wins_rag wins_tie length] in *;
      (split; [exact Hc|]); (split; [exact Hp|]); lia.
Qed.

(** X17.  A run that completes appends one row per query, in the order of
    the queries: each row carries the id, category and tests of its query
    and the word counts of its two outputs, and the verdicts, the plain
    outputs and the RAG outputs of the rows are what the judge and the two
    pipelines recorded during the run. *)
Theorem run_rows_follow_queries `{L : NumLib} `{TL : TextLib}
    (self : Framework.t) (queries : list Query.t) (draws : nat -> Q)
    (k : nat) (w : World) :
  fst (fst (run_queries self queries draws k w)) = Done tt ->
  exists rows,
    Framework.results (snd (fst (run_queries self queries draws k w)))
    = Framework.results self ++ rows
    /\ Forall2 row_of queries rows
    /\ evaluations
         (Framework.judge (snd (fst (run_queries self queries draws k w))))
       = evaluations (Framework.judge self) ++ map Row.judge rows
    /\ map snd
         (NormalMistral.responses
            (Framework.normal (snd (fst (run_queries self queries draws k w)))))
       = map snd (NormalMistral.responses (Framework.normal self))
         ++ map Row.normal_output rows
    /\ map output
         (responses
            (Framework.rag (snd (fst (run_queries self queries draws k w)))))
       = map output (responses (Framework.rag self)) ++ map Row.rag_output rows.
Proof.
  destruct (run_queries self queries draws k w) as [[r self'] w'] eqn:Hrun.
  cbn [fst snd]. intros ->. apply run_queries_done in Hrun.
  destruct Hrun as (rows & Hres & Hrows & _ & Hev & Hn & Hr).
  exists rows. repeat split; assumption.
Qed.

Lemma run_rows_follow_queries_witness :
  exists rows,
    Framework.results
      (snd (fst (run_queries fresh_framework TEST_QUERIES (fun _ => 3 # 4) 0
                   (world_of judging_service))))
    = Framework.results fresh_framework ++ rows
    /\ Forall2 row_of TEST_QUERIES rows
    /\ evaluations
         (Framework.judge
            (snd (fst (run_queries fresh_framework TEST_QUERIES (fun _ => 3 # 4) 0
                         (world_of judging_service)))))
       = evaluations (Framework.judge fresh_framework) ++ map Row.judge rows
    /\ map snd
         (NormalMistral.responses
            (Framework.normal
               (snd (fst (run_queries fresh_framework TEST_QUERIES
                            (fun _ => 3 # 4) 0 (world_of judging_service))))))
       = map snd (NormalMistral.responses (Framework.normal fresh_framework))
         ++ map Row.normal_output rows
    /\ map output
         (responses
            (Framework.rag
               (snd (fst (run_queries fresh_framework TEST_QUERIES
                            (fun _ => 3 # 4) 0 (world_of judging_service))))))
       = map output (responses (Framework.rag fresh_framework))
         ++ map Row.rag_output rows.
Proof.
  apply (@run_rows_follow_queries FlatLib PlainLib fresh_framework TEST_QUERIES
           (fun _ => 3 # 4) 0%nat (world_of judging_service)).
  vm_compute. reflexivity.
Defined.

(** X18.  Whatever the service answers and however the run ends, the loop
    over the queries posts at most 25 requests per query (five attempts
    for each of the plain answer, the query embedding, the draft, the
    revision and the judgement) and counts at most four chat calls per
    query. *)
Theorem run_request_budget `{L : NumLib} `{TL : TextLib} (self : Framework.t)
    (queries : list Query.t) (draws : nat -> Q) (k : nat) (w : World) :
  spends (25 * length queries) (4 * len queries) w
    (snd (run_queries self queries draws k w)).
Proof. apply run_queries_spends. Qed.

(** X19.  After a completed run from an empty result list, the tally of
    the summary does not fail, agrees with the tally of the plot, and its
    three counts are non-negative and add up to the number of queries. *)
Theorem summary_wins_total `{L : NumLib} `{TL : TextLib}
    (self : Framework.t) (queries : list Query.t) (draws : nat -> Q)
    (k : nat) (w : World) :
  Framework.results self = [] ->
  fst (fst (run_queries self queries draws k w)) = Done tt ->
  exists wins,
    count_wins no_wins
      (Framework.results (snd (fst (run_queries self queries draws k w))))
    = Done wins
    /\ plot_wins no_wins
         (Framework.results (snd (fst (run_queries self queries draws k w))))
       = wins
    /\ total wins = len queries
    /\ 0 <= wins_normal wins /\ 0 <= wins_rag wins /\ 0 <= wins_tie wins.
Proof.
  intros Hempty.
  destruct (run_queries self queries draws k w) as [[r self'] w'] eqn:Hrun.
  cbn [fst snd]. intros ->. apply run_queries_done in Hrun.
  destruct Hrun as (rows & Hres & Hrows & Hsum & _).
  rewrite Hres, Hempty. cbn [app].
  destruct (count_wins_summarisable rows Hsum no_wins)
    as (wins & Hc & Hp & Ht & Hn & Hr & Hti).
  exists wins. cbn [no_wins wins_normal wins_rag wins_tie] in *.
  unfold len in *. rewrite (Forall2_length Hrows).
  change (total no_wins) with 0 in Ht.
  repeat split; try assumption; lia.
Qed.

Lemma summary_wins_total_witness :
  exists wins,
    count_wins no_wins
      (Framework.results
         (snd (fst (run_queries fresh_framework TEST_QUERIES (fun _ => 3 # 4) 0
                      (world_of judging_service)))))
    = Done wins
    /\ plot_wins no_wins
         (Framework.results
            (snd (fst (run_queries fresh_framework TEST_QUERIES (fun _ => 3 # 4)
                         0 (world_of judging_service)))))
       = wins
    /\ total wins = len TEST_QUERIES
    /\ 0 <= wins_normal wins /\ 0 <= wins_rag wins /\ 0 <= wins_tie wins.
Proof.
  apply (@summary_wins_total FlatLib PlainLib fresh_framework TEST_QUERIES
           (fun _ => 3 # 4) 0%nat (world_of judging_service)).
  - reflexivity.
  - vm_compute. reflexivity.
Defined.

(** X20.  When the judge's JSON answer holds, under [response_a],
    something that is not an object, the step for that query ends in an
    [AttributeError] raised by the report lines: the verdict has been
    recorded by the judge, but no row is appended to the results. *)
Theorem run_query_scores_not_object `{L : NumLib} `{TL : TextLib}
    (self : Framework.t) (q : Query.t) (random : Q) (w : World) (out : str)
    (scores : dict) (v : pyval) :
  judged_answer self q random w = Ok out ->
  parse_json out = Some scores ->
  dict_get (lit "response_a") scores = Some v ->
  is_dict v = false ->
  hashable (stated_preference (Some scores)) = true ->
  exists bad verdict,
    fst (fst (run_query self q random w)) = Failed (no_attribute bad "get")
    /\ is_dict bad = false
    /\ Framework.results (snd (fst (run_query self q random w)))
       = Framework.results self
    /\ evaluations (Framework.judge (snd (fst (run_query self q random w))))
       = evaluations (Framework.judge self) ++ [verdict].
Proof.
  unfold judged_answer, run_query.
  destruct (NormalMistral.process _ _ w) as [[normal_result normal'] w1].
  cbn [fst snd].
  destruct (process _ _ (sleep REQUEST_DELAY w1)) as [[[rag_result|e] rag'] w2];
    [|discriminate].
  unfold evaluate.
  destruct (judge_output _ _ _ random (sleep REQUEST_DELAY w2)) as [out' w3].
  cbn [fst]. intros Hout Hparse Ha Hv Hpref. inversion Hout; subst out'.
  unfold _parse. rewrite Hparse.
  destruct scores as [|entry more]; [discriminate|].
  cbn [verdict_of].
  pose proof (remap_entries (assign random) (entry :: more)) as Hent.
  pose proof (remap_winner (assign random) (entry :: more)) as Hwin.
  assert (Hok : exists winner,
             winner_of (assign random) (other (assign random))
               (stated_preference (Some (entry :: more))) = Ok winner).
  { pose proof (winner_of_outcome (assign random)
                  (stated_preference (Some (entry :: more)))) as Ho.
    change (hashable (stated_preference (Some (entry :: more))) = true)
      in Hpref.
    revert Hpref Ho.
    generalize (stated_preference (Some (entry :: more))).
    intros p Hpref Ho.
    destruct p; cbn [hashable] in Hpref; try discriminate Hpref;
      destruct Ho as (winner & Hok & _); eauto. }
  destruct Hok as [winner Hok].
  assert (Hwin' : match remap (assign random) (entry :: more) with
                  | Ok verdict => Ok (dict_get (lit "winner") verdict)
                  | Raise e => Raise e
                  end = Ok (Some (PStr winner))).
  { etransitivity; [exact Hwin|].
    exact (f_equal (fun r => match r with
                             | Ok x => Ok (Some (PStr x))
                             | Raise e => Raise e
                             end) Hok). }
  clear Hwin. rename Hwin' into Hwin.
  destruct (remap (assign random) (entry :: more)) as [verdict|e];
    [|discriminate].
  destruct (Hent verdict eq_refl) as [Hfirst Hsecond]. clear Hent.
  rewrite Ha in Hfirst. cbn [or_empty] in Hfirst.
  inversion Hwin as [Hget]. clear Hwin.
  unfold print_verdict. rewrite Hget.
  destruct (assign random); cbn [scores_key other] in Hfirst, Hsecond.
  - rewrite Hfirst. cbn [or_empty].
    destruct v; try discriminate;
      (eexists _, verdict; split; [reflexivity|];
       split; [reflexivity|]; split; reflexivity).
  - rewrite Hsecond, Hfirst. cbn [or_empty].
    destruct (or_empty (dict_get (lit "response_b") (entry :: more)));
      try (eexists _, verdict; split; [reflexivity|];
           split; [reflexivity|]; split; reflexivity);
      destruct v; try discriminate;
      (eexists _, verdict; split; [reflexivity|];
       split; [reflexivity|]; split; reflexivity).
Qed.

Lemma run_query_scores_not_object_witness :
  exists bad verdict,
    fst (fst (run_query fresh_framework first_query (3 # 4)
                (world_of number_for_scores)))
    = Failed (no_attribute bad "get")
    /\ is_dict bad = false
    /\ Framework.results
         (snd (fst (run_query fresh_framework first_query (3 # 4)
                      (world_of number_for_scores))))
       = Framework.results fresh_framework
    /\ evaluations
         (Framework.judge
            (snd (fst (run_query fresh_framework first_query (3 # 4)
                         (world_of number_for_scores)))))
       = evaluations (Framework.judge fresh_framework) ++ [verdict].
Proof.
  eapply (@run_query_scores_not_object FlatLib PlainLib fresh_framework
            first_query (3 # 4) (world_of number_for_scores)).
  - vm_compute. reflexivity.
  - vm_compute. reflexivity.
  - vm_compute. reflexivity.
  - reflexivity.
  - reflexivity.
Defined.

(** X21.  Building the framework over any documents comes to an end: with
    the default window of 300 words and overlap of 50 the chunker returns
    on every document.  The constructor then ends as [build_index] does on
    the chunks, in the same world: it raises the exception [build_index]
    raises, or it returns the framework with nothing recorded around the
    store [build_index] built, which holds the chunks of the documents
    under the index filled with their normalised embeddings. *)
Theorem ComparisonFramework_init_returns `{L : NumLib} (fuel : nat)
    (documents : list Doc.t) (w : World) :
  (enough_fuel documents <= fuel)%nat ->
  exists cks,
    chunk_documents fuel DocumentChunker_default documents = Some cks
    /\ ((exists e,
           fst (fst (build_index VectorStore_init cks w)) = Raise e
           /\ ComparisonFramework_init fuel documents w
              = Some (Raise e, snd (build_index VectorStore_init cks w)))
        \/ (exists store,
              build_index VectorStore_init cks w
              = (Ok tt, store, snd (build_index VectorStore_init cks w))
              /\ built_from cks w store
              /\ ComparisonFramework_init fuel documents w
                 = Some (Ok (framework_over store),
                         snd (build_index VectorStore_init cks w)))).
Proof.
  intros Hfuel.
  destruct (chunk_documents_from_total fuel DocumentChunker_default documents
              ltac:(reflexivity) Hfuel 0) as [cks Hc].
  unfold ComparisonFramework_init, chunk_documents. rewrite Hc.
  exists cks. split; [reflexivity|].
  unfold built_from, build_index. cbv zeta.
  destruct (embed_batches _ _ w) as [[all_embeddings|e] w1];
    [|left; eexists; split; reflexivity].
  destruct (np_vstack all_embeddings) as [stacked|e] eqn:Hstack;
    [|left; eexists; split; reflexivity].
  destruct (faiss_IndexFlatIP stacked) as [empty_index|e] eqn:Hindex;
    [|left; eexists; split; reflexivity].
  destruct (faiss_normalize_L2 (Some stacked)) as [normalized|e] eqn:Hnorm;
    [|left; eexists; split; reflexivity].
  destruct (index_add empty_index normalized) as [full_index|e] eqn:Hadd;
    [|left; eexists; split; reflexivity].
  right. eexists. split; [reflexivity|]. split; [|reflexivity].
  exists all_embeddings, stacked, normalized, empty_index, full_index.
  repeat split; assumption.
Qed.

Lemma ComparisonFramework_init_returns_witness :
  exists cks,
    chunk_documents 6 DocumentChunker_default [sample_doc] = Some cks
    /\ ((exists e,
           fst (fst (build_index VectorStore_init cks
                       (world_of (service (lit "ok"))))) = Raise e
           /\ ComparisonFramework_init 6 [sample_doc]
                (world_of (service (lit "ok")))
              = Some (Raise e,
                      snd (build_index VectorStore_init cks
                             (world_of (service (lit "ok"))))))
        \/ (exists store,
              build_index VectorStore_init cks (world_of (service (lit "ok")))
              = (Ok tt, store,
                 snd (build_index VectorStore_init cks
                        (world_of (service (lit "ok")))))
              /\ built_from cks (world_of (service (lit "ok"))) store
              /\ ComparisonFramework_init 6 [sample_doc]
                   (world_of (service (lit "ok")))
                 = Some (Ok (framework_over store),
                         snd (build_index VectorStore_init cks
                                (world_of (service (lit "ok"))))))).
Proof.
  apply (@ComparisonFramework_init_returns FlatLib 6 [sample_doc]
           (world_of (service (lit "ok")))).
  vm_compute. lia.
Defined.
